(** * Nova voice-assistant client: codec, resampler, audio pipeline,
      playback scheduler, session state machine and tool dispatcher.

    A shallow embedding of [src/services/audioUtils.ts], of the handlers
    of [src/hooks/useNova.ts] and of the handlers of [src/App.tsx] and the
    visualiser that compute something, followed by the properties of the
    specification that concern them (Part II) and by further properties
    of the code (Part III).

    Conventions of the embedding.
    - A [Uint8Array] is a [list byte]; a JavaScript string is a [string]
      (code units below 256, which is all that [btoa], [atob] and the
      normalisation of URLs are traced on here).
    - An [Int16Array] is a [list Z] of values in [-32768, 32767].
    - A JavaScript number holding an audio sample, a time or a rate is a
      rational [Q]: the arithmetic of the code is carried out exactly.
      For the codec this is no idealisation: a [Float32Array] sample has a
      24-bit significand, its products by [0x8000] and [0x7FFF] and the
      quotient of a 16-bit integer by [32768] are all exact in binary64.
      Elsewhere it is one: module [Binary64] repeats the numeric
      expressions on binary64 floats, to run them on the inputs of the
      examples and compare.
    - Handlers are functions on an explicit record of the hook's refs and
      React state ([Nova]); code that can throw lives in the [Exc] monad,
      handlers that throw in a state-and-exception monad [M]. *)

From Stdlib Require Import ZArith NArith QArith Qround Qabs Qminmax Lia Lqa ZifyNat Bool List.
From Stdlib Require Import Ascii String.
From Stdlib Require Strings.Byte.
From Stdlib Require Uint63 Floats.
Import Stdlib.Init.Byte.
Import ListNotations.

Local Open Scope string_scope.
Local Open Scope Z_scope.

Ltac Zify.zify_post_hook ::= Z.to_euclidean_division_equations.

(* ===================================================================== *)
(** * Part I: the program                                                 *)
(* ===================================================================== *)

(** ** Exceptions *)

(** A thrown JavaScript [Error]; only its [message] is ever inspected. *)
Record JsError := mkError { message : string }.

Inductive Exc (A : Type) : Type :=
| Ok (a : A)
| Throw (e : JsError).
Arguments Ok {A} a.
Arguments Throw {A} e.

Definition bindE {A B} (m : Exc A) (k : A -> Exc B) : Exc B :=
  match m with
  | Ok a => k a
  | Throw e => Throw e
  end.

Notation "x <- m ;; k" := (bindE m (fun x => k))
  (at level 61, m at next level, right associativity).

(** ** The platform's base64 ([btoa], [atob]) *)

Module Base64.

Definition alphabet : list ascii :=
  list_ascii_of_string
    "ABCDEFGHIJKLMNOPQRSTUVWXYZabcdefghijklmnopqrstuvwxyz0123456789+/".

(** The character of a 6-bit value. *)
Definition sextet_char (n : N) : ascii :=
  nth (N.to_nat n) alphabet "A"%char.

(** The 6-bit value of a character of the alphabet. *)
Definition char_sextet (c : ascii) : option N :=
  let n := N_of_ascii c in
  if ((65 <=? n) && (n <=? 90))%N then Some (n - 65)%N
  else if ((97 <=? n) && (n <=? 122))%N then Some (n - 71)%N
  else if ((48 <=? n) && (n <=? 57))%N then Some (n + 4)%N
  else if (n =? 43)%N then Some 62%N
  else if (n =? 47)%N then Some 63%N
  else None.

(** The 6-bit values of a binary string: each group of three bytes (24
    bits) gives four values; a last group of one or two bytes gives two or
    three, its missing low bits being zero. *)
Fixpoint sextets (l : list N) : list N :=
  (match l with
   | [] => []
   | [a] => [a / 4; (a mod 4) * 16]
   | [a; b] => [a / 4; (a mod 4) * 16 + b / 16; (b mod 16) * 4]
   | a :: b :: c :: rest =>
       a / 4
       :: (a mod 4) * 16 + b / 16
       :: (b mod 16) * 4 + c / 64
       :: c mod 64
       :: sextets rest
   end)%N.

(** ['='] characters completing the output to a multiple of four. *)
Definition padding (nbytes : nat) : list ascii :=
  match (nbytes mod 3)%nat with
  | 1%nat => ["="%char; "="%char]
  | 2%nat => ["="%char]
  | _ => []
  end.

Definition btoa_chars (l : list ascii) : list ascii :=
  map sextet_char (sextets (map N_of_ascii l)) ++ padding (List.length l).

(** [btoa(binary)].  Every code unit of a [string] is below 256, so the
    [InvalidCharacterError] of the platform cannot occur. *)
Definition btoa (binary : string) : string :=
  string_of_list_ascii (btoa_chars (list_ascii_of_string binary)).

(** ASCII whitespace: TAB, LF, FF, CR and SPACE. *)
Definition is_ascii_whitespace (c : ascii) : bool :=
  let n := N_of_ascii c in
  ((n =? 9) || (n =? 10) || (n =? 12) || (n =? 13) || (n =? 32))%N.

(** Removes a final ['='], if there is one. *)
Definition drop_last_eq (l : list ascii) : list ascii :=
  match rev l with
  | c :: r => if (c =? "=")%char then rev r else l
  | [] => l
  end.

(** "If data ends with one or two ['='], remove them." *)
Definition strip_padding (l : list ascii) : list ascii :=
  drop_last_eq (drop_last_eq l).

Fixpoint char_sextets (l : list ascii) : option (list N) :=
  match l with
  | [] => Some []
  | c :: r =>
      match char_sextet c, char_sextets r with
      | Some v, Some vs => Some (v :: vs)
      | _, _ => None
      end
  end.

(** The bit buffer of the decoder: 24 bits give three bytes; 12 bits left
    at the end give one byte (the last four are dropped) and 18 bits give
    two (the last two are dropped). *)
Fixpoint octets (l : list N) : list N :=
  (match l with
   | s1 :: s2 :: s3 :: s4 :: rest =>
       s1 * 4 + s2 / 16
       :: (s2 mod 16) * 16 + s3 / 4
       :: (s3 mod 4) * 64 + s4
       :: octets rest
   | [s1; s2; s3] => [s1 * 4 + s2 / 16; (s2 mod 16) * 16 + s3 / 4]
   | [s1; s2] => [s1 * 4 + s2 / 16]
   | _ => []
   end)%N.

(** The forgiving base64 decoding of the platform; [None] is the
    [InvalidCharacterError] of [atob]. *)
Definition atob_chars (data : list ascii) : option (list ascii) :=
  let data := filter (fun c => negb (is_ascii_whitespace c)) data in
  let data :=
    if (List.length data mod 4 =? 0)%nat then strip_padding data else data in
  if (List.length data mod 4 =? 1)%nat then None
  else option_map (fun vs => map ascii_of_N (octets vs)) (char_sextets data).

Definition atob (data : string) : option string :=
  option_map string_of_list_ascii (atob_chars (list_ascii_of_string data)).

End Base64.

(** ** [src/services/audioUtils.ts] *)

Definition PCM_SAMPLE_RATE_INPUT : Q := 16000.
Definition PCM_SAMPLE_RATE_OUTPUT : Q := 24000.

(** [decode(base64)]: the bytes of [atob(base64)]; throws when [atob] does. *)
Definition decode (base64 : string) : Exc (list byte) :=
  match Base64.atob base64 with
  | Some binaryString => Ok (list_byte_of_string binaryString)
  | None => Throw (mkError "The string to be decoded is not correctly encoded.")
  end.

(** [encode(bytes)]: [btoa] of the binary string of the bytes. *)
Definition encode (bytes : list byte) : string :=
  Base64.btoa (string_of_list_byte bytes).

(** *** Numbers *)

Definition Qlt_bool (x y : Q) : bool := negb (Qle_bool y x).

(** Rounding toward zero, as in the conversion of a number to an integer. *)
Definition Qtrunc (x : Q) : Z := Z.quot (Qnum x) (Zpos (Qden x)).

(** [ToInt16]: truncate, then wrap modulo [2^16] into [-32768, 32767]. *)
Definition ToInt16 (x : Q) : Z := (Qtrunc x + 32768) mod 65536 - 32768.

Definition Q_of_nat (n : nat) : Q := inject_Z (Z.of_nat n).

(** *** Typed-array views *)

Definition byte_of_Z (z : Z) : byte :=
  match Byte.of_N (Z.to_N (z mod 256)) with
  | Some b => b
  | None => x00
  end.

Definition Z_of_byte (b : byte) : Z := Z.of_N (Byte.to_N b).

(** [new Uint8Array(int16.buffer)]: two bytes per element, low byte
    first (typed arrays have the byte order of the platform, little-endian
    on every browser in use). *)
Definition int16_bytes (v : Z) : list byte :=
  [byte_of_Z v; byte_of_Z (v / 256)].

Definition Uint8Array_of_Int16Array (int16 : list Z) : list byte :=
  flat_map int16_bytes int16.

Definition int16_of_bytes (lo hi : byte) : Z :=
  (Z_of_byte lo + 256 * Z_of_byte hi + 32768) mod 65536 - 32768.

(** [new Int16Array(buffer)] over an even number of bytes. *)
Fixpoint Int16Array_of_bytes (bytes : list byte) : list Z :=
  match bytes with
  | lo :: hi :: rest => int16_of_bytes lo hi :: Int16Array_of_bytes rest
  | _ => []
  end.

(** *** [downsampleTo16k] *)

Definition RangeError : JsError := mkError "Invalid typed array length".

(** One turn of the loop: the value left in [result[i]]. *)
Definition downsample_at (buffer : list Q) (ratio : Q) (i : nat) : Q :=
  let offset := Qfloor (Q_of_nat i * ratio) in
  if offset <? Z.of_nat (List.length buffer)
  then nth (Z.to_nat offset) buffer 0%Q
  else 0%Q.

(** [length / ratio] is infinite or not a number when [ratio] is zero:
    [new Float32Array] then throws, except on the empty buffer, and it
    throws on a negative length. *)
Definition downsampleTo16k (buffer : list Q) (inputSampleRate : Q)
  : Exc (list Q) :=
  if Qeq_bool inputSampleRate 16000 then Ok buffer
  else
    let ratio := (inputSampleRate / 16000)%Q in
    if Qeq_bool ratio 0 then
      match buffer with
      | [] => Ok []
      | _ :: _ => Throw RangeError
      end
    else
      let newLength := Qceiling (Q_of_nat (List.length buffer) / ratio) in
      if newLength <? 0 then Throw RangeError
      else Ok (map (downsample_at buffer ratio) (seq 0 (Z.to_nat newLength))).

(** *** [decodeAudioData] *)

Record AudioBuffer := mkAudioBuffer {
  numberOfChannels : nat;
  frames : nat;                      (* [length] *)
  sampleRate : Q;
  channelData : list (list Q)        (* [getChannelData(channel)] *)
}.

Definition duration (b : AudioBuffer) : Q :=
  (Q_of_nat (frames b) / sampleRate b)%Q.

Definition NotSupportedError : JsError :=
  mkError "createBuffer: argument is zero, negative or out of range".

(** [ctx.createBuffer]: a silent buffer; it throws when the number of
    channels or of frames is zero or the rate is not positive.  The upper
    limits of an implementation on channels and rates are not modelled
    (the hook asks for one channel at 24000 Hz). *)
Definition createBuffer (numChannels frameCount : nat) (rate : Q)
  : Exc AudioBuffer :=
  if (numChannels =? 0)%nat || (frameCount =? 0)%nat || Qle_bool rate 0
  then Throw NotSupportedError
  else Ok (mkAudioBuffer numChannels frameCount rate
             (repeat (repeat 0%Q frameCount) numChannels)).

(** The bytes seen as 16-bit integers; an odd length is first completed
    with one zero byte. *)
Definition pcmData_of (data : list byte) : list Z :=
  if Nat.even (List.length data)
  then Int16Array_of_bytes data
  else Int16Array_of_bytes (data ++ [x00]).

(** The frames of one channel: [pcmData[i * numChannels + channel] / 32768]. *)
Definition channel_samples (pcmData : list Z) (numChannels frameCount channel : nat)
  : list Q :=
  map (fun i => (inject_Z (nth (i * numChannels + channel)%nat pcmData 0%Z) / 32768)%Q)
      (seq 0 frameCount).

Definition decodeAudioData (data : list byte) (rate : Q) (numChannels : nat)
  : Exc AudioBuffer :=
  let pcmData := pcmData_of data in
  let frameCount := (List.length pcmData / numChannels)%nat in
  buffer <- createBuffer numChannels frameCount rate ;;
  Ok (mkAudioBuffer (numberOfChannels buffer) (frames buffer) (sampleRate buffer)
        (map (channel_samples pcmData numChannels frameCount)
             (seq 0 numChannels))).

(** *** [createBlob] *)

Record GenAIBlob := mkBlob { data : string; mimeType : string }.

(** [Math.max(-1, Math.min(1, x))], then the scaling to the Int16 range. *)
Definition scale_sample (x : Q) : Q :=
  let s := Qmax (-1) (Qmin 1 x) in
  if Qlt_bool s 0 then (s * 32768)%Q else (s * 32767)%Q.

Definition createBlob (samples : list Q) : GenAIBlob :=
  let int16 := map (fun x => ToInt16 (scale_sample x)) samples in
  {| data := encode (Uint8Array_of_Int16Array int16);
     mimeType := "audio/pcm;rate=16000" |}.

(** ** JavaScript strings and values *)

Definition in_range (lo hi : N) (c : ascii) : bool :=
  let n := N_of_ascii c in ((lo <=? n) && (n <=? hi))%N.

(** [String.prototype.toLowerCase] on code units below 256: the letters
    [A]-[Z] and the Latin-1 capitals (U+00C0 to U+00DE, the sign U+00D7
    apart) move up by 32. *)
Definition lower_char (c : ascii) : ascii :=
  if in_range 65 90 c
     || (in_range 192 222 c && negb (N_of_ascii c =? 215)%N)
  then ascii_of_N (N_of_ascii c + 32)
  else c.

Fixpoint toLowerCase (s : string) : string :=
  match s with
  | EmptyString => EmptyString
  | String c r => String (lower_char c) (toLowerCase r)
  end.

(** The class [\s] of regular expressions, below 256: TAB, LF, VT, FF, CR,
    SPACE and the no-break space. *)
Definition is_space (c : ascii) : bool :=
  in_range 9 13 c || (N_of_ascii c =? 32)%N || (N_of_ascii c =? 160)%N.

(** [s.replace(/\s+/g, '')] *)
Fixpoint strip_spaces (s : string) : string :=
  match s with
  | EmptyString => EmptyString
  | String c r => if is_space c then strip_spaces r else String c (strip_spaces r)
  end.

(** [s.startsWith(p)] *)
Definition startsWith (s p : string) : bool := String.prefix p s.

(** [s.includes(sub)] *)
Fixpoint includes (s sub : string) : bool :=
  if String.prefix sub s then true
  else match s with
       | EmptyString => false
       | String _ r => includes r sub
       end.

(** The values exchanged with the remote service and the tools. *)
#[warnings="-register-all"] Inductive JsVal : Type :=
| JUndefined
| JNull
| JBool (b : bool)
| JNumber (q : Q)
| JString (s : string)
| JObject (fields : list (string * JsVal)).

Definition TypeError (msg : string) : JsError := mkError msg.

(** [obj.key]; reading a property of [undefined] or [null] throws. *)
Definition get_prop (obj : JsVal) (key : string) : Exc JsVal :=
  match obj with
  | JUndefined | JNull =>
      Throw (TypeError ("Cannot read properties of undefined (reading '"
                          ++ key ++ "')"))
  | JObject fields =>
      match find (fun kv => String.eqb (fst kv) key) fields with
      | Some kv => Ok (snd kv)
      | None => Ok JUndefined
      end
  | _ => Ok JUndefined
  end.

(** [v.toLowerCase()]: a method of strings only. *)
Definition call_toLowerCase (v : JsVal) : Exc string :=
  match v with
  | JString s => Ok (toLowerCase s)
  | JUndefined | JNull =>
      Throw (TypeError "Cannot read properties of undefined (reading 'toLowerCase')")
  | _ => Throw (TypeError "url.toLowerCase is not a function")
  end.

(** ** The platform *)

(** The [URL] objects of the platform, as far as the hook uses them. *)
Record UrlApi := mkUrlApi {
  URLobj : Type;
  URL_new : string -> Exc URLobj;               (* [new URL(s)] *)
  URL_hostname : URLobj -> string;              (* [u.hostname] *)
  URL_set_hostname : URLobj -> string -> URLobj; (* [u.hostname = h] *)
  URL_toString : URLobj -> string               (* [u.toString()] *)
}.

(** What the tools see of the browser.  [window_open] is given the URLs
    already opened: it answers [true] for a window, [false] for [null]
    (a blocked popup), or throws. *)
Record Platform := mkPlatform {
  urlApi : UrlApi;
  window_open : list string -> string -> Exc bool;
  encodeURIComponent : JsVal -> Exc string;
  template : JsVal -> string;                   (* a value inside a template literal *)
  Date_toISOString : string;                    (* [new Date().toISOString()] *)
  navigator_userAgent : string;
  navigator_onLine : bool;
  PICOVOICE_ACCESS_KEY : string
}.

(** *** A model of the URL standard on plain host names *)

Module Whatwg.

Record URLrec := mkURL {
  scheme : string;
  host : string;
  port : option N;
  path : string
}.

Definition is_lower_alpha (c : ascii) : bool := in_range 97 122 c.
Definition is_digit (c : ascii) : bool := in_range 48 57 c.
Definition is_host_char (c : ascii) : bool :=
  is_lower_alpha c || is_digit c || (c =? "-")%char.
Definition is_path_char (c : ascii) : bool :=
  is_lower_alpha c || in_range 65 90 c || is_digit c
  || (c =? "/")%char || (c =? "_")%char || (c =? "~")%char || (c =? "-")%char.

Fixpoint all_chars (p : ascii -> bool) (s : string) : bool :=
  match s with
  | EmptyString => true
  | String c r => p c && all_chars p r
  end.

(** [split_at c s]: the text before the first [c], and the text after it
    when there is one. *)
Fixpoint split_at (c : ascii) (s : string) : string * option string :=
  match s with
  | EmptyString => (EmptyString, None)
  | String d r =>
      if (d =? c)%char then (EmptyString, Some r)
      else let '(a, b) := split_at c r in (String d a, b)
  end.

(** The labels of a host name, read with [fuel >= length h]. *)
Fixpoint labels (fuel : nat) (h : string) : list string :=
  match fuel with
  | O => [h]
  | S fuel =>
      match split_at "." h with
      | (l, None) => [l]
      | (l, Some rest) => l :: labels fuel rest
      end
  end.

Definition plain_label (l : string) : bool :=
  negb (String.eqb l EmptyString) && all_chars is_host_char l
  && negb (String.prefix "xn--" l).

Definition starts_with_letter (l : string) : bool :=
  match l with
  | String c _ => is_lower_alpha c
  | EmptyString => false
  end.

(** Host names the model covers: non-empty labels of lower-case letters,
    digits and hyphens, none in the [xn--] form, the last one starting
    with a letter (so that the host is a domain, not an IPv4 address).
    The host parser of the standard returns such a name unchanged. *)
Definition plain_host (h : string) : bool :=
  let ls := labels (String.length h) h in
  forallb plain_label ls && starts_with_letter (last ls EmptyString).

Fixpoint digits_value (acc : N) (s : string) : N :=
  match s with
  | EmptyString => acc
  | String c r => digits_value (10 * acc + (N_of_ascii c - 48))%N r
  end.

Definition default_port (scheme : string) : N :=
  if String.eqb scheme "http" then 80%N else 443%N.

Definition Invalid_URL : JsError := TypeError "Invalid URL".

(** [new URL(input)] for [input] of the form
    [http(s)://host[:port][/path]] with a plain host and a path of
    letters, digits, [/], [_], [~] and [-].  [None]: the input is outside
    this fragment and the model says nothing about it; [Some (Throw _)]:
    the constructor throws. *)
Definition parse (input : string) : option (Exc URLrec) :=
  let after (sch : string) (rest : string) : option (Exc URLrec) :=
    match rest with
    | EmptyString => Some (Throw Invalid_URL)       (* no host *)
    | _ =>
      let '(authority, p) := split_at "/" rest in
      let path := match p with Some r => String "/" r | None => EmptyString end in
      let '(h, po) := split_at ":" authority in
      if negb (all_chars is_path_char path) then None
      else if String.eqb h EmptyString then
        match p, po with
        | None, Some _ => Some (Throw Invalid_URL)  (* [https://:80] *)
        | _, _ => None
        end
      else if negb (plain_host h) then None
      else
        match po with
        | None => Some (Ok (mkURL sch h None path))
        | Some ds =>
            if negb (all_chars is_host_char ds || String.eqb ds EmptyString)
            then None
            else if negb (all_chars is_digit ds)
            then Some (Throw Invalid_URL)
            else if (65535 <? digits_value 0 ds)%N
            then Some (Throw Invalid_URL)
            else if String.eqb ds EmptyString || (digits_value 0 ds =? default_port sch)%N
            then Some (Ok (mkURL sch h None path))
            else Some (Ok (mkURL sch h (Some (digits_value 0 ds)) path))
        end
    end in
  if String.prefix "https://" input then after "https" (substring 8 (String.length input) input)
  else if String.prefix "http://" input then after "http" (substring 7 (String.length input) input)
  else None.

(** The [hostname] setter: a plain host name replaces the host; on
    any other value the model leaves the URL as it is. *)
Definition set_hostname (u : URLrec) (h : string) : URLrec :=
  if plain_host h then mkURL (scheme u) h (port u) (path u) else u.

Fixpoint decimal (fuel : nat) (n : N) (acc : string) : string :=
  match fuel with
  | O => acc
  | S fuel =>
      let acc := String (ascii_of_N (48 + n mod 10)) acc in
      if (n / 10 =? 0)%N then acc else decimal fuel (n / 10)%N acc
  end.

(** The serialisation of a URL; the path of an http(s) URL is never
    empty: it is at least ["/"]. *)
Definition serialize (u : URLrec) : string :=
  scheme u ++ "://" ++ host u
  ++ match port u with
     | Some n => ":" ++ decimal 5 n EmptyString
     | None => EmptyString
     end
  ++ (if String.eqb (path u) EmptyString then "/" else path u).

Definition unmodelled : JsError := TypeError "Invalid URL (outside the model)".

(** The model as a [UrlApi].  Outside the fragment of [parse] the
    constructor of this instance throws, which a browser need not do: the
    statements that use [api] evaluate it inside the fragment, and show
    it. *)
Definition api : UrlApi :=
  {| URLobj := URLrec;
     URL_new := fun s => match parse s with Some r => r | None => Throw unmodelled end;
     URL_hostname := host;
     URL_set_hostname := set_hostname;
     URL_toString := serialize |}.

End Whatwg.

(** ** [src/types.ts] and the state of the hook *)

Inductive NovaStatus := IDLE | CONNECTING | LISTENING | THINKING | SPEAKING | ERROR.

Inductive LogSource := Src_user | Src_nova | Src_system.
Inductive LogType := Tp_text | Tp_tool | Tp_error | Tp_info.

(** A log entry, without its random [id] and its [timestamp]. *)
Record LogEntry := mkLog {
  log_source : LogSource;
  log_message : string;
  log_type : LogType;
  log_link : option string
}.

Record FunctionCall := mkCall { fc_name : JsVal; fc_args : JsVal; fc_id : JsVal }.

Record FunctionResponse := mkResponse {
  fr_id : JsVal;
  fr_name : JsVal;
  fr_response : JsVal
}.

(** [message.toolCall]; [functionCalls] is optional in the SDK's type. *)
Record ToolCall := mkToolCall { functionCalls : option (list FunctionCall) }.

(** The parts of a [LiveServerMessage] that [onmessage] reads. *)
Record LiveServerMessage := mkMessage {
  base64Audio : option string;      (* [serverContent.modelTurn.parts[0].inlineData.data] *)
  inputTranscript : option string;  (* [serverContent.inputTranscription.text] *)
  turnComplete : bool;
  toolCall : option ToolCall
}.

Inductive Timer :=
| Timer_connect (apiKey : string) (ms : N)    (* [setTimeout(() => connect(apiKey), ms)] *)
| Timer_startWakeWord (ms : N).

(** A source node that was started: its buffer and its start time. *)
Record PlaybackUnit := mkUnit {
  unit_id : nat;
  unit_buffer : AudioBuffer;
  unit_start : Q
}.

(** The React state and the refs of [useNova], with the effects it has on
    the outside (timers, started sources, data sent, windows opened).  The
    two analyser nodes, which only feed the visualiser, are left out. *)
Record Nova := mkNova {
  status : NovaStatus;   (* [useState] of the hook *)
  currentTheme : JsVal;
  logs : list LogEntry;
  isWakeWordListening : bool;
  isScreenSharing : bool;
  screenStream : bool;   (* a stream is held *)
  inputAudioContextRef : bool;   (* refs: [true] when not [null] *)
  outputAudioContextRef : bool;
  inputSourceRef : bool;
  processorRef : bool;
  nextStartTimeRef : Q;
  sourcesRef : list nat;   (* the live set of source nodes *)
  audioBufferRef : list Q;   (* the sample accumulator *)
  videoIntervalRef : bool;
  sessionRef : bool;
  stopRef : bool;
  isConnectingRef : bool;
  retryCountRef : nat;
  porcupineRef : bool;
  timers : list Timer;   (* pending [setTimeout] callbacks *)
  started : list PlaybackUnit;   (* every [source.start], oldest first *)
  realtimeInput : list GenAIBlob;   (* media given to [sendRealtimeInput] *)
  toolResponses : list (list FunctionResponse);   (* batches given to [sendToolResponse] *)
  opened : list string   (* URLs given to [window.open] *)
}.

Definition set_status (v : NovaStatus) (n : Nova) : Nova :=
  mkNova v (currentTheme n) (logs n) (isWakeWordListening n)
    (isScreenSharing n) (screenStream n) (inputAudioContextRef n)
    (outputAudioContextRef n) (inputSourceRef n) (processorRef n)
    (nextStartTimeRef n) (sourcesRef n) (audioBufferRef n) (videoIntervalRef
    n) (sessionRef n) (stopRef n) (isConnectingRef n) (retryCountRef n)
    (porcupineRef n) (timers n) (started n) (realtimeInput n) (toolResponses
    n) (opened n).

Definition set_currentTheme (v : JsVal) (n : Nova) : Nova :=
  mkNova (status n) v (logs n) (isWakeWordListening n) (isScreenSharing n)
    (screenStream n) (inputAudioContextRef n) (outputAudioContextRef n)
    (inputSourceRef n) (processorRef n) (nextStartTimeRef n) (sourcesRef n)
    (audioBufferRef n) (videoIntervalRef n) (sessionRef n) (stopRef n)
    (isConnectingRef n) (retryCountRef n) (porcupineRef n) (timers n)
    (started n) (realtimeInput n) (toolResponses n) (opened n).

Definition set_logs (v : list LogEntry) (n : Nova) : Nova :=
  mkNova (status n) (currentTheme n) v (isWakeWordListening n)
    (isScreenSharing n) (screenStream n) (inputAudioContextRef n)
    (outputAudioContextRef n) (inputSourceRef n) (processorRef n)
    (nextStartTimeRef n) (sourcesRef n) (audioBufferRef n) (videoIntervalRef
    n) (sessionRef n) (stopRef n) (isConnectingRef n) (retryCountRef n)
    (porcupineRef n) (timers n) (started n) (realtimeInput n) (toolResponses
    n) (opened n).

Definition set_isWakeWordListening (v : bool) (n : Nova) : Nova :=
  mkNova (status n) (currentTheme n) (logs n) v (isScreenSharing n)
    (screenStream n) (inputAudioContextRef n) (outputAudioContextRef n)
    (inputSourceRef n) (processorRef n) (nextStartTimeRef n) (sourcesRef n)
    (audioBufferRef n) (videoIntervalRef n) (sessionRef n) (stopRef n)
    (isConnectingRef n) (retryCountRef n) (porcupineRef n) (timers n)
    (started n) (realtimeInput n) (toolResponses n) (opened n).

Definition set_isScreenSharing (v : bool) (n : Nova) : Nova :=
  mkNova (status n) (currentTheme n) (logs n) (isWakeWordListening n) v
    (screenStream n) (inputAudioContextRef n) (outputAudioContextRef n)
    (inputSourceRef n) (processorRef n) (nextStartTimeRef n) (sourcesRef n)
    (audioBufferRef n) (videoIntervalRef n) (sessionRef n) (stopRef n)
    (isConnectingRef n) (retryCountRef n) (porcupineRef n) (timers n)
    (started n) (realtimeInput n) (toolResponses n) (opened n).

Definition set_screenStream (v : bool) (n : Nova) : Nova :=
  mkNova (status n) (currentTheme n) (logs n) (isWakeWordListening n)
    (isScreenSharing n) v (inputAudioContextRef n) (outputAudioContextRef n)
    (inputSourceRef n) (processorRef n) (nextStartTimeRef n) (sourcesRef n)
    (audioBufferRef n) (videoIntervalRef n) (sessionRef n) (stopRef n)
    (isConnectingRef n) (retryCountRef n) (porcupineRef n) (timers n)
    (started n) (realtimeInput n) (toolResponses n) (opened n).

Definition set_inputAudioContextRef (v : bool) (n : Nova) : Nova :=
  mkNova (status n) (currentTheme n) (logs n) (isWakeWordListening n)
    (isScreenSharing n) (screenStream n) v (outputAudioContextRef n)
    (inputSourceRef n) (processorRef n) (nextStartTimeRef n) (sourcesRef n)
    (audioBufferRef n) (videoIntervalRef n) (sessionRef n) (stopRef n)
    (isConnectingRef n) (retryCountRef n) (porcupineRef n) (timers n)
    (started n) (realtimeInput n) (toolResponses n) (opened n).

Definition set_outputAudioContextRef (v : bool) (n : Nova) : Nova :=
  mkNova (status n) (currentTheme n) (logs n) (isWakeWordListening n)
    (isScreenSharing n) (screenStream n) (inputAudioContextRef n) v
    (inputSourceRef n) (processorRef n) (nextStartTimeRef n) (sourcesRef n)
    (audioBufferRef n) (videoIntervalRef n) (sessionRef n) (stopRef n)
    (isConnectingRef n) (retryCountRef n) (porcupineRef n) (timers n)
    (started n) (realtimeInput n) (toolResponses n) (opened n).

Definition set_inputSourceRef (v : bool) (n : Nova) : Nova :=
  mkNova (status n) (currentTheme n) (logs n) (isWakeWordListening n)
    (isScreenSharing n) (screenStream n) (inputAudioContextRef n)
    (outputAudioContextRef n) v (processorRef n) (nextStartTimeRef n)
    (sourcesRef n) (audioBufferRef n) (videoIntervalRef n) (sessionRef n)
    (stopRef n) (isConnectingRef n) (retryCountRef n) (porcupineRef n)
    (timers n) (started n) (realtimeInput n) (toolResponses n) (opened n).

Definition set_processorRef (v : bool) (n : Nova) : Nova :=
  mkNova (status n) (currentTheme n) (logs n) (isWakeWordListening n)
    (isScreenSharing n) (screenStream n) (inputAudioContextRef n)
    (outputAudioContextRef n) (inputSourceRef n) v (nextStartTimeRef n)
    (sourcesRef n) (audioBufferRef n) (videoIntervalRef n) (sessionRef n)
    (stopRef n) (isConnectingRef n) (retryCountRef n) (porcupineRef n)
    (timers n) (started n) (realtimeInput n) (toolResponses n) (opened n).

Definition set_nextStartTimeRef (v : Q) (n : Nova) : Nova :=
  mkNova (status n) (currentTheme n) (logs n) (isWakeWordListening n)
    (isScreenSharing n) (screenStream n) (inputAudioContextRef n)
    (outputAudioContextRef n) (inputSourceRef n) (processorRef n) v
    (sourcesRef n) (audioBufferRef n) (videoIntervalRef n) (sessionRef n)
    (stopRef n) (isConnectingRef n) (retryCountRef n) (porcupineRef n)
    (timers n) (started n) (realtimeInput n) (toolResponses n) (opened n).

Definition set_sourcesRef (v : list nat) (n : Nova) : Nova :=
  mkNova (status n) (currentTheme n) (logs n) (isWakeWordListening n)
    (isScreenSharing n) (screenStream n) (inputAudioContextRef n)
    (outputAudioContextRef n) (inputSourceRef n) (processorRef n)
    (nextStartTimeRef n) v (audioBufferRef n) (videoIntervalRef n)
    (sessionRef n) (stopRef n) (isConnectingRef n) (retryCountRef n)
    (porcupineRef n) (timers n) (started n) (realtimeInput n) (toolResponses
    n) (opened n).

Definition set_audioBufferRef (v : list Q) (n : Nova) : Nova :=
  mkNova (status n) (currentTheme n) (logs n) (isWakeWordListening n)
    (isScreenSharing n) (screenStream n) (inputAudioContextRef n)
    (outputAudioContextRef n) (inputSourceRef n) (processorRef n)
    (nextStartTimeRef n) (sourcesRef n) v (videoIntervalRef n) (sessionRef
    n) (stopRef n) (isConnectingRef n) (retryCountRef n) (porcupineRef n)
    (timers n) (started n) (realtimeInput n) (toolResponses n) (opened n).

Definition set_videoIntervalRef (v : bool) (n : Nova) : Nova :=
  mkNova (status n) (currentTheme n) (logs n) (isWakeWordListening n)
    (isScreenSharing n) (screenStream n) (inputAudioContextRef n)
    (outputAudioContextRef n) (inputSourceRef n) (processorRef n)
    (nextStartTimeRef n) (sourcesRef n) (audioBufferRef n) v (sessionRef n)
    (stopRef n) (isConnectingRef n) (retryCountRef n) (porcupineRef n)
    (timers n) (started n) (realtimeInput n) (toolResponses n) (opened n).

Definition set_sessionRef (v : bool) (n : Nova) : Nova :=
  mkNova (status n) (currentTheme n) (logs n) (isWakeWordListening n)
    (isScreenSharing n) (screenStream n) (inputAudioContextRef n)
    (outputAudioContextRef n) (inputSourceRef n) (processorRef n)
    (nextStartTimeRef n) (sourcesRef n) (audioBufferRef n) (videoIntervalRef
    n) v (stopRef n) (isConnectingRef n) (retryCountRef n) (porcupineRef n)
    (timers n) (started n) (realtimeInput n) (toolResponses n) (opened n).

Definition set_stopRef (v : bool) (n : Nova) : Nova :=
  mkNova (status n) (currentTheme n) (logs n) (isWakeWordListening n)
    (isScreenSharing n) (screenStream n) (inputAudioContextRef n)
    (outputAudioContextRef n) (inputSourceRef n) (processorRef n)
    (nextStartTimeRef n) (sourcesRef n) (audioBufferRef n) (videoIntervalRef
    n) (sessionRef n) v (isConnectingRef n) (retryCountRef n) (porcupineRef
    n) (timers n) (started n) (realtimeInput n) (toolResponses n) (opened n).

Definition set_isConnectingRef (v : bool) (n : Nova) : Nova :=
  mkNova (status n) (currentTheme n) (logs n) (isWakeWordListening n)
    (isScreenSharing n) (screenStream n) (inputAudioContextRef n)
    (outputAudioContextRef n) (inputSourceRef n) (processorRef n)
    (nextStartTimeRef n) (sourcesRef n) (audioBufferRef n) (videoIntervalRef
    n) (sessionRef n) (stopRef n) v (retryCountRef n) (porcupineRef n)
    (timers n) (started n) (realtimeInput n) (toolResponses n) (opened n).

Definition set_retryCountRef (v : nat) (n : Nova) : Nova :=
  mkNova (status n) (currentTheme n) (logs n) (isWakeWordListening n)
    (isScreenSharing n) (screenStream n) (inputAudioContextRef n)
    (outputAudioContextRef n) (inputSourceRef n) (processorRef n)
    (nextStartTimeRef n) (sourcesRef n) (audioBufferRef n) (videoIntervalRef
    n) (sessionRef n) (stopRef n) (isConnectingRef n) v (porcupineRef n)
    (timers n) (started n) (realtimeInput n) (toolResponses n) (opened n).

Definition set_porcupineRef (v : bool) (n : Nova) : Nova :=
  mkNova (status n) (currentTheme n) (logs n) (isWakeWordListening n)
    (isScreenSharing n) (screenStream n) (inputAudioContextRef n)
    (outputAudioContextRef n) (inputSourceRef n) (processorRef n)
    (nextStartTimeRef n) (sourcesRef n) (audioBufferRef n) (videoIntervalRef
    n) (sessionRef n) (stopRef n) (isConnectingRef n) (retryCountRef n) v
    (timers n) (started n) (realtimeInput n) (toolResponses n) (opened n).

Definition set_timers (v : list Timer) (n : Nova) : Nova :=
  mkNova (status n) (currentTheme n) (logs n) (isWakeWordListening n)
    (isScreenSharing n) (screenStream n) (inputAudioContextRef n)
    (outputAudioContextRef n) (inputSourceRef n) (processorRef n)
    (nextStartTimeRef n) (sourcesRef n) (audioBufferRef n) (videoIntervalRef
    n) (sessionRef n) (stopRef n) (isConnectingRef n) (retryCountRef n)
    (porcupineRef n) v (started n) (realtimeInput n) (toolResponses n)
    (opened n).

Definition set_started (v : list PlaybackUnit) (n : Nova) : Nova :=
  mkNova (status n) (currentTheme n) (logs n) (isWakeWordListening n)
    (isScreenSharing n) (screenStream n) (inputAudioContextRef n)
    (outputAudioContextRef n) (inputSourceRef n) (processorRef n)
    (nextStartTimeRef n) (sourcesRef n) (audioBufferRef n) (videoIntervalRef
    n) (sessionRef n) (stopRef n) (isConnectingRef n) (retryCountRef n)
    (porcupineRef n) (timers n) v (realtimeInput n) (toolResponses n)
    (opened n).

Definition set_realtimeInput (v : list GenAIBlob) (n : Nova) : Nova :=
  mkNova (status n) (currentTheme n) (logs n) (isWakeWordListening n)
    (isScreenSharing n) (screenStream n) (inputAudioContextRef n)
    (outputAudioContextRef n) (inputSourceRef n) (processorRef n)
    (nextStartTimeRef n) (sourcesRef n) (audioBufferRef n) (videoIntervalRef
    n) (sessionRef n) (stopRef n) (isConnectingRef n) (retryCountRef n)
    (porcupineRef n) (timers n) (started n) v (toolResponses n) (opened n).

Definition set_toolResponses (v : list (list FunctionResponse)) (n : Nova) : Nova :=
  mkNova (status n) (currentTheme n) (logs n) (isWakeWordListening n)
    (isScreenSharing n) (screenStream n) (inputAudioContextRef n)
    (outputAudioContextRef n) (inputSourceRef n) (processorRef n)
    (nextStartTimeRef n) (sourcesRef n) (audioBufferRef n) (videoIntervalRef
    n) (sessionRef n) (stopRef n) (isConnectingRef n) (retryCountRef n)
    (porcupineRef n) (timers n) (started n) (realtimeInput n) v (opened n).

Definition set_opened (v : list string) (n : Nova) : Nova :=
  mkNova (status n) (currentTheme n) (logs n) (isWakeWordListening n)
    (isScreenSharing n) (screenStream n) (inputAudioContextRef n)
    (outputAudioContextRef n) (inputSourceRef n) (processorRef n)
    (nextStartTimeRef n) (sourcesRef n) (audioBufferRef n) (videoIntervalRef
    n) (sessionRef n) (stopRef n) (isConnectingRef n) (retryCountRef n)
    (porcupineRef n) (timers n) (started n) (realtimeInput n) (toolResponses
    n) v.

(** ** Handlers: state with exceptions *)

(** A handler runs on the state of the hook; when it throws, what it did
    before stays done. *)
Definition M (A : Type) : Type := Nova -> Nova * Exc A.

Definition retM {A} (a : A) : M A := fun n => (n, Ok a).

Definition bindM {A B} (m : M A) (k : A -> M B) : M B :=
  fun n =>
    match m n with
    | (n', Ok a) => k a n'
    | (n', Throw e) => (n', Throw e)
    end.

Definition liftE {A} (e : Exc A) : M A := fun n => (n, e).

Definition modify (f : Nova -> Nova) : M unit := fun n => (f n, Ok tt).

(** [try { body } catch (e) { handler e }] *)
Definition tryM {A} (body : M A) (handler : JsError -> M A) : M A :=
  fun n =>
    match body n with
    | (n', Ok a) => (n', Ok a)
    | (n', Throw e) => handler e n'
    end.

Notation "x <~ m ;; k" := (bindM m (fun x => k))
  (at level 61, m at next level, right associativity).
Notation "m ;;; k" := (bindM m (fun _ => k))
  (at level 61, right associativity).

(** ** [src/hooks/useNova.ts] *)

Definition BUFFER_THRESHOLD : nat := Z.to_nat 4096.

Definition initial : Nova :=
  {| status := IDLE; currentTheme := JString "dark"; logs := [];
     isWakeWordListening := false; isScreenSharing := false;
     screenStream := false;
     inputAudioContextRef := false; outputAudioContextRef := false;
     inputSourceRef := false; processorRef := false;
     nextStartTimeRef := 0%Q; sourcesRef := []; audioBufferRef := [];
     videoIntervalRef := false; sessionRef := false; stopRef := false;
     isConnectingRef := false; retryCountRef := 0%nat; porcupineRef := false;
     timers := []; started := []; realtimeInput := []; toolResponses := [];
     opened := [] |}.

Definition addLog (msg : string) (type : LogType) (source : LogSource)
    (link : option string) (n : Nova) : Nova :=
  set_logs (logs n ++ [mkLog source msg type link]) n.

Definition setTimeout (t : Timer) (n : Nova) : Nova :=
  set_timers (timers n ++ [t]) n.

Definition stopScreenShare (n : Nova) : Nova :=
  let n := if videoIntervalRef n then set_videoIntervalRef false n else n in
  let n := if screenStream n then set_screenStream false n else n in
  let n := set_isScreenSharing false n in
  addLog "Screen sharing ended" Tp_info Src_system None n.

Definition cleanupAudio (n : Nova) : Nova :=
  let n := set_processorRef false n in
  let n := set_inputSourceRef false n in
  let n := set_inputAudioContextRef false n in
  let n := set_outputAudioContextRef false n in
  let n := set_sourcesRef [] n in        (* each source stopped, the set cleared *)
  set_audioBufferRef [] n.

Definition stopWakeWord (n : Nova) : Nova :=
  if porcupineRef n
  then set_isWakeWordListening false (set_porcupineRef false n)
  else n.

(** The cleaning of the URL of [openUrl], after [toLowerCase]: lines
    487-508. *)
Definition clean_url (U : UrlApi) (url : string) : string :=
  let url := strip_spaces url in
  let url :=
    if negb (startsWith url "http://") && negb (startsWith url "https://")
    then "https://" ++ url
    else url in
  match URL_new U url with
  | Ok urlObj =>
      if negb (includes (URL_hostname U urlObj) ".")
      then URL_toString U
             (URL_set_hostname U urlObj (URL_hostname U urlObj ++ ".com"))
      else url
  | Throw _ =>
      if negb (includes url ".") then url ++ ".com" else url
  end.

Definition WAKE_WORD : string := "porcupine".

Section Hook.

Variable P : Platform.

Definition startWakeWord (n : Nova) : Nova :=
  if String.eqb (PICOVOICE_ACCESS_KEY P) EmptyString then n
  else if sessionRef n || isConnectingRef n then n
  else
    let n := stopWakeWord n in
    let n := set_porcupineRef true n in
    let n := set_isWakeWordListening true n in
    addLog ("Wake word engine active. Say '" ++ WAKE_WORD ++ "'...")
      Tp_info Src_system None n.

Definition disconnect (n : Nova) : Nova :=
  let n := set_stopRef true n in
  let n := set_sessionRef false n in
  let n := set_isConnectingRef false n in
  let n := set_retryCountRef 0%nat n in
  let n := stopScreenShare n in
  let n := cleanupAudio n in
  let n := set_status IDLE n in
  let n := addLog "Session disconnected by user" Tp_info Src_system None n in
  setTimeout (Timer_startWakeWord 1000) n.

(** [connect(apiKey)] up to the call of [ai.live.connect]; the two audio
    contexts are taken to be created without error. *)
Definition connect (apiKey : string) (n : Nova) : Nova :=
  if String.eqb apiKey EmptyString then
    set_status ERROR (addLog "API Key missing" Tp_error Src_system None n)
  else if isConnectingRef n then n
  else
    let n := stopWakeWord n in
    let n := set_isConnectingRef true n in
    let n := set_status CONNECTING n in
    let n := set_stopRef false n in
    let n := addLog (if (0 <? retryCountRef n)%nat
                     then "Reconnecting to Nova core..."
                     else "Initializing Nova core systems...")
               Tp_info Src_system None n in
    let n := if (retryCountRef n =? 0)%nat
             then addLog "Audio pipeline initialized" Tp_info Src_system None n
             else n in
    let n := set_inputAudioContextRef true n in
    set_outputAudioContextRef true n.

(** [await sessionPromise] resolved: [sessionRef.current = session]. *)
Definition connect_resolved (n : Nova) : Nova := set_sessionRef true n.

(** [await sessionPromise] rejected: the [catch] of [connect]. *)
Definition connect_rejected (error : JsError) (n : Nova) : Nova :=
  let n := addLog ("Initialization failed: " ++ message error)
             Tp_error Src_system None n in
  let n := set_status ERROR n in
  set_isConnectingRef false n.

(** [onopen]; [mic] is the outcome of [getUserMedia]. *)
Definition onopen (mic : Exc unit) (n : Nova) : Nova :=
  let n := addLog "Secure connection established" Tp_info Src_system None n in
  let n := set_status LISTENING n in
  let n := set_isConnectingRef false n in
  let n := set_retryCountRef 0%nat n in
  match mic with
  | Ok _ =>
      let n := if (retryCountRef n =? 0)%nat
               then addLog "Microphone access granted" Tp_info Src_system None n
               else n in
      let n := set_inputSourceRef true n in
      set_processorRef true n
  | Throw micErr =>
      let n := addLog ("Microphone Error: " ++ message micErr)
                 Tp_error Src_system None n in
      set_status ERROR n
  end.

(** The frame size asked of the script processor for a context rate. *)
Definition scriptBufferSize (rate : Q) : nat :=
  Z.to_nat (if Qle_bool 96000 rate then 8192
            else if Qle_bool 44100 rate then 4096
            else 2048).

Definition sumSquares (chunk : list Q) : Q :=
  fold_left (fun acc x => (acc + x * x)%Q) chunk 0%Q.

(** [Math.sqrt(x) > e] for [e >= 0].  The square root is increasing, so
    the test is [x > e * e]; it is decided on the squares to stay in [Q]. *)
Definition sqrt_gt (x e : Q) : bool := Qlt_bool (e * e) x.

(** The silence gate: [rms > 0.000001]. *)
Definition rms_gt_epsilon (chunkToSend : list Q) : bool :=
  sqrt_gt (sumSquares chunkToSend / Q_of_nat (List.length chunkToSend))
          (1 # 1000000).

(** [session.sendRealtimeInput({ media })]; a failure is swallowed. *)
Definition sendRealtimeInput (media : GenAIBlob) (n : Nova) : Nova :=
  set_realtimeInput (realtimeInput n ++ [media]) n.

(** [processor.onaudioprocess], for an input context of rate [rate]. *)
Definition onaudioprocess (rate : Q) (inputData : list Q) : M unit :=
  fun n =>
    if stopRef n then (n, Ok tt)
    else
      (downsampledData <~ liftE (downsampleTo16k inputData rate) ;;
       modify (fun n => set_audioBufferRef (audioBufferRef n ++ downsampledData) n) ;;;
       modify (fun n =>
         if (BUFFER_THRESHOLD <=? List.length (audioBufferRef n))%nat then
           let chunkToSend := firstn BUFFER_THRESHOLD (audioBufferRef n) in
           let n := set_audioBufferRef (skipn BUFFER_THRESHOLD (audioBufferRef n)) n in
           if rms_gt_epsilon chunkToSend
           then sendRealtimeInput (createBlob chunkToSend) n
           else n
         else n)) n.

(** Lines 441-459 of [onmessage]: a decoded buffer is given a source
    node, started at the cursor, and joins the live set. *)
Definition schedule (currentTime : Q) (audioBuffer : AudioBuffer) (n : Nova)
  : Nova :=
  let n := if Qlt_bool (nextStartTimeRef n) currentTime
           then set_nextStartTimeRef currentTime n
           else n in
  let source := List.length (started n) in
  let n := set_started
             (started n ++ [mkUnit source audioBuffer (nextStartTimeRef n)]) n in
  let n := set_nextStartTimeRef (nextStartTimeRef n + duration audioBuffer)%Q n in
  set_sourcesRef (source :: remove Nat.eq_dec source (sourcesRef n)) n.

(** [source.onended] *)
Definition onended (source : nat) (n : Nova) : Nova :=
  let n := set_sourcesRef (remove Nat.eq_dec source (sourcesRef n)) n in
  match sourcesRef n with
  | [] => set_status LISTENING n
  | _ :: _ => n
  end.

Definition is_name (name : JsVal) (s : string) : bool :=
  match name with
  | JString x => String.eqb x s
  | _ => false
  end.

(** [window.open(url, '_blank')] *)
Definition call_window_open (url : string) : M bool :=
  fun n =>
    (set_opened (opened n ++ [url]) n, window_open P (opened n) url).

Definition openUrl (args : JsVal) : M JsVal :=
  u <~ liftE (get_prop args "url") ;;
  url <~ liftE (call_toLowerCase u) ;;
  let url := clean_url (urlApi P) url in
  win <~ call_window_open url ;;
  if win : bool then
    modify (addLog ("Opened URL: " ++ url) Tp_tool Src_system (Some url)) ;;;
    retM (JObject [("opened", JBool true); ("url", JString url)])
  else
    modify (addLog ("Popup blocked. Click here to open: " ++ url)
              Tp_error Src_system (Some url)) ;;;
    retM (JObject [("opened", JBool false); ("error", JString "Popup blocked")]).

Definition googleSearch (args : JsVal) : M JsVal :=
  query <~ liftE (get_prop args "query") ;;
  q <~ liftE (encodeURIComponent P query) ;;
  let url := "https://www.google.com/search?q=" ++ q in
  win <~ call_window_open url ;;
  if win : bool then
    modify (addLog ("Searching Google: " ++ template P query)
              Tp_tool Src_system (Some url)) ;;;
    retM (JObject [("searched", JBool true); ("query", query)])
  else
    modify (addLog ("Popup blocked. Search link: " ++ template P query)
              Tp_error Src_system (Some url)) ;;;
    retM (JObject [("error", JString "Popup blocked")]).

Definition changeTheme (args : JsVal) : M JsVal :=
  mode <~ liftE (get_prop args "mode") ;;
  modify (set_currentTheme mode) ;;;
  modify (addLog ("Theme changed to " ++ template P mode) Tp_tool Src_system None) ;;;
  retM (JObject [("themeChangedTo", mode)]).

Definition getSystemStatus : M JsVal :=
  modify (addLog "System diagnostics run" Tp_tool Src_system None) ;;;
  retM (JObject [("time", JString (Date_toISOString P));
                 ("userAgent", JString (navigator_userAgent P));
                 ("onLine", JBool (navigator_onLine P))]).

(** [let result = { success: true }] *)
Definition default_result : JsVal := JObject [("success", JBool true)].

(** The body of the [try] of one function call. *)
Definition tool_body (name args : JsVal) : M JsVal :=
  if is_name name "openUrl" then openUrl args
  else if is_name name "googleSearch" then googleSearch args
  else if is_name name "changeTheme" then changeTheme args
  else if is_name name "getSystemStatus" then getSystemStatus
  else retM default_result.

(** One turn of the loop over [functionCalls]. *)
Definition run_call (fc : FunctionCall) : M FunctionResponse :=
  let name := fc_name fc in
  let args := fc_args fc in
  let id := fc_id fc in
  modify (addLog ("Executing tool: " ++ template P name) Tp_tool Src_system None) ;;;
  result <~ tryM (tool_body name args)
              (fun toolErr =>
                 modify (addLog ("Tool error: " ++ message toolErr)
                           Tp_error Src_system None) ;;;
                 retM (JObject [("error", JString (message toolErr))])) ;;
  retM (mkResponse id name (JObject [("result", result)])).

Fixpoint for_functionCalls (fcs : list FunctionCall)
    (functionResponses : list FunctionResponse) : M (list FunctionResponse) :=
  match fcs with
  | [] => retM functionResponses
  | fc :: rest =>
      r <~ run_call fc ;;
      for_functionCalls rest (functionResponses ++ [r])
  end.

(** [session.sendToolResponse({ functionResponses })]; a failure is
    caught and reported on the console. *)
Definition sendToolResponse (functionResponses : list FunctionResponse)
    (n : Nova) : Nova :=
  set_toolResponses (toolResponses n ++ [functionResponses]) n.

(** Lines 474-558 of [onmessage]. *)
Definition onmessage_toolCall (tc : option ToolCall) : M unit :=
  match tc with
  | None => retM tt
  | Some tc =>
      match functionCalls tc with
      | None => liftE (Throw (TypeError "functionCalls is not iterable"))
      | Some fcs =>
          functionResponses <~ for_functionCalls fcs [] ;;
          modify (sendToolResponse functionResponses)
      end
  end.

Definition truthy (s : option string) : option string :=
  match s with
  | Some EmptyString | None => None
  | Some s => Some s
  end.

(** [onmessage]; [currentTime] is [outputCtx.currentTime] when the audio
    of the message has been decoded. *)
Definition onmessage (currentTime : Q) (msg : LiveServerMessage) : M unit :=
  fun n =>
    if stopRef n then (n, Ok tt)
    else
      ((match truthy (base64Audio msg) with
        | Some b64 =>
            modify (set_status SPEAKING) ;;;
            tryM (audioBuffer <~ liftE (bytes <- decode b64 ;;
                                        decodeAudioData bytes PCM_SAMPLE_RATE_OUTPUT 1) ;;
                  modify (schedule currentTime audioBuffer))
                 (fun _ => modify (addLog "Audio playback error"
                                     Tp_error Src_system None))
        | None => retM tt
        end) ;;;
       (match truthy (inputTranscript msg) with
        | Some t => modify (addLog ("You: " ++ t) Tp_info Src_user None)
        | None => retM tt
        end) ;;;
       (if turnComplete msg then modify (set_status LISTENING) else retM tt) ;;;
       onmessage_toolCall (toolCall msg)) n.

Definition onclose (n : Nova) : Nova :=
  let n := addLog "Connection closed by server" Tp_info Src_system None n in
  let n := set_status IDLE n in
  let n := set_isConnectingRef false n in
  let n := set_stopRef true n in
  let n := stopScreenShare n in
  setTimeout (Timer_startWakeWord 1000) n.

(** [onerror], installed by [connect(apiKey)]; [err] is the [message] of
    the error event, when it has one. *)
Definition onerror (apiKey : string) (err : option string) (n : Nova) : Nova :=
  let msg := match truthy err with Some m => m | None => "Unknown error" end in
  let n := if negb (includes msg "closed")
           then addLog ("Connection Error: " ++ msg) Tp_error Src_system None n
           else n in
  let n := set_status ERROR n in
  let n := set_isConnectingRef false n in
  if includes msg "Network error" && (retryCountRef n =? 0)%nat then
    let n := set_retryCountRef (S (retryCountRef n)) n in
    let n := addLog "Attempting auto-reconnect in 2s..." Tp_info Src_system None n in
    let n := cleanupAudio n in
    setTimeout (Timer_connect apiKey 2000) n
  else n.

(** *** The event loop *)

Inductive Event :=
| EvConnect (apiKey : string)                (* the user, or the wake word, asks to connect *)
| EvDisconnect                               (* the user asks to disconnect *)
| EvResolved                                 (* [ai.live.connect] resolves *)
| EvRejected (error : JsError)               (* [ai.live.connect] rejects *)
| EvOpen (mic : Exc unit)
| EvAudioProcess (rate : Q) (inputData : list Q)
| EvMessage (currentTime : Q) (msg : LiveServerMessage)
| EvEnded (source : nat)
| EvClose
| EvError (apiKey : string) (err : option string)
| EvTimer (i : nat).                         (* the [i]-th pending timer fires *)

Fixpoint remove_nth {A} (i : nat) (l : list A) : list A :=
  match i, l with
  | _, [] => []
  | O, _ :: r => r
  | S i, x :: r => x :: remove_nth i r
  end.

Definition fire (i : nat) (n : Nova) : Nova :=
  match nth_error (timers n) i with
  | None => n
  | Some t =>
      let n := set_timers (remove_nth i (timers n)) n in
      match t with
      | Timer_connect apiKey _ => connect apiKey n
      | Timer_startWakeWord _ => startWakeWord n
      end
  end.

(** One event; an exception escaping a handler is left to the platform. *)
Definition step (ev : Event) (n : Nova) : Nova :=
  match ev with
  | EvConnect apiKey => connect apiKey n
  | EvDisconnect => disconnect n
  | EvResolved => connect_resolved n
  | EvRejected error => connect_rejected error n
  | EvOpen mic => onopen mic n
  | EvAudioProcess rate inputData => fst (onaudioprocess rate inputData n)
  | EvMessage currentTime msg => fst (onmessage currentTime msg n)
  | EvEnded source => onended source n
  | EvClose => onclose n
  | EvError apiKey err => onerror apiKey err n
  | EvTimer i => fire i n
  end.

Definition run (evs : list Event) (n : Nova) : Nova :=
  fold_left (fun n ev => step ev n) evs n.

End Hook.

(** ** The rest of the hook *)

(** [sendTextMessage(text)]; [send] is the outcome of
    [session.sendRealtimeInput].  With the new state comes the text the
    session took, when it took one. *)
Definition sendTextMessage (send : Exc unit) (text : string) (n : Nova)
  : Nova * option string :=
  if negb (sessionRef n) then
    (addLog "Connect to Nova first to send commands." Tp_error Src_system None n,
     None)
  else
    match send with
    | Ok _ => (addLog ("Command: " ++ text) Tp_info Src_user None n, Some text)
    | Throw e =>
        (addLog ("Error sending command: " ++ message e) Tp_error Src_system None n,
         None)
    end.

(** ** [src/App.tsx] *)

(** [handleToggle]; [API_KEY] is [API_KEY || '']. *)
Definition handleToggle (API_KEY : string) (n : Nova) : Nova :=
  match status n with
  | IDLE | ERROR => connect API_KEY n
  | _ => disconnect n
  end.

(** [s.trim()]: the white space of [\s] is removed at both ends. *)
Fixpoint trimStart (s : string) : string :=
  match s with
  | EmptyString => EmptyString
  | String c r => if is_space c then trimStart r else s
  end.

Definition reverse (s : string) : string :=
  string_of_list_ascii (rev (list_ascii_of_string s)).

Definition trim (s : string) : string :=
  reverse (trimStart (reverse (trimStart s))).

(** [handleSend]: the state of the hook, the text the session took, and
    the new content of the input field. *)
Definition handleSend (send : Exc unit) (textInput : string) (n : Nova)
  : Nova * option string * string :=
  if String.eqb (trim textInput) EmptyString then (n, None, textInput)
  else
    let '(n, sent) := sendTextMessage send textInput n in
    (n, sent, EmptyString).

(** The theme effect: the values of [--bg-color] and [--text-color]. *)
Definition theme_colors (currentTheme : JsVal) : string * string :=
  if is_name currentTheme "light"
  then ("#f8fafc", "#0f172a")
  else ("#030712", "#e2e8f0").

(** ** The visualiser *)

Definition bars : nat := 64.

(** The loop over the bars of [draw]: for each bar the byte read at
    [dataArray[i * step]], [None] for [undefined] (an index past the end),
    and the height drawn for a byte. *)
Definition bar_values (dataArray : list N) : list (option N) :=
  let bufferLength := List.length dataArray in
  let step := (bufferLength / bars)%nat in
  map (fun i => nth_error dataArray (i * step)) (seq 0 bars).

Definition barHeight (value : N) : Q :=
  (inject_Z (Z.of_N value) / 255 * 100)%Q.

(** ** The arithmetic of the code in binary64

    The numbers of JavaScript are binary64 floats.  The definitions of
    this module repeat the numeric expressions of [audioUtils.ts] and of
    the silence gate on the primitive floats of Rocq, which are binary64
    too; they serve to evaluate the code on concrete inputs and to compare
    it there with the exact arithmetic used above. *)

Module Binary64.
Import Floats.
Local Open Scope float_scope.

(** The integer part of the magnitude [m * 2^e] of a finite number, and
    whether a fractional part was dropped. *)
Definition magnitude (m : positive) (e : Z) : Z * bool :=
  if (0 <=? e)%Z then (Zpos m * 2 ^ e, false)%Z
  else (Zpos m / 2 ^ (- e), negb (Zpos m mod 2 ^ (- e) =? 0)%Z)%Z.

(** Rounding toward zero; [None] for NaN and the infinities. *)
Definition trunc (f : float) : option Z :=
  match Prim2SF f with
  | S754_zero _ => Some 0%Z
  | S754_finite s m e =>
      let '(v, _) := magnitude m e in Some (if s then - v else v)%Z
  | _ => None
  end.

(** [Math.floor] and [Math.ceil] of a finite number. *)
Definition floor (f : float) : option Z :=
  match Prim2SF f with
  | S754_zero _ => Some 0%Z
  | S754_finite s m e =>
      let '(v, frac) := magnitude m e in
      Some (if s then (if frac then - v - 1 else - v) else v)%Z
  | _ => None
  end.

Definition ceil (f : float) : option Z :=
  match Prim2SF f with
  | S754_zero _ => Some 0%Z
  | S754_finite s m e =>
      let '(v, frac) := magnitude m e in
      Some (if s then - v else (if frac then v + 1 else v))%Z
  | _ => None
  end.

Definition of_Z (z : Z) : float :=
  if (z <? 0)%Z then - of_uint63 (Uint63.of_Z (- z)) else of_uint63 (Uint63.of_Z z).

(** [Math.min], [Math.max]: NaN if an argument is; [-0] below [+0]. *)
Definition Math_min (a b : float) : float :=
  if (is_nan a || is_nan b)%bool then nan
  else if a <? b then a else if b <? a then b
  else if get_sign a then a else b.

Definition Math_max (a b : float) : float :=
  if (is_nan a || is_nan b)%bool then nan
  else if a <? b then b else if b <? a then a
  else if get_sign a then b else a.

Definition ToInt16 (f : float) : Z :=
  match trunc f with
  | Some t => ((t + 32768) mod 65536 - 32768)%Z
  | None => 0%Z
  end.

Definition scale_sample (x : float) : float :=
  let s := Math_max (-1) (Math_min 1 x) in
  if s <? 0 then s * 32768 else s * 32767.

Definition quantize (x : float) : Z := ToInt16 (scale_sample x).
Definition dequantize (v : Z) : float := of_Z v / 32768.

(** The distance between a sample and its decoding, in quantisation
    steps of [1/32768]. *)
Definition round_trip_error (x : float) : float :=
  abs (dequantize (quantize x) - x) * 32768.

(** The Float32 sample [1 - 2^-20]. *)
Definition near_one : float := 1 - 0x1p-20.

(** [Math.ceil(buffer.length / ratio)] and [Math.floor(i * ratio)] of
    [downsampleTo16k]. *)
Definition newLength (len : nat) (rate : float) : option Z :=
  ceil (of_Z (Z.of_nat len) / (rate / 16000)).

Definition offset (i : nat) (rate : float) : option Z :=
  floor (of_Z (Z.of_nat i) * (rate / 16000)).

(** The silence gate of [onaudioprocess]. *)
Definition sumSquares (chunk : list float) : float :=
  fold_left (fun acc x => acc + x * x) chunk 0.

Definition rms_gt_epsilon (chunk : list float) : bool :=
  of_Z 1 / of_Z 1000000 <? sqrt (sumSquares chunk / of_Z (Z.of_nat (List.length chunk))).

End Binary64.

(** ** Vocabulary of the properties *)

(** A sample within the nominal range of the capture device. *)
Definition in_unit (s : Q) : Prop := (-1 <= s <= 1)%Q.

(** What one sample becomes: the 16-bit integer and the decoded value. *)
Definition quantize (x : Q) : Z := ToInt16 (scale_sample x).
Definition dequantize (v : Z) : Q := (inject_Z v / 32768)%Q.

Definition is_int16 (v : Z) : Prop := -32768 <= v <= 32767.

(** Encoding for the service, then decoding as the audio of a message. *)
Definition codec_round_trip (x : list Q) : Exc AudioBuffer :=
  bytes <- decode (data (createBlob x)) ;;
  decodeAudioData bytes PCM_SAMPLE_RATE_OUTPUT 1.

(** [stable R m]: running [m] relates the state before to the state
    after, whether [m] returns or throws. *)
Definition stable {A} (R : Nova -> Nova -> Prop) (m : M A) : Prop :=
  forall n, R n (fst (m n)).

(** The cursor is written by [schedule] alone, and never moved back. *)
Definition cursor_le (n n' : Nova) : Prop :=
  (nextStartTimeRef n <= nextStartTimeRef n')%Q.

(** Silent buffers of one channel at 24000 Hz, as [createBuffer] makes them. *)
Definition silence (frameCount : Z) : AudioBuffer :=
  mkAudioBuffer 1 (Z.to_nat frameCount) PCM_SAMPLE_RATE_OUTPUT
    [repeat 0%Q (Z.to_nat frameCount)].

(** The timers that are automatic reconnects. *)
Definition is_reconnect (t : Timer) : bool :=
  match t with
  | Timer_connect _ _ => true
  | Timer_startWakeWord _ => false
  end.

Definition reconnects (n : Nova) : nat :=
  List.length (filter is_reconnect (timers n)).

(** A connect cycle ends when the transport opens or the user
    disconnects: both put the retry counter back to zero. *)
Definition same_cycle (ev : Event) : bool :=
  match ev with
  | EvOpen _ | EvDisconnect => false
  | _ => true
  end.

(** The retry counter and the timers are left as they were. *)
Definition same_retry_state (n n' : Nova) : Prop :=
  retryCountRef n' = retryCountRef n /\ timers n' = timers n.

(** A platform to run examples on: the URL model above, a browser that
    opens every window, strings encoded as they are. *)
Definition example_platform : Platform :=
  {| urlApi := Whatwg.api;
     window_open := fun _ _ => Ok true;
     encodeURIComponent := fun v => match v with
                                    | JString s => Ok s
                                    | _ => Ok "undefined"
                                    end;
     template := fun v => match v with
                          | JString s => s
                          | _ => "undefined"
                          end;
     Date_toISOString := "2025-01-01T00:00:00.000Z";
     navigator_userAgent := "Mozilla/5.0";
     navigator_onLine := true;
     PICOVOICE_ACCESS_KEY := EmptyString |}.

(** The result of a call, from the outcome of the [try] of its turn. *)
Definition payload_of (out : Exc JsVal) : JsVal :=
  match out with
  | Ok result => result
  | Throw toolErr => JObject [("error", JString (message toolErr))]
  end.

Definition response_of (fc : FunctionCall) (out : Exc JsVal) : FunctionResponse :=
  mkResponse (fc_id fc) (fc_name fc) (JObject [("result", payload_of out)]).

(** The state in which the [try] of a call starts, and the one its turn
    of the loop ends in. *)
Definition before_try (P : Platform) (fc : FunctionCall) (n : Nova) : Nova :=
  addLog ("Executing tool: " ++ template P (fc_name fc)) Tp_tool Src_system None n.

Definition after_try (out : Exc JsVal) (n : Nova) : Nova :=
  match out with
  | Ok _ => n
  | Throw toolErr =>
      addLog ("Tool error: " ++ message toolErr) Tp_error Src_system None n
  end.

(** [batch P n fcs rs n']: from the state [n], the calls [fcs], each one
    run in the state its predecessors left, are answered by [rs] and
    leave the state [n']. *)
Inductive batch (P : Platform)
  : Nova -> list FunctionCall -> list FunctionResponse -> Nova -> Prop :=
| batch_nil : forall n, batch P n [] [] n
| batch_cons : forall n fc fcs n1 out rs n',
    tool_body P (fc_name fc) (fc_args fc) (before_try P fc n) = (n1, out) ->
    batch P (after_try out n1) fcs rs n' ->
    batch P n (fc :: fcs) (response_of fc out :: rs) n'.

(** The four tools declared to the service. *)
Definition known_tool (name : JsVal) : bool :=
  is_name name "openUrl" || is_name name "googleSearch"
  || is_name name "changeTheme" || is_name name "getSystemStatus".

(** The frame as [onaudioprocess] accumulates it: what the resampler
    returns, nothing when it throws. *)
Definition resampled (rate : Q) (inputData : list Q) : list Q :=
  match downsampleTo16k inputData rate with
  | Ok downsampledData => downsampledData
  | Throw _ => []
  end.



(** The events that carry media: a capture frame, a server message. *)
Definition is_media (ev : Event) : bool :=
  match ev with
  | EvAudioProcess _ _ | EvMessage _ _ => true
  | _ => false
  end.

(** What the session machine keeps true of its refs: the retry counter is
    0 or 1; the wake-word flag shown by the interface is the presence of
    an engine; no engine listens while a connection is being made; and the
    status CONNECTING is shown only while one is. *)
Definition session_invariant (n : Nova) : Prop :=
  (retryCountRef n <= 1)%nat /\
  porcupineRef n = isWakeWordListening n /\
  (isConnectingRef n = true -> isWakeWordListening n = false) /\
  (status n = CONNECTING -> isConnectingRef n = true).

(** The refs of the session machine, the status apart. *)
Definition same_refs (n n' : Nova) : Prop :=
  retryCountRef n' = retryCountRef n /\
  porcupineRef n' = porcupineRef n /\
  isWakeWordListening n' = isWakeWordListening n /\
  isConnectingRef n' = isConnectingRef n.

(** Playback units in sequence from the time [t]: each one starts at or
    after the end of the one before it, the first one at or after [t]. *)
Fixpoint in_sequence (t : Q) (units : list PlaybackUnit) : Prop :=
  match units with
  | [] => True
  | u :: rest =>
      (t <= unit_start u)%Q /\
      in_sequence (unit_start u + duration (unit_buffer u)) rest
  end.

(** The end of the last unit of a sequence that begins at [t]. *)
Fixpoint playback_end (t : Q) (units : list PlaybackUnit) : Q :=
  match units with
  | [] => t
  | u :: rest => playback_end (unit_start u + duration (unit_buffer u)) rest
  end.

(** [l'] is [l] with something added at its end. *)
Definition extends {A} (l l' : list A) : Prop :=
  exists suffix : list A, l' = (l ++ suffix)%list.

(** The records of what the hook did are only ever added to. *)
Definition only_grows (n n' : Nova) : Prop :=
  extends (logs n) (logs n') /\
  extends (started n) (started n') /\
  extends (realtimeInput n) (realtimeInput n') /\
  extends (toolResponses n) (toolResponses n') /\
  extends (opened n) (opened n').


(** The three steps of [onmessage] that come before the tool calls, as
    functions of the state: the audio of the message, the transcript of
    what the user said, the end of the turn. *)
Definition after_audio (currentTime : Q) (msg : LiveServerMessage) (n : Nova) : Nova :=
  match truthy (base64Audio msg) with
  | None => n
  | Some b64 =>
      match bytes <- decode b64 ;; decodeAudioData bytes PCM_SAMPLE_RATE_OUTPUT 1 with
      | Ok audioBuffer => schedule currentTime audioBuffer (set_status SPEAKING n)
      | Throw _ =>
          addLog "Audio playback error" Tp_error Src_system None
            (set_status SPEAKING n)
      end
  end.

Definition after_transcript (msg : LiveServerMessage) (n : Nova) : Nova :=
  match truthy (inputTranscript msg) with
  | Some t => addLog ("You: " ++ t) Tp_info Src_user None n
  | None => n
  end.

Definition after_turn (msg : LiveServerMessage) (n : Nova) : Nova :=
  if turnComplete msg then set_status LISTENING n else n.

(** What the tool calls never write to: the status, the playback and the
    capture. *)
Definition same_playback (n n' : Nova) : Prop :=
  status n' = status n /\
  started n' = started n /\
  nextStartTimeRef n' = nextStartTimeRef n /\
  sourcesRef n' = sourcesRef n /\
  audioBufferRef n' = audioBufferRef n /\
  realtimeInput n' = realtimeInput n.

(** The tools that call [window.open]. *)
Definition opens_window (fc : FunctionCall) : bool :=
  is_name (fc_name fc) "openUrl" || is_name (fc_name fc) "googleSearch".

(* ===================================================================== *)
(** * Part II: properties                                                 *)
(* ===================================================================== *)

(** ** Base64 *)

(** Induction on lists three elements at a time. *)
Section ListInd3.
Variable A : Type.
Variable P : list A -> Prop.
Hypothesis P0 : P [].
Hypothesis P1 : forall a, P [a].
Hypothesis P2 : forall a b, P [a; b].
Hypothesis P3 : forall a b c l, P l -> P (a :: b :: c :: l).

Lemma list_ind3 : forall l, P l.
Proof.
  assert (H : forall l, P l /\ (forall a, P (a :: l)) /\ (forall a b, P (a :: b :: l))).
  { induction l as [|x l (IH0 & IH1 & IH2)].
    - repeat split; auto.
    - repeat split; auto. }
  intros l. apply H.
Qed.
End ListInd3.

Module B64Facts.
Import Base64.

Lemma hi_lo k x y :
  (0 < k -> y < k -> (x * k + y) / k = x /\ (x * k + y) mod k = y)%N.
Proof.
  intros Hk Hy. split.
  - rewrite N.add_comm, N.div_add by lia. rewrite N.div_small by lia. lia.
  - rewrite N.add_comm, N.Div0.mod_add. apply N.mod_small; lia.
Qed.

Lemma group_1 a b : (b < 256 -> (a / 4) * 4 + ((a mod 4) * 16 + b / 16) / 16 = a)%N.
Proof.
  intros. assert (b / 16 < 16)%N by lia.
  destruct (hi_lo 16 (a mod 4) (b / 16)) as [-> _]; lia.
Qed.

Lemma group_2 a b c :
  (b < 256 -> c < 256 ->
   (((a mod 4) * 16 + b / 16) mod 16) * 16 + ((b mod 16) * 4 + c / 64) / 4 = b)%N.
Proof.
  intros. assert (c / 64 < 4)%N by lia. assert (b / 16 < 16)%N by lia.
  destruct (hi_lo 4 (b mod 16) (c / 64)) as [-> _]; [lia | lia |].
  destruct (hi_lo 16 (a mod 4) (b / 16)) as [_ ->]; lia.
Qed.

Lemma group_3 b c :
  (c < 256 -> (((b mod 16) * 4 + c / 64) mod 4) * 64 + c mod 64 = c)%N.
Proof.
  intros. assert (c / 64 < 4)%N by lia.
  destruct (hi_lo 4 (b mod 16) (c / 64)) as [_ ->]; lia.
Qed.

Definition is_byte (n : N) : Prop := (n < 256)%N.
Definition is_sextet (n : N) : Prop := (n < 64)%N.

Lemma sextets_lt l : Forall is_byte l -> Forall is_sextet (sextets l).
Proof.
  unfold is_byte, is_sextet.
  induction l as [| a | a b | a b c l IH] using list_ind3; intros H; simpl.
  - constructor.
  - inversion_clear H. repeat constructor; lia.
  - inversion_clear H as [|? ? Ha H']. inversion_clear H' as [|? ? Hb _].
    repeat constructor; lia.
  - inversion_clear H as [|? ? Ha H']. inversion_clear H' as [|? ? Hb H''].
    inversion_clear H'' as [|? ? Hc Hl].
    repeat (constructor; [lia|]). auto.
Qed.

Lemma octets_sextets l : Forall is_byte l -> octets (sextets l) = l.
Proof.
  unfold is_byte.
  induction l as [| a | a b | a b c l IH] using list_ind3; intros H.
  - reflexivity.
  - inversion_clear H. cbn [sextets octets]. f_equal.
    pose proof (group_1 a 0). rewrite N.Div0.div_0_l, N.add_0_r in H by lia. lia.
  - inversion_clear H as [|? ? Ha H']. inversion_clear H' as [|? ? Hb _].
    cbn [sextets octets]. f_equal; [apply group_1; lia|]. f_equal.
    pose proof (group_2 a b 0). rewrite N.Div0.div_0_l, N.add_0_r in H by lia. lia.
  - inversion_clear H as [|? ? Ha H']. inversion_clear H' as [|? ? Hb H''].
    inversion_clear H'' as [|? ? Hc Hl].
    cbn [sextets octets]. rewrite IH by assumption.
    f_equal; [apply group_1; lia|]. f_equal; [apply group_2; lia|].
    f_equal. apply group_3; lia.
Qed.

Lemma padding_add3 n : padding (3 + n) = padding n.
Proof.
  unfold padding. replace ((3 + n) mod 3)%nat with (n mod 3)%nat by lia.
  reflexivity.
Qed.

Lemma sextets_length l :
  ((List.length (sextets l) + List.length (padding (List.length l))) mod 4 = 0
   /\ List.length (sextets l) mod 4 <> 1)%nat.
Proof.
  induction l as [| a | a b | a b c l IH] using list_ind3;
    try (split; [reflexivity | discriminate]).
  destruct IH as [IH1 IH2].
  change (List.length (a :: b :: c :: l)) with (3 + List.length l)%nat.
  rewrite padding_add3. cbn [sextets List.length]. lia.
Qed.

Lemma char_sextet_sextet_char n : is_sextet n -> char_sextet (sextet_char n) = Some n.
Proof.
  unfold is_sextet. intros H. destruct n as [|p]; [reflexivity|].
  do 6 (try (destruct p as [p|p|]; try reflexivity)); lia.
Qed.

Lemma whitespace_not_alphabet c : is_ascii_whitespace c = true -> char_sextet c = None.
Proof.
  destruct c as [[] [] [] [] [] [] [] []]; vm_compute; congruence.
Qed.

Lemma char_sextets_map vs :
  Forall is_sextet vs -> char_sextets (map sextet_char vs) = Some vs.
Proof.
  induction 1 as [|v vs Hv _ IH]; [reflexivity|].
  cbn [map char_sextets]. now rewrite char_sextet_sextet_char, IH.
Qed.

Definition plain (c : ascii) : Prop :=
  is_ascii_whitespace c = false /\ (c =? "=")%char = false.

Lemma sextet_char_plain n : is_sextet n -> plain (sextet_char n).
Proof.
  intros H. pose proof (char_sextet_sextet_char n H) as E. split.
  - destruct (is_ascii_whitespace (sextet_char n)) eqn:W; [|reflexivity].
    rewrite (whitespace_not_alphabet _ W) in E. discriminate.
  - destruct (Ascii.eqb_spec (sextet_char n) "=") as [E'|]; [|reflexivity].
    rewrite E' in E. discriminate.
Qed.

Lemma drop_last_eq_plain l : Forall plain l -> drop_last_eq l = l.
Proof.
  intros H. unfold drop_last_eq. destruct (rev l) as [|c r] eqn:E; [reflexivity|].
  assert (Hc : plain c).
  { rewrite Forall_forall in H. apply H. apply in_rev. rewrite E. now left. }
  destruct Hc as [_ ->]. reflexivity.
Qed.

Lemma drop_last_eq_snoc l : drop_last_eq (l ++ ["="%char]) = l.
Proof.
  unfold drop_last_eq. rewrite rev_app_distr. cbn. apply rev_involutive.
Qed.

Lemma strip_padding_core core n :
  Forall plain core -> strip_padding (core ++ padding n) = core.
Proof.
  intros H. unfold strip_padding, padding.
  destruct (n mod 3)%nat as [|[|[|k]]].
  - rewrite app_nil_r, (drop_last_eq_plain core H). now apply drop_last_eq_plain.
  - change ["="%char; "="%char] with (["="%char] ++ ["="%char])%list.
    rewrite app_assoc. now rewrite !drop_last_eq_snoc.
  - rewrite drop_last_eq_snoc. now apply drop_last_eq_plain.
  - rewrite app_nil_r, (drop_last_eq_plain core H). now apply drop_last_eq_plain.
Qed.

Lemma filter_whitespace_id l :
  Forall (fun c => is_ascii_whitespace c = false) l ->
  filter (fun c => negb (is_ascii_whitespace c)) l = l.
Proof.
  induction 1 as [|c l Hc _ IH]; [reflexivity|].
  cbn. rewrite Hc. cbn. now rewrite IH.
Qed.

Lemma atob_btoa_chars l : atob_chars (btoa_chars l) = Some l.
Proof.
  set (ns := map N_of_ascii l).
  assert (Hb : Forall is_byte ns).
  { apply Forall_forall. intros n Hn. apply in_map_iff in Hn.
    destruct Hn as (c & <- & _). apply N_ascii_bounded. }
  assert (Hs : Forall is_sextet (sextets ns)) by now apply sextets_lt.
  assert (Hcore : Forall plain (map sextet_char (sextets ns))).
  { apply Forall_forall. intros c Hc. apply in_map_iff in Hc.
    destruct Hc as (n & <- & Hn). apply sextet_char_plain.
    rewrite Forall_forall in Hs. now apply Hs. }
  destruct (sextets_length ns) as [Hlen Hlen1].
  unfold atob_chars, btoa_chars. fold ns.
  rewrite filter_whitespace_id.
  2:{ apply Forall_app. split.
      - eapply Forall_impl; [|exact Hcore]. now intros c [? _].
      - unfold padding. destruct (_ mod 3)%nat as [|[|[|k]]]; repeat constructor. }
  replace (List.length l) with (List.length ns) by apply length_map.
  rewrite length_app, length_map, Hlen. cbn [Nat.eqb].
  rewrite strip_padding_core by assumption.
  rewrite length_map.
  destruct (Nat.eqb_spec (List.length (sextets ns) mod 4) 1) as [E|_]; [contradiction|].
  rewrite char_sextets_map by assumption. cbn [option_map].
  rewrite octets_sextets by assumption. unfold ns.
  rewrite map_map. f_equal. rewrite <- (map_id l) at 2.
  apply map_ext. intros c. apply ascii_N_embedding.
Qed.

Lemma atob_btoa s : atob (btoa s) = Some s.
Proof.
  unfold atob, btoa. rewrite list_ascii_of_string_of_list_ascii.
  rewrite atob_btoa_chars. cbn. now rewrite string_of_list_ascii_of_string.
Qed.

End B64Facts.

(** [decode] undoes [encode]. *)
Lemma decode_encode bytes : decode (encode bytes) = Ok bytes.
Proof.
  unfold decode, encode. rewrite B64Facts.atob_btoa.
  now rewrite list_byte_of_string_of_list_byte.
Qed.

(** C9.  For every byte sequence [b], decoding the base64 encoding of [b]
    returns [b] exactly: [decode (encode b)] completes normally with [b]. *)
Theorem C9_base64_round_trip :
  forall b : list byte, decode (encode b) = Ok b.
Proof.
  intros b. apply decode_encode.
Qed.

(** ** The PCM codec *)

Lemma Qlt_bool_iff x y : Qlt_bool x y = true <-> (x < y)%Q.
Proof.
  unfold Qlt_bool. rewrite negb_true_iff. split.
  - intros H. apply Qnot_le_lt. intros L. apply Qle_bool_iff in L. congruence.
  - intros H. destruct (Qle_bool y x) eqn:E; [|reflexivity].
    apply Qle_bool_iff in E. exfalso. exact (Qlt_not_le _ _ H E).
Qed.

Lemma Qlt_bool_false_iff x y : Qlt_bool x y = false <-> (y <= x)%Q.
Proof.
  unfold Qlt_bool. rewrite negb_false_iff. apply Qle_bool_iff.
Qed.

(** [Qtrunc] rounds toward zero. *)
Lemma Qtrunc_nonneg x :
  (0 <= x)%Q -> (inject_Z (Qtrunc x) <= x < inject_Z (Qtrunc x) + 1)%Q.
Proof.
  intros H. assert (E : Qtrunc x = Qfloor x).
  { destruct x as [n d]. unfold Qtrunc, Qfloor. cbn [Qnum Qden].
    apply Z.quot_div_nonneg; [|lia].
    unfold Qle in H. cbn in H. lia. }
  rewrite E. split; [apply Qfloor_le|].
  pose proof (Qlt_floor x) as L. rewrite inject_Z_plus in L. exact L.
Qed.

Lemma Qtrunc_nonpos x :
  (x <= 0)%Q -> (x <= inject_Z (Qtrunc x) < x + 1)%Q.
Proof.
  intros H. assert (E : Qtrunc x = Qceiling x).
  { destruct x as [n d]. unfold Qtrunc, Qceiling, Qfloor, Qopp. cbn [Qnum Qden].
    unfold Qle in H. cbn in H.
    rewrite <- (Z.opp_involutive n) at 1. rewrite Z.quot_opp_l by lia.
    f_equal. apply Z.quot_div_nonneg; lia. }
  rewrite E. split; [apply Qle_ceiling|].
  pose proof (Qceiling_lt x) as L. unfold Zminus in L.
  rewrite inject_Z_plus in L. rewrite inject_Z_opp in L. change (inject_Z 1) with 1%Q in L. lra.
Qed.

Lemma inject_Z_le_inv a b : (inject_Z a <= inject_Z b)%Q -> a <= b.
Proof. intros H. now rewrite Zle_Qle. Qed.

Lemma inject_Z_lt_inv a b : (inject_Z a < inject_Z b)%Q -> a < b.
Proof. intros H. now rewrite Zlt_Qlt. Qed.



Lemma clamp_in_unit x :
  in_unit x -> (Qmax (-1) (Qmin 1 x) == x)%Q.
Proof.
  intros [L U]. rewrite (Q.min_r 1 x) by exact U. now apply Q.max_r.
Qed.

Lemma quantize_spec x :
  in_unit x ->
  -32768 <= quantize x <= 32767 /\
  ((0 <= x)%Q -> (inject_Z (quantize x) <= x * 32767 < inject_Z (quantize x) + 1)%Q) /\
  ((x < 0)%Q -> (x * 32768 <= inject_Z (quantize x) < x * 32768 + 1)%Q).
Proof.
  intros Hx. pose proof (clamp_in_unit x Hx) as Hs. destruct Hx as [L U].
  unfold quantize, scale_sample.
  set (s := Qmax (-1) (Qmin 1 x)) in *. clearbody s.
  destruct (Qlt_bool s 0) eqn:E.
  - apply Qlt_bool_iff in E.
    assert (N : (s * 32768 <= 0)%Q) by lra.
    pose proof (Qtrunc_nonpos _ N) as [T1 T2].
    assert (B1 : -32768 <= Qtrunc (s * 32768)).
    { apply inject_Z_le_inv. unfold inject_Z at 1. lra. }
    assert (B2 : Qtrunc (s * 32768) < 1).
    { apply inject_Z_lt_inv. unfold inject_Z at 2. lra. }
    assert (ET : ToInt16 (s * 32768) = Qtrunc (s * 32768)).
    { unfold ToInt16. lia. }
    rewrite ET. repeat split; try lia; intros; lra.
  - apply Qlt_bool_false_iff in E.
    assert (N : (0 <= s * 32767)%Q) by lra.
    pose proof (Qtrunc_nonneg _ N) as [T1 T2].
    assert (B1 : Qtrunc (s * 32767) <= 32767).
    { apply inject_Z_le_inv. unfold inject_Z at 2. lra. }
    assert (B2 : -1 < Qtrunc (s * 32767)).
    { apply inject_Z_lt_inv. unfold inject_Z at 1. lra. }
    assert (ET : ToInt16 (s * 32767) = Qtrunc (s * 32767)).
    { unfold ToInt16. lia. }
    rewrite ET. repeat split; try lia; intros; lra.
Qed.

Lemma Qdiv_32768 t : (t / 32768 == t * (1 # 32768))%Q.
Proof. reflexivity. Qed.

Lemma sample_error x :
  in_unit x ->
  (Qabs (dequantize (quantize x) - x) < 2 # 32768)%Q /\
  ((x < 0)%Q -> (Qabs (dequantize (quantize x) - x) < 1 # 32768)%Q).
Proof.
  intros Hx. destruct (quantize_spec x Hx) as (_ & Hp & Hn).
  destruct Hx as [L U]. unfold dequantize.
  set (t := inject_Z (quantize x)) in *. clearbody t.
  destruct (Qlt_le_dec x 0) as [Neg|Pos].
  - specialize (Hn Neg).
    split; [|intros _]; apply Qabs_Qlt_condition; rewrite (Qdiv_32768 t); split; lra.
  - specialize (Hp Pos). split; [|intros Neg; lra].
    apply Qabs_Qlt_condition; rewrite (Qdiv_32768 t); split; lra.
Qed.

(** *** Bytes of 16-bit integers *)


Lemma Z_of_byte_of_Z z : Z_of_byte (byte_of_Z z) = z mod 256.
Proof.
  unfold Z_of_byte, byte_of_Z.
  destruct (Byte.of_N (Z.to_N (z mod 256))) as [b|] eqn:E.
  - apply Byte.to_of_N in E. rewrite E. lia.
  - apply Byte.of_N_None_iff in E. lia.
Qed.

Lemma ToInt16_is_int16 x : is_int16 (ToInt16 x).
Proof. unfold is_int16, ToInt16. lia. Qed.

Lemma int16_of_bytes_int16_bytes v :
  is_int16 v -> int16_of_bytes (byte_of_Z v) (byte_of_Z (v / 256)) = v.
Proof.
  unfold is_int16, int16_of_bytes. intros H.
  rewrite !Z_of_byte_of_Z. lia.
Qed.

Lemma Int16Array_round_trip l :
  Forall is_int16 l -> Int16Array_of_bytes (Uint8Array_of_Int16Array l) = l.
Proof.
  induction 1 as [|v l Hv _ IH]; [reflexivity|].
  cbn [Uint8Array_of_Int16Array flat_map int16_bytes app Int16Array_of_bytes].
  fold (Uint8Array_of_Int16Array l).
  now rewrite int16_of_bytes_int16_bytes, IH.
Qed.

Lemma Uint8Array_length l :
  List.length (Uint8Array_of_Int16Array l) = (2 * List.length l)%nat.
Proof.
  induction l as [|v l IH]; [reflexivity|].
  cbn [Uint8Array_of_Int16Array flat_map int16_bytes app List.length].
  fold (Uint8Array_of_Int16Array l). lia.
Qed.

Lemma pcmData_of_Uint8Array l :
  Forall is_int16 l -> pcmData_of (Uint8Array_of_Int16Array l) = l.
Proof.
  intros H. unfold pcmData_of. rewrite Uint8Array_length.
  replace (Nat.even (2 * List.length l)) with true.
  - now apply Int16Array_round_trip.
  - symmetry. apply Nat.even_spec. now exists (List.length l).
Qed.

Lemma map_nth_seq {A B} (g : A -> B) (d : A) (l : list A) :
  map (fun i => g (nth i l d)) (seq 0 (List.length l)) = map g l.
Proof.
  induction l as [|a l IH]; [reflexivity|].
  cbn [List.length seq map nth]. f_equal.
  rewrite <- seq_shift, map_map. exact IH.
Qed.

Lemma channel_samples_mono pcm :
  channel_samples pcm 1 (List.length pcm) 0 = map dequantize pcm.
Proof.
  unfold channel_samples. rewrite <- (map_nth_seq dequantize 0 pcm).
  apply map_ext. intros i. now rewrite Nat.mul_1_r, Nat.add_0_r.
Qed.


Lemma codec_round_trip_eq x :
  x <> [] ->
  codec_round_trip x =
  Ok (mkAudioBuffer 1 (List.length x) PCM_SAMPLE_RATE_OUTPUT
        [map (fun s => dequantize (quantize s)) x]).
Proof.
  intros Hx. unfold codec_round_trip, createBlob. cbn [data].
  rewrite decode_encode. cbn [bindE]. unfold decodeAudioData.
  set (int16 := map (fun s => ToInt16 (scale_sample s)) x).
  assert (Hi : Forall is_int16 int16).
  { apply Forall_forall. intros v Hv. apply in_map_iff in Hv.
    destruct Hv as (s & <- & _). apply ToInt16_is_int16. }
  rewrite pcmData_of_Uint8Array by exact Hi.
  rewrite Nat.div_1_r.
  assert (Hl : List.length int16 = List.length x) by apply length_map.
  unfold createBuffer.
  assert (Hn : (List.length int16 =? 0)%nat = false).
  { apply Nat.eqb_neq. rewrite Hl. destruct x; [congruence | discriminate]. }
  rewrite Hn. cbn [Nat.eqb orb].
  replace (Qle_bool PCM_SAMPLE_RATE_OUTPUT 0) with false by reflexivity.
  cbn [bindE numberOfChannels frames sampleRate seq map].
  rewrite channel_samples_mono, Hl. unfold int16. now rewrite map_map.
Qed.

(** C7, as amended.  For every non-empty array [x] of samples in [-1, 1],
    decoding the PCM16 encoding of [x] gives one channel of as many
    samples, each less than two quantisation steps ([2/32768]) away from
    the sample it comes from, and less than one step away where that
    sample is negative. *)
Theorem C7_round_trip_within_two_steps :
  forall x : list Q,
    x <> [] ->
    Forall in_unit x ->
    exists y : list Q,
      codec_round_trip x =
        Ok (mkAudioBuffer 1 (List.length x) PCM_SAMPLE_RATE_OUTPUT [y]) /\
      Forall2 (fun s d => (Qabs (d - s) < 2 # 32768)%Q /\
                          ((s < 0)%Q -> (Qabs (d - s) < 1 # 32768)%Q)) x y.
Proof.
  intros x Hne Hx. eexists. split; [now apply codec_round_trip_eq|].
  clear Hne. induction Hx as [|s x Hs _ IH]; constructor.
  - now apply sample_error.
  - exact IH.
Qed.

Lemma C7_round_trip_witness :
  exists y : list Q,
    codec_round_trip [1; -1; 0; 1 # 2]%Q =
      Ok (mkAudioBuffer 1 4 PCM_SAMPLE_RATE_OUTPUT [y]) /\
    Forall2 (fun s d => (Qabs (d - s) < 2 # 32768)%Q /\
                        ((s < 0)%Q -> (Qabs (d - s) < 1 # 32768)%Q))
            [1; -1; 0; 1 # 2]%Q y.
Proof.
  apply (C7_round_trip_within_two_steps [1; -1; 0; 1 # 2]%Q).
  - discriminate.
  - repeat constructor; vm_compute; discriminate.
Defined.

(** The sample [1 - 2^-20] is decoded as [32766/32768], more than one
    step below it; and the empty array cannot be decoded at all, since
    [createBuffer] refuses a buffer of no frames. *)
Lemma C7_counterexample :
  Forall in_unit [1048575 # 1048576]%Q /\
  codec_round_trip [1048575 # 1048576]%Q =
    Ok (mkAudioBuffer 1 1 PCM_SAMPLE_RATE_OUTPUT [[32766 # 32768]%Q]) /\
  ~ (Qabs ((32766 # 32768) - (1048575 # 1048576)) <= 1 # 32768)%Q /\
  codec_round_trip [] = Throw NotSupportedError.
Proof.
  split; [|split; [|split]].
  - constructor; [|constructor]. split; vm_compute; discriminate.
  - vm_compute. reflexivity.
  - intros H. vm_compute in H. now apply H.
  - reflexivity.
Qed.

(** The same sample in binary64: it is quantised to the same integer as
    in the exact model, and decoded more than one step away. *)
Example binary64_codec_check :
  Binary64.quantize Binary64.near_one = quantize (1048575 # 1048576) /\
  PrimFloat.ltb (Binary64.of_Z 1) (Binary64.round_trip_error Binary64.near_one)
    = true.
Proof. split; vm_compute; reflexivity. Qed.

(** ** The resampler *)


Lemma Q_of_nat_nonneg n : (0 <= Q_of_nat n)%Q.
Proof.
  unfold Q_of_nat. change 0%Q with (inject_Z 0). rewrite <- Zle_Qle. lia.
Qed.










(** For the frame sizes of the hook at the usual rates of capture
    devices, binary64 gives the output length of the exact model. *)
Example binary64_resample_lengths :
  forallb
    (fun rate : Z =>
       let len := scriptBufferSize (inject_Z rate) in
       match Binary64.newLength len (Binary64.of_Z rate) with
       | Some l => l =? Qceiling (Q_of_nat len / (inject_Z rate / 16000))
       | None => false
       end)
    [4000; 8000; 11025; 12000; 22050; 24000; 32000; 44100; 48000;
     88200; 96000; 176400; 192000; 384000] = true.
Proof. vm_compute. reflexivity. Qed.

(** ** The audio pipeline *)

Lemma sumSquares_fold_zero l a :
  Forall (fun s => s == 0)%Q l ->
  (fold_left (fun acc x => acc + x * x) l a == a)%Q.
Proof.
  intros H. revert a. induction H as [|s l Hs _ IH]; intros a; [reflexivity|].
  cbn [fold_left]. rewrite IH, Hs. ring.
Qed.

Lemma sumSquares_fold_ge l a :
  (a <= fold_left (fun acc x => acc + x * x) l a)%Q.
Proof.
  revert a. induction l as [|s l IH]; intros a; [apply Qle_refl|].
  cbn [fold_left]. eapply Qle_trans; [|apply IH].
  assert (0 <= s * s)%Q by nra. lra.
Qed.

Lemma sumSquares_fold_member l a s :
  In s l -> (a + s * s <= fold_left (fun acc x => acc + x * x) l a)%Q.
Proof.
  revert a. induction l as [|t l IH]; intros a Hin; [destruct Hin|].
  cbn [fold_left]. destruct Hin as [->|Hin].
  - apply sumSquares_fold_ge.
  - eapply Qle_trans; [|apply (IH _ Hin)].
    assert (0 <= t * t)%Q by nra. lra.
Qed.

Lemma Q_of_nat_BUFFER_THRESHOLD : Q_of_nat BUFFER_THRESHOLD = 4096%Q.
Proof. reflexivity. Qed.

Lemma Qdiv_4096 t : (t / 4096 == t * (1 # 4096))%Q.
Proof. reflexivity. Qed.

(** A chunk of zeros does not pass the gate. *)
Lemma gate_silent chunk :
  Forall (fun s => s == 0)%Q chunk -> rms_gt_epsilon chunk = false.
Proof.
  intros H. unfold rms_gt_epsilon, sqrt_gt, sumSquares.
  apply Qlt_bool_false_iff. rewrite (sumSquares_fold_zero chunk 0 H).
  unfold Qdiv. rewrite Qmult_0_l. discriminate.
Qed.

(** A chunk of 4096 samples with one of magnitude 0.01 or more passes. *)
Lemma gate_loud chunk :
  List.length chunk = BUFFER_THRESHOLD ->
  Exists (fun s => 1 # 100 <= Qabs s)%Q chunk ->
  rms_gt_epsilon chunk = true.
Proof.
  intros Hlen H. apply Exists_exists in H. destruct H as (s & Hin & Hs).
  unfold rms_gt_epsilon, sqrt_gt. apply Qlt_bool_iff.
  rewrite Hlen, Q_of_nat_BUFFER_THRESHOLD, Qdiv_4096.
  pose proof (sumSquares_fold_member chunk 0 s Hin) as Hsum.
  fold (sumSquares chunk) in Hsum.
  assert (Hsq : ((1 # 10000) <= s * s)%Q).
  { revert Hs. apply Qabs_case; intros; nra. }
  set (q := sumSquares chunk) in *. clearbody q. lra.
Qed.

Arguments BUFFER_THRESHOLD : simpl never.

(** What [onaudioprocess] does with a frame that was resampled. *)
Lemma onaudioprocess_eq rate inputData n resampled :
  stopRef n = false ->
  downsampleTo16k inputData rate = Ok resampled ->
  let acc := (audioBufferRef n ++ resampled)%list in
  onaudioprocess rate inputData n =
  (if (BUFFER_THRESHOLD <=? List.length acc)%nat
   then
     let n1 := set_audioBufferRef (skipn BUFFER_THRESHOLD acc)
                 (set_audioBufferRef acc n) in
     if rms_gt_epsilon (firstn BUFFER_THRESHOLD acc)
     then sendRealtimeInput (createBlob (firstn BUFFER_THRESHOLD acc)) n1
     else n1
   else set_audioBufferRef acc n, Ok tt).
Proof.
  intros Hstop Hd acc. unfold onaudioprocess. rewrite Hstop.
  unfold bindM, liftE, modify. rewrite Hd.
  cbn [audioBufferRef set_audioBufferRef]. fold acc.
  reflexivity.
Qed.







(** C4.  When a chunk is sliced off, it is not sent if all its samples
    are zero, and it is sent if one of its samples has magnitude 0.01 or
    more. *)
Theorem C4_silence_gate :
  forall (rate : Q) (inputData : list Q) (n : Nova) (resampled : list Q),
    stopRef n = false ->
    downsampleTo16k inputData rate = Ok resampled ->
    let acc := (audioBufferRef n ++ resampled)%list in
    (BUFFER_THRESHOLD <= List.length acc)%nat ->
    let chunk := firstn BUFFER_THRESHOLD acc in
    let n' := fst (onaudioprocess rate inputData n) in
    (Forall (fun s => s == 0)%Q chunk -> realtimeInput n' = realtimeInput n) /\
    (Exists (fun s => 1 # 100 <= Qabs s)%Q chunk ->
     realtimeInput n' = (realtimeInput n ++ [createBlob chunk])%list).
Proof.
  intros rate inputData n resampled Hstop Hd acc Hge chunk n'.
  unfold n'. rewrite (onaudioprocess_eq rate inputData n resampled Hstop Hd).
  fold acc. cbn [fst]. apply Nat.leb_le in Hge as Hb. rewrite Hb.
  cbv zeta. fold chunk. split; intros H.
  - now rewrite (gate_silent chunk H).
  - rewrite (gate_loud chunk); [reflexivity | | exact H].
    apply firstn_length_le. exact Hge.
Qed.

Lemma C4_silence_gate_witness :
  let chunk := firstn BUFFER_THRESHOLD ([] ++ repeat 0%Q BUFFER_THRESHOLD)%list in
  let n' := fst (onaudioprocess 16000 (repeat 0%Q BUFFER_THRESHOLD) initial) in
  (Forall (fun s => s == 0)%Q chunk -> realtimeInput n' = []) /\
  (Exists (fun s => 1 # 100 <= Qabs s)%Q chunk ->
   realtimeInput n' = ([] ++ [createBlob chunk])%list).
Proof.
  apply (C4_silence_gate 16000 (repeat 0%Q BUFFER_THRESHOLD) initial
           (repeat 0%Q BUFFER_THRESHOLD) eq_refl eq_refl).
  apply Nat.leb_le. vm_compute. reflexivity.
Defined.

(** In binary64 as well: 2048 samples at 4000 Hz resample to 8192, a
    chunk of zeros is held back and a chunk with one sample of 1/64 is
    sent. *)
Example binary64_pipeline_check :
  Binary64.newLength (scriptBufferSize 4000) (Binary64.of_Z 4000) = Some 8192 /\
  Binary64.rms_gt_epsilon (repeat (Binary64.of_Z 0) BUFFER_THRESHOLD) = false /\
  Binary64.rms_gt_epsilon
    (Binary64.dequantize 512 :: repeat (Binary64.of_Z 0) (BUFFER_THRESHOLD - 1))
    = true.
Proof. repeat split; vm_compute; reflexivity. Qed.

(** ** Handlers and what they leave alone *)



(** A decoded buffer has a zero or positive duration. *)
Lemma decodeAudioData_duration bytes rate numChannels buf :
  decodeAudioData bytes rate numChannels = Ok buf -> (0 <= duration buf)%Q.
Proof.
  unfold decodeAudioData, createBuffer.
  destruct ((numChannels =? 0)%nat || _ || Qle_bool rate 0) eqn:E; [discriminate|].
  cbn [bindE numberOfChannels frames sampleRate]. intros H. inversion H; subst.
  unfold duration. cbn [frames sampleRate].
  apply orb_false_iff in E. destruct E as [_ E].
  apply Qle_shift_div_l.
  - apply Qnot_le_lt. intros L. apply Qle_bool_iff in L. congruence.
  - rewrite Qmult_0_l. apply Q_of_nat_nonneg.
Qed.

Section Frame.

Variable R : Nova -> Nova -> Prop.
Hypothesis R_refl : forall n, R n n.
Hypothesis R_trans : forall a b c, R a b -> R b c -> R a c.

Lemma stable_retM {A} (a : A) : stable R (retM a).
Proof. intros n. apply R_refl. Qed.

Lemma stable_liftE {A} (e : Exc A) : stable R (liftE e).
Proof. intros n. apply R_refl. Qed.

Lemma stable_modify (f : Nova -> Nova) :
  (forall n, R n (f n)) -> stable R (modify f).
Proof. intros H n. apply H. Qed.

Lemma stable_bindM {A B} (m : M A) (k : A -> M B) :
  stable R m -> (forall a, stable R (k a)) -> stable R (bindM m k).
Proof.
  intros Hm Hk n. unfold bindM. specialize (Hm n).
  destruct (m n) as [n' [a|e]]; cbn [fst] in *.
  - eapply R_trans; [exact Hm | apply Hk].
  - exact Hm.
Qed.

Lemma stable_tryM {A} (body : M A) (handler : JsError -> M A) :
  stable R body -> (forall e, stable R (handler e)) -> stable R (tryM body handler).
Proof.
  intros Hb Hh n. unfold tryM. specialize (Hb n).
  destruct (body n) as [n' [a|e]]; cbn [fst] in *.
  - exact Hb.
  - eapply R_trans; [exact Hb | apply Hh].
Qed.

(** The tools write to the log, the theme and the list of opened
    windows, and to nothing else. *)
Hypothesis R_addLog : forall msg type source link n, R n (addLog msg type source link n).
Hypothesis R_theme : forall v n, R n (set_currentTheme v n).
Hypothesis R_opened : forall v n, R n (set_opened v n).

Variable P : Platform.

Lemma stable_call_window_open url : stable R (call_window_open P url).
Proof. intros n. apply R_opened. Qed.

Ltac stable_step :=
  first
    [ apply stable_bindM; [|intros ?]
    | apply stable_retM
    | apply stable_liftE
    | apply stable_call_window_open
    | apply stable_modify; intros ?;
      first [apply R_addLog | apply R_theme | apply R_opened]
    | match goal with
      | |- stable _ (if ?b then _ else _) => destruct b
      end ].

Lemma stable_tool_body name args : stable R (tool_body P name args).
Proof.
  unfold tool_body, openUrl, googleSearch, changeTheme, getSystemStatus.
  repeat stable_step.
Qed.

Lemma stable_run_call fc : stable R (run_call P fc).
Proof.
  unfold run_call. repeat stable_step.
  apply stable_tryM; [apply stable_tool_body|]. intros e. repeat stable_step.
Qed.

Lemma stable_for_functionCalls fcs acc :
  stable R (for_functionCalls P fcs acc).
Proof.
  revert acc. induction fcs as [|fc fcs IH]; intros acc; cbn [for_functionCalls].
  - apply stable_retM.
  - apply stable_bindM; [apply stable_run_call | intros r; apply IH].
Qed.

Lemma stable_bind_liftE {A B} (e : Exc A) (k : A -> M B) :
  (forall a, e = Ok a -> stable R (k a)) -> stable R (bindM (liftE e) k).
Proof.
  intros Hk n. unfold bindM, liftE. destruct e as [a|err]; cbn [fst].
  - now apply Hk.
  - apply R_refl.
Qed.

(** [onmessage] also sets the status, schedules decoded audio and sends
    the tool responses. *)
Hypothesis R_status : forall v n, R n (set_status v n).
Hypothesis R_schedule :
  forall now buf n, (0 <= duration buf)%Q -> R n (schedule now buf n).
Hypothesis R_sendToolResponse : forall rs n, R n (sendToolResponse rs n).

Lemma stable_onmessage_toolCall tc : stable R (onmessage_toolCall P tc).
Proof.
  unfold onmessage_toolCall. destruct tc as [[[fcs|]]|].
  - apply stable_bindM; [apply stable_for_functionCalls|].
    intros rs. apply stable_modify. intros n. apply R_sendToolResponse.
  - apply stable_liftE.
  - apply stable_retM.
Qed.

Lemma stable_onmessage currentTime msg : stable R (onmessage P currentTime msg).
Proof.
  intros n. unfold onmessage. destruct (stopRef n); [apply R_refl|].
  revert n. change (stable R
    ((match truthy (base64Audio msg) with
      | Some b64 =>
          modify (set_status SPEAKING) ;;;
          tryM (audioBuffer <~ liftE (bytes <- decode b64 ;;
                                      decodeAudioData bytes PCM_SAMPLE_RATE_OUTPUT 1) ;;
                modify (schedule currentTime audioBuffer))
               (fun _ => modify (addLog "Audio playback error"
                                   Tp_error Src_system None))
      | None => retM tt
      end) ;;;
     (match truthy (inputTranscript msg) with
      | Some t => modify (addLog ("You: " ++ t) Tp_info Src_user None)
      | None => retM tt
      end) ;;;
     (if turnComplete msg then modify (set_status LISTENING) else retM tt) ;;;
     onmessage_toolCall P (toolCall msg))).
  apply stable_bindM; [|intros _; apply stable_bindM; [|intros _; apply stable_bindM]].
  - destruct (truthy (base64Audio msg)) as [b64|]; [|apply stable_retM].
    apply stable_bindM; [apply stable_modify; intros n; apply R_status|].
    intros _. apply stable_tryM.
    + apply stable_bind_liftE. intros buf Hbuf. apply stable_modify. intros n.
      apply R_schedule.
      destruct (decode b64) as [bytes|]; [|discriminate]. cbn [bindE] in Hbuf.
      eapply decodeAudioData_duration. exact Hbuf.
    + intros _. apply stable_modify. intros n. apply R_addLog.
  - destruct (truthy (inputTranscript msg)); [|apply stable_retM].
    apply stable_modify. intros n. apply R_addLog.
  - destruct (turnComplete msg); [|apply stable_retM].
    apply stable_modify. intros n. apply R_status.
  - intros _. apply stable_onmessage_toolCall.
Qed.

(** [onaudioprocess] writes to the accumulator and to what is sent. *)
Hypothesis R_audioBuffer : forall v n, R n (set_audioBufferRef v n).
Hypothesis R_sendRealtimeInput : forall b n, R n (sendRealtimeInput b n).

Lemma stable_onaudioprocess rate inputData :
  stable R (onaudioprocess rate inputData).
Proof.
  intros n. unfold onaudioprocess. destruct (stopRef n); [apply R_refl|].
  revert n. change (stable R
    (downsampledData <~ liftE (downsampleTo16k inputData rate) ;;
     modify (fun n => set_audioBufferRef (audioBufferRef n ++ downsampledData) n) ;;;
     modify (fun n =>
       if (BUFFER_THRESHOLD <=? List.length (audioBufferRef n))%nat then
         let chunkToSend := firstn BUFFER_THRESHOLD (audioBufferRef n) in
         let n := set_audioBufferRef (skipn BUFFER_THRESHOLD (audioBufferRef n)) n in
         if rms_gt_epsilon chunkToSend
         then sendRealtimeInput (createBlob chunkToSend) n
         else n
       else n))).
  apply stable_bindM; [apply stable_liftE|]. intros d.
  apply stable_bindM; [apply stable_modify; intros n; apply R_audioBuffer|].
  intros _. apply stable_modify. intros n.
  destruct (BUFFER_THRESHOLD <=? _)%nat; [|apply R_refl].
  cbv zeta. destruct (rms_gt_epsilon _).
  - eapply R_trans; [apply R_audioBuffer | apply R_sendRealtimeInput].
  - apply R_audioBuffer.
Qed.

End Frame.

(** ** The playback scheduler *)

Lemma schedule_eq now buf n :
  let start := if Qlt_bool (nextStartTimeRef n) now then now else nextStartTimeRef n in
  started (schedule now buf n)
    = (started n ++ [mkUnit (List.length (started n)) buf start])%list /\
  nextStartTimeRef (schedule now buf n) = (start + duration buf)%Q.
Proof.
  unfold schedule. destruct (Qlt_bool (nextStartTimeRef n) now); split; reflexivity.
Qed.

Lemma schedule_monotone now buf n :
  (0 <= duration buf)%Q ->
  (nextStartTimeRef n <= nextStartTimeRef (schedule now buf n))%Q.
Proof.
  intros Hd. destruct (schedule_eq now buf n) as [_ ->].
  destruct (Qlt_bool (nextStartTimeRef n) now) eqn:E.
  - apply Qlt_bool_iff in E. lra.
  - lra.
Qed.


Ltac by_cases :=
  repeat match goal with
         | |- context [if ?b then _ else _] => destruct b
         | |- context [match ?x with _ => _ end] => destruct x
         end.

(** The handlers that are plain functions of the state, opened up. *)
Ltac open_handlers :=
  unfold fire, connect, disconnect, connect_resolved, connect_rejected, onopen,
    onended, onclose, onerror, startWakeWord, stopWakeWord,
    cleanupAudio, stopScreenShare, setTimeout, addLog;
  by_cases.

Lemma step_cursor P ev n : cursor_le n (step P ev n).
Proof.
  unfold cursor_le. destruct ev; cbn [step];
    try (open_handlers; apply Qle_refl).
  - apply (stable_onaudioprocess cursor_le); unfold cursor_le; intros;
      first [apply Qle_refl | eapply Qle_trans; eassumption].
  - apply (stable_onmessage cursor_le); unfold cursor_le; intros;
      first [apply Qle_refl | eapply Qle_trans; eassumption
            | now apply schedule_monotone].
Qed.

Lemma run_cursor P evs n : cursor_le n (run P evs n).
Proof.
  revert n. induction evs as [|ev evs IH]; intros n; cbn [run fold_left].
  - apply Qle_refl.
  - eapply Qle_trans; [apply step_cursor | apply IH].
Qed.

Lemma schedule_three b1 b2 b3 :
  (duration b1 == 1)%Q -> (duration b2 == 1 # 2)%Q -> (duration b3 == 2)%Q ->
  Forall2 Qeq
    (map unit_start
       (started (schedule 0 b3 (schedule 0 b2 (schedule 0 b1 initial)))))
    [0; 1; 3 # 2]%Q.
Proof.
  intros H1 H2 H3.
  set (n1 := schedule 0 b1 initial).
  set (n2 := schedule 0 b2 n1).
  destruct (schedule_eq 0 b1 initial) as [S1 T1]. fold n1 in S1, T1.
  destruct (schedule_eq 0 b2 n1) as [S2 T2]. fold n2 in S2, T2.
  destruct (schedule_eq 0 b3 n2) as [S3 _].
  cbn [initial nextStartTimeRef started Qlt_bool Qle_bool app List.length] in S1, T1.
  change (if Qlt_bool 0 0 then 0%Q else 0%Q) with 0%Q in S1, T1.
  assert (E1 : (nextStartTimeRef n1 == 1)%Q) by (rewrite T1, H1; reflexivity).
  assert (F1 : Qlt_bool (nextStartTimeRef n1) 0 = false).
  { apply Qlt_bool_false_iff. rewrite E1. discriminate. }
  rewrite F1 in S2, T2.
  assert (E2 : (nextStartTimeRef n2 == 3 # 2)%Q) by (rewrite T2, E1, H2; reflexivity).
  assert (F2 : Qlt_bool (nextStartTimeRef n2) 0 = false).
  { apply Qlt_bool_false_iff. rewrite E2. discriminate. }
  rewrite F2 in S3. rewrite S3, S2, S1. cbn [app map unit_start].
  constructor; [reflexivity|]. constructor; [exact E1|].
  constructor; [exact E2|]. constructor.
Qed.

(** C5.  Scheduling a buffer starts it at the cursor, first moved up to
    the current time of the output timeline when it is behind, and then
    advances the cursor by the duration of the buffer; units of durations
    1, 0.5 and 2 seconds scheduled with the timeline at 0 start at 0, 1
    and 1.5; and no event ever moves the cursor back. *)
Theorem C5_playback_schedule :
  (forall (now : Q) (buf : AudioBuffer) (n : Nova),
     let start :=
       if Qlt_bool (nextStartTimeRef n) now then now else nextStartTimeRef n in
     started (schedule now buf n)
       = (started n ++ [mkUnit (List.length (started n)) buf start])%list /\
     nextStartTimeRef (schedule now buf n) = (start + duration buf)%Q) /\
  (forall b1 b2 b3 : AudioBuffer,
     (duration b1 == 1)%Q -> (duration b2 == 1 # 2)%Q -> (duration b3 == 2)%Q ->
     Forall2 Qeq
       (map unit_start
          (started (schedule 0 b3 (schedule 0 b2 (schedule 0 b1 initial)))))
       [0; 1; 3 # 2]%Q) /\
  (forall (P : Platform) (evs : list Event) (n : Nova),
     (nextStartTimeRef n <= nextStartTimeRef (run P evs n))%Q).
Proof.
  split; [exact schedule_eq|]. split; [exact schedule_three|].
  intros P evs n. apply run_cursor.
Qed.


Lemma C5_playback_schedule_witness :
  Forall2 Qeq
    (map unit_start
       (started (schedule 0 (silence 48000)
                   (schedule 0 (silence 12000)
                      (schedule 0 (silence 24000) initial)))))
    [0; 1; 3 # 2]%Q.
Proof.
  apply (proj1 (proj2 C5_playback_schedule)
           (silence 24000) (silence 12000) (silence 48000));
    vm_compute; reflexivity.
Defined.

(** ** The reconnection policy *)

Lemma same_retry_state_refl n : same_retry_state n n.
Proof. split; reflexivity. Qed.

Lemma same_retry_state_trans a b c :
  same_retry_state a b -> same_retry_state b c -> same_retry_state a c.
Proof. intros [H1 H2] [H3 H4]. split; congruence. Qed.

Lemma reconnects_remove_nth i (l : list Timer) :
  (List.length (filter is_reconnect (remove_nth i l))
   <= List.length (filter is_reconnect l))%nat.
Proof.
  revert i. induction l as [|t l IH]; intros [|i]; cbn [remove_nth filter]; try lia.
  - destruct (is_reconnect t); cbn [List.length]; lia.
  - specialize (IH i). destruct (is_reconnect t); cbn [List.length]; lia.
Qed.

(** An error when the retry counter is not zero: ERROR, and nothing is
    scheduled. *)
Lemma onerror_no_retry apiKey err n :
  retryCountRef n <> 0%nat ->
  status (onerror apiKey err n) = ERROR /\
  same_retry_state n (onerror apiKey err n).
Proof.
  intros H. unfold onerror, same_retry_state.
  set (msg := match truthy err with Some m => m | None => "Unknown error" end).
  destruct (includes msg "closed"); cbn [negb];
    cbn [retryCountRef set_isConnectingRef set_status addLog set_logs];
    apply Nat.eqb_neq in H; rewrite H, andb_false_r; repeat split; reflexivity.
Qed.

(** An error when the retry counter is zero and the message has the
    network-error signature: ERROR, and one reconnect in 2000 ms. *)
Lemma onerror_first_retry apiKey msg n :
  retryCountRef n = 0%nat ->
  includes msg "Network error" = true ->
  let n1 := onerror apiKey (Some msg) n in
  status n1 = ERROR /\
  retryCountRef n1 = 1%nat /\
  timers n1 = (timers n ++ [Timer_connect apiKey 2000])%list.
Proof.
  intros H Hm. unfold onerror.
  assert (Ht : truthy (Some msg) = Some msg).
  { destruct msg; [discriminate Hm | reflexivity]. }
  rewrite Ht. destruct (includes msg "closed"); cbn [negb];
    cbn [retryCountRef set_isConnectingRef set_status addLog set_logs];
    rewrite Hm, H; cbn [Nat.eqb andb]; repeat split; try reflexivity;
    cbn [retryCountRef set_isConnectingRef set_status addLog set_logs
         set_retryCountRef cleanupAudio setTimeout set_timers
         set_processorRef set_inputSourceRef set_inputAudioContextRef
         set_outputAudioContextRef set_sourcesRef set_audioBufferRef];
    now rewrite H.
Qed.

(** Within a cycle, once the retry counter has left zero, no event brings
    it back and no event schedules a reconnect. *)
Lemma step_same_cycle P ev n :
  same_cycle ev = true ->
  retryCountRef n <> 0%nat ->
  retryCountRef (step P ev n) = retryCountRef n /\
  (reconnects (step P ev n) <= reconnects n)%nat.
Proof.
  intros Hc Hr.
  assert (Hsame : forall n', same_retry_state n n' ->
            retryCountRef n' = retryCountRef n /\ (reconnects n' <= reconnects n)%nat).
  { intros n' [H1 H2]. unfold reconnects. rewrite H1, H2. split; [reflexivity | lia]. }
  destruct ev; try discriminate Hc; cbn [step].
  - apply Hsame. open_handlers; split; reflexivity.
  - apply Hsame. split; reflexivity.
  - apply Hsame. split; reflexivity.
  - apply Hsame.
    apply (stable_onaudioprocess same_retry_state);
      first [apply same_retry_state_refl | apply same_retry_state_trans
            | intros; split; reflexivity].
  - apply Hsame.
    apply (stable_onmessage same_retry_state);
      first [apply same_retry_state_refl | apply same_retry_state_trans
            | intros; split; reflexivity
            | intros; unfold schedule; by_cases; split; reflexivity].
  - apply Hsame. open_handlers; split; reflexivity.
  - unfold reconnects, onclose, stopScreenShare.
    by_cases; (split; [reflexivity|]);
      cbn [timers setTimeout set_timers addLog set_logs set_stopRef
           set_isConnectingRef set_status set_isScreenSharing
           set_screenStream set_videoIntervalRef];
      rewrite filter_app, length_app; cbn; lia.
  - apply Hsame. now apply onerror_no_retry.
  - unfold fire. destruct (nth_error (timers n) i) as [t|]; [|split; [reflexivity | lia]].
    assert (H : same_retry_state (set_timers (remove_nth i (timers n)) n)
                  (match t with
                   | Timer_connect apiKey _ =>
                       connect apiKey (set_timers (remove_nth i (timers n)) n)
                   | Timer_startWakeWord _ =>
                       startWakeWord P (set_timers (remove_nth i (timers n)) n)
                   end)).
    { destruct t; open_handlers; split; reflexivity. }
    destruct H as [H1 H2]. unfold reconnects. rewrite H1, H2. split; [reflexivity|].
    apply reconnects_remove_nth.
Qed.

Lemma run_same_cycle P evs n :
  forallb same_cycle evs = true ->
  retryCountRef n <> 0%nat ->
  retryCountRef (run P evs n) = retryCountRef n /\
  (reconnects (run P evs n) <= reconnects n)%nat.
Proof.
  revert n. induction evs as [|ev evs IH]; intros n Hc Hr; cbn [run fold_left].
  - split; [reflexivity | lia].
  - cbn [forallb] in Hc. apply andb_true_iff in Hc. destruct Hc as [Hev Hc].
    destruct (step_same_cycle P ev n Hev Hr) as [E1 L1].
    destruct (IH (step P ev n) Hc) as [E2 L2]; [congruence|].
    fold (run P evs (step P ev n)). split; [congruence | lia].
Qed.

(** C1.  When the retry counter is zero, a transport error whose message
    has the network-error signature puts the machine in ERROR and
    schedules exactly one reconnect, 2000 ms later.  From then on, as long
    as the cycle lasts (no transport opening, no user disconnect), the
    counter stays at one and no event schedules another reconnect; every
    further transport error leaves the machine in ERROR with the timers
    untouched. *)
Theorem C1_one_automatic_reconnect :
  forall (P : Platform) (apiKey msg : string) (n : Nova),
    retryCountRef n = 0%nat ->
    includes msg "Network error" = true ->
    let n1 := onerror apiKey (Some msg) n in
    status n1 = ERROR /\
    timers n1 = (timers n ++ [Timer_connect apiKey 2000])%list /\
    forall evs : list Event,
      forallb same_cycle evs = true ->
      let n2 := run P evs n1 in
      retryCountRef n2 = 1%nat /\
      (reconnects n2 <= reconnects n1)%nat /\
      forall (apiKey' : string) (err : option string),
        status (onerror apiKey' err n2) = ERROR /\
        timers (onerror apiKey' err n2) = timers n2.
Proof.
  intros P apiKey msg n H0 Hm n1.
  destruct (onerror_first_retry apiKey msg n H0 Hm) as (Hs & Hr & Ht).
  fold n1 in Hs, Hr, Ht. split; [exact Hs|]. split; [exact Ht|].
  intros evs Hc n2.
  destruct (run_same_cycle P evs n1 Hc) as [E L]; [congruence|].
  fold n2 in E, L. split; [congruence|]. split; [exact L|].
  intros apiKey' err.
  destruct (onerror_no_retry apiKey' err n2) as (S2 & _ & T2); [congruence|].
  split; assumption.
Qed.

Lemma C1_one_automatic_reconnect_witness :
  let n1 := onerror "key" (Some "WebSocket: Network error") initial in
  status n1 = ERROR /\
  timers n1 = ([] ++ [Timer_connect "key" 2000])%list /\
  forall evs : list Event,
    forallb same_cycle evs = true ->
    let n2 := run example_platform evs n1 in
    retryCountRef n2 = 1%nat /\
    (reconnects n2 <= reconnects n1)%nat /\
    forall (apiKey' : string) (err : option string),
      status (onerror apiKey' err n2) = ERROR /\
      timers (onerror apiKey' err n2) = timers n2.
Proof.
  apply (C1_one_automatic_reconnect example_platform
           "key" "WebSocket: Network error" initial); reflexivity.
Defined.

(** A connect cycle with two network errors: the first one schedules the
    reconnect, the timer fires and the hook connects again, the second one
    ends in ERROR with no timer left. *)
Example two_network_errors :
  let n := run example_platform
             [EvConnect "key";
              EvError "key" (Some "Network error");
              EvTimer 0;
              EvError "key" (Some "Network error")] initial in
  status n = ERROR /\ timers n = [] /\ retryCountRef n = 1%nat /\
  isConnectingRef n = false /\
  map log_message (logs n) =
    ["Initializing Nova core systems...";
     "Audio pipeline initialized";
     "Connection Error: Network error";
     "Attempting auto-reconnect in 2s...";
     "Reconnecting to Nova core...";
     "Connection Error: Network error"].
Proof. vm_compute. repeat split; reflexivity. Qed.

(** ** The tool dispatcher *)

Lemma run_call_eq P fc n :
  run_call P fc n =
  (let '(n1, out) := tool_body P (fc_name fc) (fc_args fc) (before_try P fc n) in
   (after_try out n1, Ok (response_of fc out))).
Proof.
  unfold run_call, bindM, modify, tryM, retM, before_try.
  destruct (tool_body P (fc_name fc) (fc_args fc) _) as [n1 [v|e]]; reflexivity.
Qed.

(** The loop answers every call, in order, and never throws. *)
Lemma for_functionCalls_batch P fcs :
  forall acc n, exists rs n',
    for_functionCalls P fcs acc n = (n', Ok (acc ++ rs)%list) /\
    batch P n fcs rs n'.
Proof.
  induction fcs as [|fc fcs IH]; intros acc n; cbn [for_functionCalls].
  - exists [], n. rewrite app_nil_r. split; [reflexivity | constructor].
  - unfold bindM at 1. rewrite run_call_eq.
    destruct (tool_body P (fc_name fc) (fc_args fc) (before_try P fc n))
      as [n1 out] eqn:E.
    destruct (IH (acc ++ [response_of fc out])%list (after_try out n1))
      as (rs & n' & Hrun & Hb).
    exists (response_of fc out :: rs), n'. split.
    + rewrite Hrun. now rewrite <- app_assoc.
    + econstructor; eassumption.
Qed.

Lemma batch_length P n fcs rs n' :
  batch P n fcs rs n' -> List.length rs = List.length fcs.
Proof. induction 1; cbn [List.length]; congruence. Qed.


(** Each call was run, and is answered from its own outcome. *)
Lemma batch_nth P n fcs rs n' :
  batch P n fcs rs n' ->
  forall i fc, nth_error fcs i = Some fc ->
  exists ni n1 out,
    tool_body P (fc_name fc) (fc_args fc) (before_try P fc ni) = (n1, out) /\
    nth_error rs i = Some (response_of fc out).
Proof.
  induction 1 as [|n fc0 fcs n1 out rs n' Hbody _ IH]; intros i fc Hi.
  - destruct i; discriminate.
  - destruct i as [|i]; cbn [nth_error] in *.
    + inversion Hi; subst. now exists n, n1, out.
    + now apply IH.
Qed.

(** The tools leave the responses already sent alone. *)
Lemma batch_toolResponses P n fcs acc :
  toolResponses (fst (for_functionCalls P fcs acc n)) = toolResponses n.
Proof.
  apply (stable_for_functionCalls (fun a b => toolResponses b = toolResponses a));
    intros; first [reflexivity | congruence].
Qed.

Lemma dispatch_eq P fcs n :
  exists rs n',
    onmessage_toolCall P (Some (mkToolCall (Some fcs))) n
      = (sendToolResponse rs n', Ok tt) /\
    batch P n fcs rs n' /\
    toolResponses n' = toolResponses n.
Proof.
  destruct (for_functionCalls_batch P fcs [] n) as (rs & n' & Hrun & Hb).
  exists rs, n'. pose proof (batch_toolResponses P n fcs []) as Ht.
  rewrite Hrun in Ht. cbn [fst] in Ht. cbn [app] in Hrun.
  split; [|split; assumption].
  cbn [onmessage_toolCall functionCalls]. unfold bindM, modify. now rewrite Hrun.
Qed.




Lemma tool_body_unknown P name args n :
  known_tool name = false ->
  tool_body P name args n = (n, Ok default_result).
Proof.
  unfold known_tool, tool_body. intros H.
  repeat (apply orb_false_iff in H; destruct H as [H ?]).
  repeat match goal with E : is_name _ _ = false |- _ => rewrite E; clear E end.
  reflexivity.
Qed.

(** C10.  A call whose name is none of [openUrl], [googleSearch],
    [changeTheme] and [getSystemStatus] is answered all the same, in its
    place in the batch, under its id and name, by the default payload
    [{ success: true }]. *)
Theorem C10_unknown_tool_default_success :
  forall (P : Platform) (fcs : list FunctionCall) (n : Nova)
         (i : nat) (fc : FunctionCall),
    nth_error fcs i = Some fc ->
    known_tool (fc_name fc) = false ->
    exists (rs : list FunctionResponse) (n' : Nova),
      onmessage_toolCall P (Some (mkToolCall (Some fcs))) n = (n', Ok tt) /\
      toolResponses n' = (toolResponses n ++ [rs])%list /\
      List.length rs = List.length fcs /\
      nth_error rs i =
        Some (mkResponse (fc_id fc) (fc_name fc)
                (JObject [("result", JObject [("success", JBool true)])])).
Proof.
  intros P fcs n i fc Hi Hk.
  destruct (dispatch_eq P fcs n) as (rs & n' & Hrun & Hb & Ht).
  exists rs, (sendToolResponse rs n'). split; [exact Hrun|].
  split; [cbn [toolResponses sendToolResponse set_toolResponses]; now rewrite Ht|].
  split; [eapply batch_length; eassumption|].
  destruct (batch_nth P n fcs rs n' Hb i fc Hi) as (ni & n1 & out & Hbody & Hr).
  rewrite (tool_body_unknown P _ _ _ Hk) in Hbody. inversion Hbody; subst.
  exact Hr.
Qed.

Lemma C10_unknown_tool_witness :
  exists (rs : list FunctionResponse) (n' : Nova),
    onmessage_toolCall example_platform
      (Some (mkToolCall (Some [mkCall (JString "setAlarm") JUndefined (JString "call-1")])))
      initial = (n', Ok tt) /\
    toolResponses n' = ([] ++ [rs])%list /\
    List.length rs = 1%nat /\
    nth_error rs 0 =
      Some (mkResponse (JString "call-1") (JString "setAlarm")
              (JObject [("result", JObject [("success", JBool true)])])).
Proof.
  apply (C10_unknown_tool_default_success example_platform
           [mkCall (JString "setAlarm") JUndefined (JString "call-1")]
           initial 0 (mkCall (JString "setAlarm") JUndefined (JString "call-1")));
    reflexivity.
Defined.

(** A batch of three calls whose second one throws (its arguments are
    missing): three results, the second one an error payload. *)
Example batch_with_a_throwing_call :
  let calls :=
    [mkCall (JString "changeTheme") (JObject [("mode", JString "light")]) (JString "a");
     mkCall (JString "openUrl") JUndefined (JString "b");
     mkCall (JString "getSystemStatus") (JObject []) (JString "c")] in
  let '(n', out) :=
    onmessage_toolCall example_platform (Some (mkToolCall (Some calls))) initial in
  out = Ok tt /\
  map (fun r => (fr_id r, fr_response r)) (List.concat (toolResponses n')) =
    [(JString "a",
      JObject [("result", JObject [("themeChangedTo", JString "light")])]);
     (JString "b",
      JObject [("result",
                JObject [("error",
                          JString "Cannot read properties of undefined (reading 'url')")])]);
     (JString "c",
      JObject [("result",
                JObject [("time", JString "2025-01-01T00:00:00.000Z");
                         ("userAgent", JString "Mozilla/5.0");
                         ("onLine", JBool true)])])] /\
  List.length (toolResponses n') = 1%nat.
Proof. vm_compute. repeat split; reflexivity. Qed.

(** ** The URL of [openUrl] *)

(** *** Bare names in the URL model *)

Module WhatwgFacts.
Import Whatwg.

Lemma all_chars_impl (f g : ascii -> bool) s :
  (forall c, f c = true -> g c = true) ->
  all_chars f s = true -> all_chars g s = true.
Proof.
  intros Hfg. induction s as [|c s IH]; [reflexivity|]. cbn [all_chars].
  intros H. apply andb_true_iff in H. destruct H as [Hc Hs].
  now rewrite (Hfg c Hc), IH.
Qed.

(** A prefix of a text is made of characters of the text. *)
Lemma prefix_all_chars f p s :
  String.prefix p s = true -> all_chars f s = true -> all_chars f p = true.
Proof.
  revert s. induction p as [|a p IH]; intros s Hp Hs; [reflexivity|].
  destruct s as [|b s]; [discriminate Hp|]. cbn [String.prefix] in Hp.
  destruct (ascii_dec a b) as [->|]; [|discriminate Hp].
  cbn [all_chars] in *. apply andb_true_iff in Hs. destruct Hs as [Hb Hs].
  rewrite Hb. cbn [andb]. now apply (IH s).
Qed.

Lemma not_prefix_of_letters p s :
  all_chars is_lower_alpha p = false ->
  all_chars is_lower_alpha s = true ->
  String.prefix p s = false.
Proof.
  intros Hp Hs. destruct (String.prefix p s) eqn:E; [|reflexivity].
  rewrite (prefix_all_chars _ _ _ E Hs) in Hp. discriminate.
Qed.

Lemma substring_all s m :
  (String.length s <= m)%nat -> substring 0 m s = s.
Proof.
  revert m. induction s as [|c s IH]; intros [|m] H; cbn in *;
    try reflexivity; try lia.
  f_equal. apply IH. lia.
Qed.

Lemma split_at_absent f c s :
  f c = false -> all_chars f s = true -> split_at c s = (s, None).
Proof.
  intros Hc. induction s as [|d s IH]; [reflexivity|]. cbn [all_chars split_at].
  intros H. apply andb_true_iff in H. destruct H as [Hd Hs].
  destruct (Ascii.eqb_spec d c) as [->|_]; [congruence|].
  now rewrite (IH Hs).
Qed.

Lemma split_at_first f c s r :
  f c = false -> all_chars f s = true ->
  split_at c (s ++ String c r) = (s, Some r).
Proof.
  intros Hc. induction s as [|d s IH]; cbn [all_chars split_at append].
  - intros _. now rewrite Ascii.eqb_refl.
  - intros H. apply andb_true_iff in H. destruct H as [Hd Hs].
    destruct (Ascii.eqb_spec d c) as [->|_]; [congruence|].
    now rewrite (IH Hs).
Qed.

Lemma includes_dot_letters s :
  all_chars is_lower_alpha s = true -> includes s "." = false.
Proof.
  induction s as [|c s IH]; [reflexivity|]. cbn [all_chars includes String.prefix].
  intros H. apply andb_true_iff in H. destruct H as [Hc Hs].
  destruct (ascii_dec "." c) as [<-|_]; [discriminate Hc|]. now apply IH.
Qed.

Lemma lower_alpha_host_char c : is_lower_alpha c = true -> is_host_char c = true.
Proof. unfold is_host_char. now intros ->. Qed.

Lemma plain_label_letters s :
  s <> EmptyString -> all_chars is_lower_alpha s = true -> plain_label s = true.
Proof.
  intros Hne Hs. unfold plain_label.
  rewrite (all_chars_impl _ _ s lower_alpha_host_char Hs).
  rewrite (not_prefix_of_letters "xn--" s eq_refl Hs).
  destruct (String.eqb_spec s EmptyString); [contradiction | reflexivity].
Qed.

Lemma starts_with_letter_letters s :
  s <> EmptyString -> all_chars is_lower_alpha s = true -> starts_with_letter s = true.
Proof.
  destruct s as [|c s]; [congruence|]. cbn. intros _ H.
  now apply andb_true_iff in H.
Qed.

Lemma plain_host_letters s :
  s <> EmptyString -> all_chars is_lower_alpha s = true -> plain_host s = true.
Proof.
  intros Hne Hs. unfold plain_host.
  assert (E : labels (String.length s) s = [s]).
  { destruct s as [|c s]; [congruence|]. cbn [String.length labels].
    now rewrite (split_at_absent is_lower_alpha "." _ eq_refl Hs). }
  rewrite E. cbn [forallb last].
  now rewrite plain_label_letters, starts_with_letter_letters.
Qed.

Lemma append_length s t :
  String.length (s ++ t) = (String.length s + String.length t)%nat.
Proof. induction s as [|c s IH]; cbn; [reflexivity | now rewrite IH]. Qed.

Lemma plain_host_dot_com s :
  s <> EmptyString -> all_chars is_lower_alpha s = true -> plain_host (s ++ ".com") = true.
Proof.
  intros Hne Hs. unfold plain_host.
  assert (E : labels (String.length (s ++ ".com")) (s ++ ".com") = [s; "com"]).
  { rewrite append_length. destruct s as [|c s]; [congruence|].
    cbn [String.length Nat.add labels].
    rewrite (split_at_first is_lower_alpha "." (String c s) "com" eq_refl Hs).
    replace (String.length s + 4)%nat with (S (String.length s + 3)) by lia.
    reflexivity. }
  rewrite E. cbn [forallb last]. rewrite plain_label_letters by assumption.
  reflexivity.
Qed.

Lemma append_assoc (s t u : string) : (s ++ t) ++ u = s ++ (t ++ u).
Proof. induction s as [|c s IH]; cbn; [reflexivity | now rewrite IH]. Qed.

Lemma prefix_append p s : String.prefix p (p ++ s) = true.
Proof.
  induction p as [|a p IH]; cbn [append String.prefix]; [now destruct s|].
  destruct (ascii_dec a a); [exact IH | congruence].
Qed.

(** The URL model parses [https://name] for a bare name of letters. *)
Lemma parse_bare_name s :
  s <> EmptyString -> all_chars is_lower_alpha s = true ->
  parse ("https://" ++ s) = Some (Ok (mkURL "https" s None EmptyString)).
Proof.
  intros Hne Hs. unfold parse. cbv zeta beta.
  rewrite (prefix_append "https://" s).
  assert (E : substring 8 (String.length ("https://" ++ s)) ("https://" ++ s) = s).
  { cbn [append String.length substring]. apply substring_all. lia. }
  rewrite E.
  rewrite (split_at_absent is_lower_alpha "/" s eq_refl Hs).
  rewrite (split_at_absent is_lower_alpha ":" s eq_refl Hs).
  rewrite (plain_host_letters s Hne Hs).
  destruct (String.eqb_spec s EmptyString); [contradiction|].
  destruct s; [congruence | reflexivity].
Qed.

(** A text that, lower-cased and without its white space, is a non-empty
    run of letters is opened as [https://name.com/]. *)
Lemma clean_url_bare_name raw :
  let name := strip_spaces (toLowerCase raw) in
  name <> EmptyString -> all_chars is_lower_alpha name = true ->
  clean_url api (toLowerCase raw) = "https://" ++ name ++ ".com/".
Proof.
  intros name Hne Hs. unfold clean_url. fold name.
  unfold startsWith.
  rewrite (not_prefix_of_letters "http://" name eq_refl Hs).
  rewrite (not_prefix_of_letters "https://" name eq_refl Hs).
  cbn [negb andb]. cbn [URL_new URL_hostname URL_set_hostname URL_toString api].
  rewrite (parse_bare_name name Hne Hs). cbn [host].
  rewrite (includes_dot_letters name Hs). cbn [negb].
  unfold set_hostname. rewrite (plain_host_dot_com name Hne Hs).
  unfold serialize. cbn [scheme host port path String.eqb].
  cbn [append]. now rewrite append_assoc.
Qed.

End WhatwgFacts.

(** [openUrl] hands to [window.open] the cleaned, lower-cased URL. *)
Lemma openUrl_opens P args raw n :
  get_prop args "url" = Ok (JString raw) ->
  opened (fst (openUrl P args n))
    = (opened n ++ [clean_url (urlApi P) (toLowerCase raw)])%list.
Proof.
  intros H. unfold openUrl, bindM, liftE. rewrite H. cbn [call_toLowerCase].
  unfold call_window_open.
  destruct (window_open P (opened n) _) as [[|]|e]; reflexivity.
Qed.

(** C6, as amended.  [openUrl] lower-cases its argument, removes the
    white space and puts [https://] in front when the text starts with
    neither [http://] nor [https://]; when the result parses as a URL whose
    host name has no dot, [.com] is appended to the host name and the URL
    is serialised again (when it does not parse, [.com] is appended to the
    text if it has no dot); that is what the tool tries to open.  So
    [openUrl("REDDIT")] tries to open [https://reddit.com/], with the
    slash of the serialisation, as it does for every text that comes down
    to a run of letters, and [openUrl("face book . com")] tries to open
    exactly [https://facebook.com]. *)
Theorem C6_openUrl_normalisation :
  (forall (U : UrlApi) (raw : string),
     let url := strip_spaces (toLowerCase raw) in
     let url := if negb (startsWith url "http://") && negb (startsWith url "https://")
                then "https://" ++ url else url in
     clean_url U (toLowerCase raw) =
       match URL_new U url with
       | Ok urlObj =>
           if includes (URL_hostname U urlObj) "." then url
           else URL_toString U
                  (URL_set_hostname U urlObj (URL_hostname U urlObj ++ ".com"))
       | Throw _ => if includes url "." then url else url ++ ".com"
       end) /\
  (forall (P : Platform) (raw : string) (n : Nova),
     opened (fst (openUrl P (JObject [("url", JString raw)]) n))
       = (opened n ++ [clean_url (urlApi P) (toLowerCase raw)])%list) /\
  (forall raw : string,
     let name := strip_spaces (toLowerCase raw) in
     name <> EmptyString ->
     Whatwg.all_chars Whatwg.is_lower_alpha name = true ->
     Whatwg.parse ("https://" ++ name)
       = Some (Ok (Whatwg.mkURL "https" name None EmptyString)) /\
     clean_url Whatwg.api (toLowerCase raw) = "https://" ++ name ++ ".com/") /\
  Whatwg.parse "https://reddit" = Some (Ok (Whatwg.mkURL "https" "reddit" None EmptyString)) /\
  clean_url Whatwg.api (toLowerCase "REDDIT") = "https://reddit.com/" /\
  Whatwg.parse "https://facebook.com"
    = Some (Ok (Whatwg.mkURL "https" "facebook.com" None EmptyString)) /\
  clean_url Whatwg.api (toLowerCase "face book . com") = "https://facebook.com".
Proof.
  split; [|split; [|split; [|repeat split; reflexivity]]].
  - intros U raw. cbv zeta. unfold clean_url.
    destruct (URL_new U _) as [urlObj|e].
    + now destruct (includes (URL_hostname U urlObj) ".").
    + now destruct (includes _ ".").
  - intros P raw n. now apply openUrl_opens.
  - intros raw name Hne Hs. split.
    + now apply WhatwgFacts.parse_bare_name.
    + now apply WhatwgFacts.clean_url_bare_name.
Qed.

Lemma C6_openUrl_normalisation_witness :
  Whatwg.parse ("https://" ++ "youtube")
    = Some (Ok (Whatwg.mkURL "https" "youtube" None EmptyString)) /\
  clean_url Whatwg.api (toLowerCase " You Tube ") = "https://" ++ "youtube" ++ ".com/".
Proof.
  apply (proj1 (proj2 (proj2 C6_openUrl_normalisation)) " You Tube ");
    [discriminate | reflexivity].
Defined.

(** What [openUrl("REDDIT")] gives to [window.open] is not
    [https://reddit.com]. *)
Lemma C6_counterexample :
  opened (fst (openUrl example_platform
                 (JObject [("url", JString "REDDIT")]) initial))
    = ["https://reddit.com/"] /\
  "https://reddit.com/" <> "https://reddit.com".
Proof.
  split; [reflexivity | discriminate].
Qed.
(* ===================================================================== *)
(** * Part III: further properties of the code                            *)
(* ===================================================================== *)

(** ** The PCM codec, sample by sample *)

Lemma clamp_bounds x : (-1 <= Qmax (-1) (Qmin 1 x) <= 1)%Q.
Proof.
  split; [apply Q.le_max_l|].
  apply Q.max_lub; [discriminate | apply Q.le_min_l].
Qed.

Lemma clamp_monotone x y :
  (x <= y)%Q -> (Qmax (-1) (Qmin 1 x) <= Qmax (-1) (Qmin 1 y))%Q.
Proof.
  intros H. apply Q.max_le_compat_l. now apply Q.min_le_compat_l.
Qed.

(** The integer a clamped sample becomes. *)
Lemma quantize_clamped x :
  let s := Qmax (-1) (Qmin 1 x) in
  ((s < 0)%Q ->
   quantize x = Qtrunc (s * 32768) /\
   (s * 32768 <= inject_Z (quantize x) < s * 32768 + 1)%Q /\
   -32768 <= quantize x <= 0) /\
  ((0 <= s)%Q ->
   quantize x = Qtrunc (s * 32767) /\
   (inject_Z (quantize x) <= s * 32767 < inject_Z (quantize x) + 1)%Q /\
   0 <= quantize x <= 32767).
Proof.
  intros s. pose proof (clamp_bounds x) as [L U]. fold s in L, U.
  unfold quantize, scale_sample. fold s. clearbody s. split; intros E.
  - apply Qlt_bool_iff in E as B. rewrite B.
    assert (N : (s * 32768 <= 0)%Q) by lra.
    pose proof (Qtrunc_nonpos _ N) as [T1 T2].
    assert (B1 : -32768 <= Qtrunc (s * 32768)).
    { apply inject_Z_le_inv. unfold inject_Z at 1. lra. }
    assert (B2 : Qtrunc (s * 32768) < 1).
    { apply inject_Z_lt_inv. unfold inject_Z at 2. lra. }
    assert (ET : ToInt16 (s * 32768) = Qtrunc (s * 32768)).
    { unfold ToInt16. lia. }
    rewrite ET. repeat split; try lia; lra.
  - apply Qlt_bool_false_iff in E as B. rewrite B.
    assert (N : (0 <= s * 32767)%Q) by lra.
    pose proof (Qtrunc_nonneg _ N) as [T1 T2].
    assert (B1 : Qtrunc (s * 32767) <= 32767).
    { apply inject_Z_le_inv. unfold inject_Z at 2. lra. }
    assert (B2 : -1 < Qtrunc (s * 32767)).
    { apply inject_Z_lt_inv. unfold inject_Z at 1. lra. }
    assert (ET : ToInt16 (s * 32767) = Qtrunc (s * 32767)).
    { unfold ToInt16. lia. }
    rewrite ET. repeat split; try lia; lra.
Qed.

Lemma quantize_monotone x y : (x <= y)%Q -> quantize x <= quantize y.
Proof.
  intros H. pose proof (clamp_monotone x y H) as Hs.
  destruct (quantize_clamped x) as [Nx Px].
  destruct (quantize_clamped y) as [Ny Py].
  set (s := Qmax (-1) (Qmin 1 x)) in *. set (t := Qmax (-1) (Qmin 1 y)) in *.
  clearbody s t.
  destruct (Qlt_le_dec s 0) as [Sn|Sp]; destruct (Qlt_le_dec t 0) as [Tn|Tp].
  - destruct (Nx Sn) as (_ & [A1 A2] & _). destruct (Ny Tn) as (_ & [B1 B2] & _).
    assert (L : (inject_Z (quantize x) < inject_Z (quantize y + 1))%Q).
    { rewrite inject_Z_plus. change (inject_Z 1) with 1%Q. lra. }
    apply inject_Z_lt_inv in L. lia.
  - destruct (Nx Sn) as (_ & _ & A). destruct (Py Tp) as (_ & _ & B). lia.
  - lra.
  - destruct (Px Sp) as (_ & [A1 A2] & _). destruct (Py Tp) as (_ & [B1 B2] & _).
    assert (L : (inject_Z (quantize x) < inject_Z (quantize y + 1))%Q).
    { rewrite inject_Z_plus. change (inject_Z 1) with 1%Q. lra. }
    apply inject_Z_lt_inv in L. lia.
Qed.

Lemma quantize_saturates_high x : (1 <= x)%Q -> quantize x = 32767.
Proof.
  intros H. destruct (quantize_clamped x) as [_ Px].
  assert (E : (Qmax (-1) (Qmin 1 x) == 1)%Q).
  { rewrite (Q.min_l 1 x) by exact H. apply Q.max_r. discriminate. }
  set (s := Qmax (-1) (Qmin 1 x)) in *. clearbody s.
  destruct Px as (_ & [A1 A2] & B); [lra|].
  assert (L : (inject_Z 32766 < inject_Z (quantize x))%Q).
  { unfold inject_Z at 1. lra. }
  apply inject_Z_lt_inv in L. lia.
Qed.

Lemma quantize_saturates_low x : (x <= -1)%Q -> quantize x = -32768.
Proof.
  intros H. destruct (quantize_clamped x) as [Nx _].
  assert (E : (Qmax (-1) (Qmin 1 x) == -1)%Q).
  { apply Q.max_l. eapply Qle_trans; [apply Q.le_min_r | exact H]. }
  set (s := Qmax (-1) (Qmin 1 x)) in *. clearbody s.
  destruct Nx as (_ & [A1 A2] & B); [lra|].
  assert (L : (inject_Z (quantize x) < inject_Z (-32767))%Q).
  { unfold inject_Z at 2. lra. }
  apply inject_Z_lt_inv in L. lia.
Qed.

(** X1.  [createBlob] labels its payload [audio/pcm;rate=16000], and the
    payload is the base64 text of two bytes per sample: it decodes to the
    16-bit integers of the samples, each one in two's complement with its
    low byte first. *)
Theorem X1_createBlob_wire_format :
  forall x : list Q,
    mimeType (createBlob x) = "audio/pcm;rate=16000" /\
    exists bytes : list byte,
      decode (data (createBlob x)) = Ok bytes /\
      List.length bytes = (2 * List.length x)%nat /\
      map Z_of_byte bytes =
        flat_map (fun v => [v mod 256; (v / 256) mod 256]) (map quantize x) /\
      Int16Array_of_bytes bytes = map quantize x /\
      Forall is_int16 (map quantize x).
Proof.
  intros x. split; [reflexivity|].
  assert (Hi : Forall is_int16 (map quantize x)).
  { apply Forall_forall. intros v Hv. apply in_map_iff in Hv.
    destruct Hv as (s & <- & _). apply ToInt16_is_int16. }
  exists (Uint8Array_of_Int16Array (map quantize x)).
  split; [apply decode_encode|].
  split; [now rewrite Uint8Array_length, length_map|].
  split; [|split; [now apply Int16Array_round_trip | exact Hi]].
  clear Hi. induction x as [|s x IH]; [reflexivity|].
  cbn [map Uint8Array_of_Int16Array flat_map int16_bytes app].
  rewrite !Z_of_byte_of_Z. do 2 f_equal. exact IH.
Qed.

(** X2.  The integer [createBlob] stores for a sample saturates outside
    [-1, 1] (at 32767 above, at -32768 below), is 0 for the sample 0, and
    never reverses the order of two samples. *)
Theorem X2_quantize_saturates_and_keeps_order :
  (forall x : Q, (1 <= x)%Q -> quantize x = 32767) /\
  (forall x : Q, (x <= -1)%Q -> quantize x = -32768) /\
  quantize 0 = 0 /\
  (forall x y : Q, (x <= y)%Q -> quantize x <= quantize y).
Proof.
  split; [exact quantize_saturates_high|].
  split; [exact quantize_saturates_low|].
  split; [reflexivity | exact quantize_monotone].
Qed.

Lemma X2_quantize_witness :
  quantize (3 # 2) = 32767 /\ quantize (-2) = -32768 /\
  quantize (1 # 4) <= quantize (1 # 2).
Proof.
  destruct X2_quantize_saturates_and_keeps_order as (H1 & H2 & _ & H3).
  split; [apply H1; discriminate|].
  split; [apply H2; discriminate|].
  apply H3. discriminate.
Defined.

(** ** Decoding PCM bytes *)

Section ListInd2.
Variable A : Type.
Variable P : list A -> Prop.
Hypothesis P0 : P [].
Hypothesis P1 : forall a, P [a].
Hypothesis P2 : forall a b l, P l -> P (a :: b :: l).

Lemma list_ind2 : forall l, P l.
Proof.
  assert (H : forall l, P l /\ (forall a, P (a :: l))).
  { induction l as [|x l [IH0 IH1]]; split; auto. }
  intros l. apply H.
Qed.
End ListInd2.

Lemma Int16Array_of_bytes_length l :
  List.length (Int16Array_of_bytes l) = (List.length l / 2)%nat.
Proof.
  induction l as [| a | a b l IH] using list_ind2; [reflexivity | reflexivity |].
  cbn [Int16Array_of_bytes List.length]. rewrite IH.
  change (S (S (List.length l))) with (1 * 2 + List.length l)%nat.
  rewrite Nat.div_add_l by discriminate. reflexivity.
Qed.

Lemma Int16Array_of_bytes_app l r :
  Nat.even (List.length l) = true ->
  Int16Array_of_bytes (l ++ r) = (Int16Array_of_bytes l ++ Int16Array_of_bytes r)%list.
Proof.
  induction l as [| a | a b l IH] using list_ind2; intros H.
  - reflexivity.
  - discriminate H.
  - cbn [app Int16Array_of_bytes]. f_equal. apply IH. exact H.
Qed.

Lemma int16_of_bytes_is_int16 lo hi : is_int16 (int16_of_bytes lo hi).
Proof. unfold is_int16, int16_of_bytes. lia. Qed.

Lemma Int16Array_of_bytes_is_int16 l : Forall is_int16 (Int16Array_of_bytes l).
Proof.
  induction l as [| a | a b l IH] using list_ind2; try constructor.
  - apply int16_of_bytes_is_int16.
  - exact IH.
Qed.

Lemma pcmData_of_length data :
  List.length (pcmData_of data) = ((List.length data + 1) / 2)%nat.
Proof.
  unfold pcmData_of. destruct (Nat.even (List.length data)) eqn:E.
  - rewrite Int16Array_of_bytes_length. apply Nat.even_spec in E.
    destruct E as [k ->]. rewrite (Nat.mul_comm 2 k).
    rewrite Nat.div_mul by discriminate.
    rewrite Nat.div_add_l by discriminate. cbn. lia.
  - rewrite Int16Array_of_bytes_length, length_app. cbn [List.length]. reflexivity.
Qed.

Lemma pcmData_of_is_int16 data : Forall is_int16 (pcmData_of data).
Proof. unfold pcmData_of. destruct (Nat.even _); apply Int16Array_of_bytes_is_int16. Qed.

Lemma dequantize_range v :
  is_int16 v -> (-1 <= dequantize v <= 32767 # 32768)%Q.
Proof.
  unfold is_int16, dequantize. intros [L U].
  rewrite (Qdiv_32768 (inject_Z v)).
  assert (L' : (inject_Z (-32768) <= inject_Z v)%Q) by (rewrite <- Zle_Qle; exact L).
  assert (U' : (inject_Z v <= inject_Z 32767)%Q) by (rewrite <- Zle_Qle; exact U).
  unfold inject_Z at 1 in L'. unfold inject_Z at 2 in U'.
  set (t := inject_Z v) in *. clearbody t. split; lra.
Qed.

(** One channel: the samples are the 16-bit integers over 32768. *)
Lemma decodeAudioData_mono data rate :
  (0 < rate)%Q -> data <> [] ->
  decodeAudioData data rate 1 =
  Ok (mkAudioBuffer 1 ((List.length data + 1) / 2) rate
        [map dequantize (pcmData_of data)]).
Proof.
  intros Hr Hd. unfold decodeAudioData. rewrite Nat.div_1_r.
  rewrite pcmData_of_length. unfold createBuffer.
  assert (Hn : (((List.length data + 1) / 2) =? 0)%nat = false).
  { apply Nat.eqb_neq. destruct data as [|a data]; [congruence|].
    cbn [List.length]. intros E.
    apply Nat.div_small_iff in E; [lia | discriminate]. }
  rewrite Hn. cbn [Nat.eqb orb].
  assert (Hq : Qle_bool rate 0 = false).
  { destruct (Qle_bool rate 0) eqn:E; [|reflexivity].
    apply Qle_bool_iff in E. lra. }
  rewrite Hq. cbn [bindE numberOfChannels frames sampleRate seq map].
  rewrite <- pcmData_of_length. now rewrite channel_samples_mono.
Qed.

(** X3.  [decodeAudioData] on one channel, at a rate every audio context
    supports: no byte at all makes [createBuffer] throw; [k > 0] bytes give
    a buffer of [ceil(k / 2)] frames, of a positive duration, whose
    samples all lie between -1 and 32767/32768. *)
Theorem X3_decodeAudioData_one_channel :
  forall (bytes : list byte) (rate : Q),
    (8000 <= rate)%Q -> (rate <= 96000)%Q ->
    (bytes = [] -> decodeAudioData bytes rate 1 = Throw NotSupportedError) /\
    (bytes <> [] ->
     let frameCount := ((List.length bytes + 1) / 2)%nat in
     exists samples : list Q,
       decodeAudioData bytes rate 1
         = Ok (mkAudioBuffer 1 frameCount rate [samples]) /\
       List.length samples = frameCount /\
       Forall (fun s => (-1 <= s <= 32767 # 32768)%Q) samples /\
       (0 < duration (mkAudioBuffer 1 frameCount rate [samples]))%Q).
Proof.
  intros bytes rate Hlo Hhi. split.
  - intros ->. reflexivity.
  - intros Hne frameCount. exists (map dequantize (pcmData_of bytes)).
    split; [apply decodeAudioData_mono; [lra | exact Hne]|].
    split; [now rewrite length_map, pcmData_of_length|]. split.
    + apply Forall_forall. intros s Hs. apply in_map_iff in Hs.
      destruct Hs as (v & <- & Hv). apply dequantize_range.
      pose proof (pcmData_of_is_int16 bytes) as Hi.
      rewrite Forall_forall in Hi. now apply Hi.
    + unfold duration. cbn [frames sampleRate].
      apply Qlt_shift_div_l; [lra|]. rewrite Qmult_0_l.
      unfold Q_of_nat. change 0%Q with (inject_Z 0). rewrite <- Zlt_Qlt.
      assert (0 < frameCount)%nat; [|lia].
      unfold frameCount. destruct bytes as [|a bytes]; [congruence|].
      cbn [List.length]. apply Nat.div_str_pos. lia.
Qed.

Lemma X3_decodeAudioData_witness :
  decodeAudioData [] 24000 1 = Throw NotSupportedError /\
  exists samples : list Q,
    decodeAudioData [x00; x40; xff] 24000 1
      = Ok (mkAudioBuffer 1 2 24000 [samples]) /\
    List.length samples = 2%nat /\
    Forall (fun s => (-1 <= s <= 32767 # 32768)%Q) samples /\
    (0 < duration (mkAudioBuffer 1 2 24000 [samples]))%Q.
Proof.
  split.
  - apply (X3_decodeAudioData_one_channel [] 24000); [discriminate .. | reflexivity].
  - apply (X3_decodeAudioData_one_channel [x00; x40; xff] 24000);
      discriminate.
Defined.

(** X4.  A byte sequence of odd length is read as if one zero byte
    followed it: the lone last byte is the low byte of a last sample, so
    that sample is the byte's value over 32768. *)
Theorem X4_decodeAudioData_odd_length :
  forall (bytes : list byte) (b : byte) (rate : Q) (numChannels : nat),
    Nat.even (List.length bytes) = true ->
    decodeAudioData (bytes ++ [b]) rate numChannels
      = decodeAudioData (bytes ++ [b; x00]) rate numChannels /\
    pcmData_of (bytes ++ [b])
      = (Int16Array_of_bytes bytes ++ [Z_of_byte b])%list.
Proof.
  intros bytes b rate numChannels He.
  assert (Hodd : Nat.even (List.length (bytes ++ [b])) = false).
  { rewrite length_app. cbn [List.length]. rewrite Nat.add_1_r, Nat.even_succ.
    rewrite <- Nat.negb_even. now rewrite He. }
  assert (Heven : Nat.even (List.length (bytes ++ [b; x00])) = true).
  { rewrite length_app. cbn [List.length].
    replace (List.length bytes + 2)%nat with (S (S (List.length bytes))) by lia.
    exact He. }
  assert (E1 : pcmData_of (bytes ++ [b]) = pcmData_of (bytes ++ [b; x00])).
  { unfold pcmData_of. rewrite Hodd, Heven. now rewrite <- app_assoc. }
  split.
  - unfold decodeAudioData. now rewrite E1.
  - rewrite E1. unfold pcmData_of. rewrite Heven.
    rewrite Int16Array_of_bytes_app by exact He.
    cbn [Int16Array_of_bytes]. do 2 f_equal.
    unfold int16_of_bytes. change (Z_of_byte x00) with 0.
    assert (0 <= Z_of_byte b < 256).
    { unfold Z_of_byte. pose proof (Byte.to_N_bounded b). lia. }
    lia.
Qed.

Lemma X4_decodeAudioData_odd_witness :
  decodeAudioData ([x01; x02] ++ [x7f]) 24000 1
    = decodeAudioData ([x01; x02] ++ [x7f; x00]) 24000 1 /\
  pcmData_of ([x01; x02] ++ [x7f])
    = (Int16Array_of_bytes [x01; x02] ++ [Z_of_byte x7f])%list.
Proof.
  apply (X4_decodeAudioData_odd_length [x01; x02] x7f 24000 1). reflexivity.
Defined.

(** ** The resampler on whole buffers *)

Lemma ceil_div_nat (L K : nat) :
  (0 < K)%nat ->
  - ((- Z.of_nat L) / Z.of_nat K) = Z.of_nat ((L + K - 1) / K).
Proof.
  intros HK. rewrite Nat2Z.inj_div.
  replace (Z.of_nat (L + K - 1)) with (Z.of_nat L + Z.of_nat K - 1) by lia.
  set (l := Z.of_nat L). set (k := Z.of_nat K).
  assert (Hk : 0 < k) by (unfold k; lia).
  pose proof (Z.div_mod (- l) k ltac:(lia)) as E.
  pose proof (Z.mod_pos_bound (- l) k Hk) as B.
  apply (Z.div_unique (l + k - 1) k _ (k - 1 - (- l) mod k)); [lia|].
  rewrite Z.mul_opp_r. lia.
Qed.

(** A context rate that is [k] times 16000 Hz. *)
Lemma ratio_multiple (k : nat) :
  (inject_Z (16000 * Z.of_nat k) / 16000 == inject_Z (Z.of_nat k))%Q.
Proof.
  unfold Qdiv, Qeq, Qmult, Qinv, inject_Z. cbn [Qnum Qden]. lia.
Qed.

Lemma downsample_at_multiple buffer (k i : nat) :
  downsample_at buffer (inject_Z (16000 * Z.of_nat k) / 16000) i
    = nth (i * k) buffer 0%Q.
Proof.
  unfold downsample_at.
  assert (E : Qfloor (Q_of_nat i * (inject_Z (16000 * Z.of_nat k) / 16000))
              = Z.of_nat (i * k)).
  { rewrite (Qfloor_comp _ (inject_Z (Z.of_nat (i * k)))); [apply Qfloor_Z|].
    rewrite ratio_multiple. unfold Q_of_nat. rewrite <- inject_Z_mult.
    now rewrite Nat2Z.inj_mul. }
  rewrite E, Nat2Z.id.
  destruct (Z.ltb_spec (Z.of_nat (i * k)) (Z.of_nat (List.length buffer))) as [H|H].
  - reflexivity.
  - symmetry. apply nth_overflow. lia.
Qed.

Lemma newLength_multiple (len k : nat) :
  (0 < k)%nat ->
  Qceiling (Q_of_nat len / (inject_Z (16000 * Z.of_nat k) / 16000))
    = Z.of_nat ((len + k - 1) / k).
Proof.
  intros Hk. rewrite <- (ceil_div_nat len k Hk).
  rewrite (Qceiling_comp _ (Z.of_nat len # Pos.of_nat k)).
  - unfold Qceiling, Qfloor, Qopp. cbn [Qnum Qden].
    replace (Z.pos (Pos.of_nat k)) with (Z.of_nat k); [reflexivity|].
    destruct k; [lia|]. now rewrite <- Pos.of_nat_succ, Zpos_P_of_succ_nat, Nat2Z.inj_succ.
  - rewrite ratio_multiple. unfold Q_of_nat, Qdiv, Qeq, Qmult, Qinv, inject_Z.
    destruct k as [|k]; [lia|]. cbn [Qnum Qden Z.of_nat].
    rewrite <- Pos.of_nat_succ. lia.
Qed.

(** X5.  At a context rate of [k] times 16000 Hz the resampler keeps
    every [k]-th sample, starting with the first: the output has
    [ceil(length / k)] samples and its sample [i] is the input sample
    [i * k]. *)
Theorem X5_downsample_keeps_every_kth_sample :
  forall (buffer : list Q) (k : nat),
    (0 < k)%nat ->
    downsampleTo16k buffer (inject_Z (16000 * Z.of_nat k))
      = Ok (map (fun i => nth (i * k) buffer 0%Q)
              (seq 0 ((List.length buffer + k - 1) / k))).
Proof.
  intros buffer k Hk. unfold downsampleTo16k.
  destruct (Qeq_bool (inject_Z (16000 * Z.of_nat k)) 16000) eqn:E1.
  - apply Qeq_bool_iff in E1. unfold Qeq, inject_Z in E1. cbn [Qnum Qden] in E1.
    assert (k = 1)%nat by lia. subst k.
    rewrite Nat.add_sub, Nat.div_1_r. f_equal.
    rewrite <- (map_id buffer) at 1. rewrite <- (map_nth_seq (fun x => x) 0%Q buffer).
    apply map_ext. intros i. now rewrite Nat.mul_1_r.
  - destruct (Qeq_bool (inject_Z (16000 * Z.of_nat k) / 16000) 0) eqn:E2.
    { apply Qeq_bool_iff in E2. rewrite ratio_multiple in E2.
      unfold Qeq, inject_Z in E2. cbn [Qnum Qden] in E2. lia. }
    rewrite (newLength_multiple (List.length buffer) k Hk).
    destruct (Z.ltb_spec (Z.of_nat ((List.length buffer + k - 1) / k)) 0); [lia|].
    rewrite Nat2Z.id. f_equal. apply map_ext. intros i.
    apply downsample_at_multiple.
Qed.

Lemma X5_downsample_witness :
  downsampleTo16k [1; 2; 3; 4; 5; 6; 7]%Q (inject_Z (16000 * Z.of_nat 3))
    = Ok (map (fun i => nth (i * 3) [1; 2; 3; 4; 5; 6; 7]%Q 0%Q)
            (seq 0 ((List.length [1; 2; 3; 4; 5; 6; 7]%Q + 3 - 1) / 3))).
Proof.
  apply (X5_downsample_keeps_every_kth_sample [1; 2; 3; 4; 5; 6; 7]%Q 3). lia.
Defined.

















Lemma downsample_empty rate : downsampleTo16k [] rate = Ok [].
Proof.
  unfold downsampleTo16k. destruct (Qeq_bool rate 16000); [reflexivity|].
  destruct (Qeq_bool (rate / 16000) 0); [reflexivity|].
  cbn [List.length]. unfold Q_of_nat, Qdiv. cbn [Z.of_nat].
  rewrite (Qceiling_comp _ 0%Q); [reflexivity|]. unfold inject_Z. ring.
Qed.

Lemma downsample_zero_rate buffer rate :
  (rate == 0)%Q -> buffer <> [] -> downsampleTo16k buffer rate = Throw RangeError.
Proof.
  intros E Hne. unfold downsampleTo16k.
  assert (E1 : Qeq_bool rate 16000 = false).
  { destruct (Qeq_bool rate 16000) eqn:B; [|reflexivity].
    apply Qeq_bool_iff in B. rewrite E in B. discriminate B. }
  assert (E2 : Qeq_bool (rate / 16000) 0 = true).
  { apply Qeq_bool_iff. rewrite E. reflexivity. }
  rewrite E1, E2. destruct buffer; [congruence | reflexivity].
Qed.

Lemma downsample_negative_rate buffer rate :
  (rate < 0)%Q ->
  let newLength := Qceiling (Q_of_nat (List.length buffer) / (rate / 16000)) in
  newLength <= 0 /\
  downsampleTo16k buffer rate =
    if newLength <? 0 then Throw RangeError else Ok [].
Proof.
  intros Hneg newLength.
  assert (Hr : (rate / 16000 < 0)%Q).
  { unfold Qdiv. setoid_replace (/ 16000)%Q with (1 # 16000)%Q by reflexivity. lra. }
  assert (Hle : newLength <= 0).
  { unfold newLength. rewrite <- (Qceiling_Z 0). apply Qceiling_resp_le.
    change (inject_Z 0) with 0%Q.
    assert (Hne : ~ (rate / 16000 == 0)%Q) by (intros E; rewrite E in Hr; discriminate Hr).
    pose proof (Q_of_nat_nonneg (List.length buffer)) as Hn.
    set (a := Q_of_nat (List.length buffer)) in *.
    assert (Hq : (a / (rate / 16000) * (rate / 16000) == a)%Q).
    { unfold Qdiv at 1. rewrite <- Qmult_assoc, (Qmult_comm (/ (rate / 16000))).
      rewrite Qmult_inv_r by exact Hne. apply Qmult_1_r. }
    set (q := (a / (rate / 16000))%Q) in *. set (r := (rate / 16000)%Q) in *.
    clearbody q r a. nra. }
  split; [exact Hle|]. unfold downsampleTo16k.
  assert (E1 : Qeq_bool rate 16000 = false).
  { destruct (Qeq_bool rate 16000) eqn:B; [|reflexivity].
    apply Qeq_bool_iff in B. rewrite B in Hneg. discriminate Hneg. }
  assert (E2 : Qeq_bool (rate / 16000) 0 = false).
  { destruct (Qeq_bool (rate / 16000) 0) eqn:B; [|reflexivity].
    apply Qeq_bool_iff in B. rewrite B in Hr. discriminate Hr. }
  rewrite E1, E2. fold newLength.
  destruct (newLength <? 0) eqn:B; [reflexivity|].
  apply Z.ltb_ge in B. replace newLength with 0 by lia. reflexivity.
Qed.

(** X8.  Rates that are not positive.  The empty buffer always comes
    back empty.  At rate zero every other buffer makes the function
    throw a [RangeError].  At a negative rate the function never returns a
    sample: it throws when the buffer has at least [-rate / 16000]
    samples, and returns the empty array otherwise. *)
Theorem X8_downsample_rate_not_positive :
  (forall rate : Q, downsampleTo16k [] rate = Ok []) /\
  (forall (buffer : list Q) (rate : Q),
     (rate == 0)%Q -> buffer <> [] ->
     downsampleTo16k buffer rate = Throw RangeError) /\
  (forall (buffer : list Q) (rate : Q),
     (rate < 0)%Q ->
     ((- rate <= 16000 * Q_of_nat (List.length buffer))%Q ->
      downsampleTo16k buffer rate = Throw RangeError) /\
     ((16000 * Q_of_nat (List.length buffer) < - rate)%Q ->
      downsampleTo16k buffer rate = Ok [])).
Proof.
  split; [exact downsample_empty|]. split; [exact downsample_zero_rate|].
  intros buffer rate Hneg.
  destruct (downsample_negative_rate buffer rate Hneg) as [Hle ->].
  set (len := Q_of_nat (List.length buffer)).
  assert (Hr : (rate / 16000 < 0)%Q).
  { unfold Qdiv. setoid_replace (/ 16000)%Q with (1 # 16000)%Q by reflexivity. lra. }
  assert (Hne : ~ (rate / 16000 == 0)%Q) by (intros E; rewrite E in Hr; discriminate Hr).
  assert (Hq : (len / (rate / 16000) * (rate / 16000) == len)%Q).
  { unfold Qdiv at 1. rewrite <- Qmult_assoc, (Qmult_comm (/ (rate / 16000))).
    rewrite Qmult_inv_r by exact Hne. apply Qmult_1_r. }
  assert (Hrate : (rate / 16000 == rate * (1 # 16000))%Q) by reflexivity.
  split; intros H.
  - assert (L : Qceiling (len / (rate / 16000)) <= -1).
    { rewrite <- (Qceiling_Z (-1)). apply Qceiling_resp_le.
      change (inject_Z (-1)) with (-1)%Q.
      set (q := (len / (rate / 16000))%Q) in *. set (r := (rate / 16000)%Q) in *.
      clearbody q r len. nra. }
    fold len. destruct (Z.ltb_spec (Qceiling (len / (rate / 16000))) 0); [reflexivity | lia].
  - assert (L : -1 < Qceiling (len / (rate / 16000))).
    { apply inject_Z_lt_inv. eapply Qlt_le_trans; [|apply Qle_ceiling].
      change (inject_Z (-1)) with (-1)%Q.
      set (q := (len / (rate / 16000))%Q) in *. set (r := (rate / 16000)%Q) in *.
      clearbody q r len. nra. }
    fold len. destruct (Z.ltb_spec (Qceiling (len / (rate / 16000))) 0); [lia | reflexivity].
Qed.

Lemma X8_downsample_witness :
  downsampleTo16k [1; 2]%Q 0 = Throw RangeError /\
  downsampleTo16k [1; 2]%Q (-16000) = Throw RangeError /\
  downsampleTo16k [1; 2]%Q (-48000) = Ok [].
Proof.
  destruct X8_downsample_rate_not_positive as (_ & H0 & Hn).
  split; [apply H0; [reflexivity | discriminate]|].
  split.
  - apply (proj1 (Hn [1; 2]%Q (-16000)%Q eq_refl)). discriminate.
  - apply (proj2 (Hn [1; 2]%Q (-48000)%Q eq_refl)). reflexivity.
Defined.

(** ** Base64 texts *)

Module B64Shape.
Import Base64 B64Facts.

Lemma string_length_of_list l :
  String.length (string_of_list_ascii l) = List.length l.
Proof. induction l as [|c l IH]; [reflexivity|]. cbn. now rewrite IH. Qed.

Lemma list_ascii_of_string_app s t :
  list_ascii_of_string (s ++ t) = (list_ascii_of_string s ++ list_ascii_of_string t)%list.
Proof. induction s as [|c s IH]; [reflexivity|]. cbn. now rewrite IH. Qed.

Lemma bytes_as_chars (bytes : list byte) :
  List.length (list_ascii_of_string (string_of_list_byte bytes)) = List.length bytes.
Proof.
  unfold string_of_list_byte. rewrite list_ascii_of_string_of_list_ascii.
  apply length_map.
Qed.

Lemma core_length l :
  (List.length (sextets l) + List.length (padding (List.length l))
   = 4 * ((List.length l + 2) / 3))%nat.
Proof.
  induction l as [| a | a b | a b c l IH] using list_ind3; try reflexivity.
  change (List.length (a :: b :: c :: l)) with (3 + List.length l)%nat.
  rewrite padding_add3. cbn [sextets List.length].
  replace (3 + List.length l + 2)%nat with (1 * 3 + (List.length l + 2))%nat by lia.
  rewrite Nat.div_add_l by discriminate. lia.
Qed.

Lemma sextet_char_in_alphabet n : is_sextet n -> In (sextet_char n) alphabet.
Proof.
  unfold is_sextet, sextet_char. intros H. apply nth_In.
  change (List.length alphabet) with 64%nat. lia.
Qed.

Lemma is_byte_chars (l : list ascii) : Forall is_byte (map N_of_ascii l).
Proof.
  apply Forall_forall. intros n Hn. apply in_map_iff in Hn.
  destruct Hn as (c & <- & _). apply N_ascii_bounded.
Qed.

(** The characters of [btoa]: a core over the alphabet, then the
    padding. *)
Lemma btoa_chars_core l :
  let core := map sextet_char (sextets (map N_of_ascii l)) in
  btoa_chars l = (core ++ padding (List.length l))%list /\
  Forall (fun c => In c alphabet) core /\
  Forall plain core /\
  (List.length core mod 4 <> 1)%nat.
Proof.
  intros core. pose proof (sextets_lt _ (is_byte_chars l)) as Hs.
  split; [reflexivity|]. split; [|split].
  - apply Forall_forall. intros c Hc. apply in_map_iff in Hc.
    destruct Hc as (n & <- & Hn). apply sextet_char_in_alphabet.
    rewrite Forall_forall in Hs. now apply Hs.
  - apply Forall_forall. intros c Hc. apply in_map_iff in Hc.
    destruct Hc as (n & <- & Hn). apply sextet_char_plain.
    rewrite Forall_forall in Hs. now apply Hs.
  - unfold core. rewrite length_map. apply sextets_length.
Qed.

(** The decoder on a core without its padding. *)
Lemma atob_chars_core l :
  atob_chars (map sextet_char (sextets (map N_of_ascii l))) = Some l.
Proof.
  destruct (btoa_chars_core l) as (_ & _ & Hplain & Hlen).
  pose proof (sextets_lt _ (is_byte_chars l)) as Hs.
  set (core := map sextet_char (sextets (map N_of_ascii l))) in *.
  unfold atob_chars. rewrite filter_whitespace_id.
  2:{ eapply Forall_impl; [|exact Hplain]. now intros c [? _]. }
  assert (Hstrip : strip_padding core = core).
  { unfold strip_padding. now rewrite !(drop_last_eq_plain core Hplain). }
  destruct (List.length core mod 4 =? 0)%nat; rewrite ?Hstrip;
    (destruct (Nat.eqb_spec (List.length core mod 4) 1) as [E|_]; [contradiction|]);
    unfold core; rewrite char_sextets_map by assumption; cbn [option_map];
    rewrite octets_sextets by apply is_byte_chars;
    rewrite map_map; f_equal; rewrite <- (map_id l) at 2;
    apply map_ext; intros c; apply ascii_N_embedding.
Qed.

Lemma filter_padding_core core n :
  Forall plain core ->
  filter (fun c => negb (c =? "=")%char) (core ++ padding n) = core.
Proof.
  intros H. rewrite filter_app.
  assert (E1 : filter (fun c => negb (c =? "=")%char) core = core).
  { induction H as [|c core [_ Hc] _ IH]; [reflexivity|].
    cbn [filter]. rewrite Hc. cbn [negb]. now rewrite IH. }
  assert (E2 : filter (fun c => negb (c =? "=")%char) (padding n) = []).
  { unfold padding. now destruct (n mod 3)%nat as [|[|[|k]]]. }
  rewrite E1, E2. apply app_nil_r.
Qed.

Lemma filter_whitespace_skip l1 w l2 :
  is_ascii_whitespace w = true ->
  filter (fun c => negb (is_ascii_whitespace c)) (l1 ++ w :: l2)
    = filter (fun c => negb (is_ascii_whitespace c)) (l1 ++ l2).
Proof.
  intros H. rewrite !filter_app. cbn [filter]. now rewrite H.
Qed.

Lemma drop_last_eq_keeps c l :
  In c l -> (c =? "=")%char = false -> In c (drop_last_eq l).
Proof.
  intros Hin Hc. unfold drop_last_eq.
  destruct (rev l) as [|d r] eqn:E; [exact Hin|].
  destruct (Ascii.eqb_spec d "=") as [->|_]; [|exact Hin].
  apply in_rev in Hin. rewrite E in Hin. destruct Hin as [<-|Hin].
  - discriminate Hc.
  - now apply in_rev in Hin.
Qed.

Lemma char_sextets_invalid c l :
  In c l -> char_sextet c = None -> char_sextets l = None.
Proof.
  intros Hin Hc. induction l as [|d l IH]; [contradiction|].
  cbn [char_sextets]. destruct Hin as [->|Hin].
  - now rewrite Hc.
  - rewrite (IH Hin). now destruct (char_sextet d).
Qed.

Lemma atob_chars_invalid c l :
  In c l -> char_sextet c = None -> is_ascii_whitespace c = false ->
  (c =? "=")%char = false -> atob_chars l = None.
Proof.
  intros Hin Hc Hw He. unfold atob_chars.
  set (data := filter (fun c => negb (is_ascii_whitespace c)) l).
  assert (Hd : In c data).
  { apply filter_In. split; [exact Hin|]. now rewrite Hw. }
  set (data' := if (List.length data mod 4 =? 0)%nat then strip_padding data else data).
  assert (Hd' : In c data').
  { unfold data'. destruct (_ =? 0)%nat; [|exact Hd].
    unfold strip_padding. now repeat apply drop_last_eq_keeps. }
  destruct (List.length data' mod 4 =? 1)%nat; [reflexivity|].
  now rewrite (char_sextets_invalid c data' Hd' Hc).
Qed.

Lemma encode_length (bytes : list byte) :
  String.length (encode bytes) = (4 * ((List.length bytes + 2) / 3))%nat.
Proof.
  unfold encode, btoa. rewrite string_length_of_list.
  set (l := list_ascii_of_string (string_of_list_byte bytes)).
  assert (Hl : List.length l = List.length bytes) by apply bytes_as_chars.
  destruct (btoa_chars_core l) as (E & _). cbv zeta in E.
  rewrite E, length_app, length_map.
  rewrite <- (length_map N_of_ascii l).
  rewrite core_length. now rewrite length_map, Hl.
Qed.

End B64Shape.

(** The text of at least one byte is not empty. *)
Lemma encode_truthy (bytes : list byte) :
  bytes <> [] -> truthy (Some (encode bytes)) = Some (encode bytes).
Proof.
  intros H. pose proof (B64Shape.encode_length bytes) as L.
  destruct (encode bytes) as [|c s]; [|reflexivity]. exfalso.
  destruct bytes as [|b bytes]; [congruence|]. cbn [String.length List.length] in L.
  replace (S (List.length bytes) + 2)%nat with (1 * 3 + List.length bytes)%nat in L by lia.
  rewrite Nat.div_add_l in L by discriminate. lia.
Qed.

(** X9.  The text [encode] returns for [n] bytes has [4 * ceil(n / 3)]
    characters: characters of the base64 alphabet, followed by two ['=']
    when [n mod 3 = 1], by one when [n mod 3 = 2] and by none
    otherwise. *)
Theorem X9_encode_shape :
  forall bytes : list byte,
    String.length (encode bytes) = (4 * ((List.length bytes + 2) / 3))%nat /\
    exists core : list ascii,
      list_ascii_of_string (encode bytes)
        = (core ++ Base64.padding (List.length bytes))%list /\
      Forall (fun c => In c Base64.alphabet) core.
Proof.
  intros bytes. split; [apply B64Shape.encode_length|].
  unfold encode, Base64.btoa. rewrite list_ascii_of_string_of_list_ascii.
  set (l := list_ascii_of_string (string_of_list_byte bytes)).
  assert (Hl : List.length l = List.length bytes) by apply B64Shape.bytes_as_chars.
  destruct (B64Shape.btoa_chars_core l) as (E & Ha & _ & _). cbv zeta in E, Ha.
  eexists. split; [|exact Ha]. now rewrite E, Hl.
Qed.

(** X10.  [decode] is forgiving: a white-space character (TAB, LF, FF,
    CR, SPACE) anywhere in the text changes nothing, and the text of
    [encode] decodes to the same bytes with its ['='] characters
    removed. *)
Theorem X10_decode_is_forgiving :
  (forall (s1 s2 : string) (w : ascii),
     Base64.is_ascii_whitespace w = true ->
     decode (s1 ++ String w s2) = decode (s1 ++ s2)) /\
  (forall bytes : list byte,
     decode (string_of_list_ascii
               (filter (fun c => negb (c =? "=")%char)
                  (list_ascii_of_string (encode bytes))))
       = Ok bytes).
Proof.
  split.
  - intros s1 s2 w Hw. unfold decode, Base64.atob, Base64.atob_chars.
    rewrite !B64Shape.list_ascii_of_string_app. cbn [list_ascii_of_string].
    now rewrite (B64Shape.filter_whitespace_skip _ w _ Hw).
  - intros bytes. unfold decode, Base64.atob, encode, Base64.btoa.
    rewrite !list_ascii_of_string_of_list_ascii.
    set (l := list_ascii_of_string (string_of_list_byte bytes)).
    destruct (B64Shape.btoa_chars_core l) as (E & _ & Hp & _). cbv zeta in E, Hp.
    rewrite E, (B64Shape.filter_padding_core _ _ Hp).
    rewrite B64Shape.atob_chars_core. cbn [option_map]. unfold l.
    rewrite string_of_list_ascii_of_string.
    now rewrite list_byte_of_string_of_list_byte.
Qed.

Lemma X10_decode_witness :
  decode ("AQ" ++ String " " "ID") = decode ("AQ" ++ "ID").
Proof.
  apply (proj1 X10_decode_is_forgiving "AQ" "ID" " "%char). reflexivity.
Defined.

(** X11.  [decode] throws on every text that holds a character which is
    neither of the base64 alphabet, nor white space, nor ['='], and on
    every text whose characters other than white space number one more
    than a multiple of four. *)
Theorem X11_decode_rejects :
  (forall (s : string) (c : ascii),
     In c (list_ascii_of_string s) ->
     Base64.char_sextet c = None ->
     Base64.is_ascii_whitespace c = false ->
     c <> "="%char ->
     decode s = Throw (mkError "The string to be decoded is not correctly encoded.")) /\
  (forall s : string,
     (List.length (filter (fun c => negb (Base64.is_ascii_whitespace c))
                     (list_ascii_of_string s)) mod 4 = 1)%nat ->
     decode s = Throw (mkError "The string to be decoded is not correctly encoded.")).
Proof.
  split.
  - intros s c Hin Hc Hw Hne. unfold decode, Base64.atob.
    rewrite (B64Shape.atob_chars_invalid c _ Hin Hc Hw); [reflexivity|].
    now apply Ascii.eqb_neq.
  - intros s H. unfold decode, Base64.atob, Base64.atob_chars.
    set (data := filter _ _) in *. rewrite H. cbn [Nat.eqb].
    rewrite H. reflexivity.
Qed.

Lemma X11_decode_witness :
  decode "AQ*D" = Throw (mkError "The string to be decoded is not correctly encoded.") /\
  decode "AQIDB" = Throw (mkError "The string to be decoded is not correctly encoded.").
Proof.
  destruct X11_decode_rejects as [H1 H2]. split.
  - apply (H1 "AQ*D" "*"%char); [cbn; tauto | reflexivity | reflexivity | discriminate].
  - apply H2. reflexivity.
Defined.

(** ** The capture pipeline over a stream of frames *)











Lemma step_stopped P ev n :
  is_media ev = true -> stopRef n = true -> step P ev n = n.
Proof.
  intros Hm Hs. destruct ev; try discriminate Hm; cbn [step].
  - unfold onaudioprocess. now rewrite Hs.
  - unfold onmessage. now rewrite Hs.
Qed.

Lemma run_stopped P evs n :
  forallb is_media evs = true -> stopRef n = true -> run P evs n = n.
Proof.
  intros Hm Hs. induction evs as [|ev evs IH]; [reflexivity|].
  cbn [forallb] in Hm. apply andb_true_iff in Hm. destruct Hm as [Hev Hm].
  cbn [run fold_left]. rewrite (step_stopped P ev n Hev Hs). now apply IH.
Qed.

(** X14.  Once the stop flag is up, capture frames and server messages
    change nothing at all: no sample is accumulated or sent, no audio is
    scheduled, no tool runs, nothing is logged.  The flag is up after
    [disconnect] and after [onclose]. *)
Theorem X14_stopped_hook_ignores_media :
  forall (P : Platform) (evs : list Event) (n : Nova),
    forallb is_media evs = true ->
    (stopRef n = true -> run P evs n = n) /\
    run P evs (disconnect n) = disconnect n /\
    run P evs (onclose n) = onclose n.
Proof.
  intros P evs n Hm. split; [now apply run_stopped|]. split.
  - apply run_stopped; [exact Hm|]. unfold disconnect. open_handlers; reflexivity.
  - apply run_stopped; [exact Hm|]. unfold onclose. open_handlers; reflexivity.
Qed.

Lemma X14_stopped_hook_witness :
  let evs :=
    [EvAudioProcess 16000 [1 # 2]%Q;
     EvMessage 0 (mkMessage (Some "AQID") (Some "hello") true None)] in
  (stopRef initial = true -> run example_platform evs initial = initial) /\
  run example_platform evs (disconnect initial) = disconnect initial /\
  run example_platform evs (onclose initial) = onclose initial.
Proof.
  apply (X14_stopped_hook_ignores_media example_platform
           [EvAudioProcess 16000 [1 # 2]%Q;
            EvMessage 0 (mkMessage (Some "AQID") (Some "hello") true None)]
           initial).
  reflexivity.
Defined.

(** ** The session machine over all its runs *)

Lemma same_refs_refl n : same_refs n n.
Proof. repeat split. Qed.

Lemma same_refs_trans a b c : same_refs a b -> same_refs b c -> same_refs a c.
Proof. unfold same_refs. intuition congruence. Qed.

(** Past its guard, [onmessage] hands to the dispatcher a state whose
    status is the old one, SPEAKING or LISTENING. *)
Lemma onmessage_before_dispatch P currentTime msg n :
  stopRef n = false ->
  exists n0,
    onmessage P currentTime msg n = onmessage_toolCall P (toolCall msg) n0 /\
    same_refs n n0 /\
    (status n0 = status n \/ status n0 = SPEAKING \/ status n0 = LISTENING).
Proof.
  intros Hstop. unfold onmessage. rewrite Hstop.
  unfold bindM, modify, tryM, liftE, retM.
  destruct (truthy (base64Audio msg)) as [b64|];
    [destruct (decode b64) as [bytes|e]; cbn [bindE];
     [destruct (decodeAudioData bytes PCM_SAMPLE_RATE_OUTPUT 1) as [buf|e]|]|];
    destruct (truthy (inputTranscript msg)); destruct (turnComplete msg);
    eexists; (split; [reflexivity|]);
    unfold schedule, same_refs; by_cases; cbn; auto 10.
Qed.

Lemma onmessage_session P currentTime msg n :
  let n' := fst (onmessage P currentTime msg n) in
  same_refs n n' /\
  (status n' = status n \/ status n' = SPEAKING \/ status n' = LISTENING).
Proof.
  cbv zeta. destruct (stopRef n) eqn:Hstop.
  - unfold onmessage. rewrite Hstop. split; [apply same_refs_refl | now left].
  - destruct (onmessage_before_dispatch P currentTime msg n Hstop)
      as (n0 & -> & Hr & Hs).
    pose proof (stable_onmessage_toolCall
                  (fun a b => same_refs a b /\ status b = status a)) as H.
    destruct (H ltac:(intros; split; [apply same_refs_refl | reflexivity])
                ltac:(intros a b c [R1 S1] [R2 S2]; split;
                      [eapply same_refs_trans; eassumption | congruence])
                ltac:(intros; split; repeat split)
                ltac:(intros; split; repeat split)
                ltac:(intros; split; repeat split)
                P
                ltac:(intros; split; repeat split)
                (toolCall msg) n0) as [Hr' Hs'].
    split; [eapply same_refs_trans; eassumption|].
    rewrite Hs'. exact Hs.
Qed.

Lemma onaudioprocess_session rate inputData n :
  let n' := fst (onaudioprocess rate inputData n) in
  same_refs n n' /\ status n' = status n.
Proof.
  apply (stable_onaudioprocess (fun a b => same_refs a b /\ status b = status a)).
  - intros; split; [apply same_refs_refl | reflexivity].
  - intros a b c [R1 S1] [R2 S2]. split;
      [eapply same_refs_trans; eassumption | congruence].
  - intros; split; repeat split.
  - intros; split; repeat split.
Qed.

Lemma session_invariant_same_refs n n' :
  same_refs n n' ->
  (status n' = status n \/ status n' = SPEAKING \/ status n' = LISTENING) ->
  session_invariant n -> session_invariant n'.
Proof.
  unfold same_refs, session_invariant.
  intros (E1 & E2 & E3 & E4) Hs (I1 & I2 & I3 & I4).
  rewrite E1, E2, E3, E4. repeat split; auto.
  intros Hc. apply I4. destruct Hs as [<-|[Hs|Hs]]; congruence.
Qed.

(** Case analysis on the tests of the handlers, keeping what each test
    found. *)
Ltac cases_eqn :=
  repeat match goal with
         | |- context [if ?b then _ else _] =>
             let E := fresh "E" in destruct b eqn:E
         | |- context [match ?x with _ => _ end] =>
             let E := fresh "E" in destruct x eqn:E
         end.

Ltac bool_hyps :=
  repeat match goal with
         | H : (_ || _)%bool = false |- _ => apply orb_false_iff in H; destruct H
         | H : (_ && _)%bool = true |- _ => apply andb_true_iff in H; destruct H
         | H : negb _ = true |- _ => apply negb_true_iff in H
         | H : negb _ = false |- _ => apply negb_false_iff in H
         | H : (_ =? _)%nat = true |- _ => apply Nat.eqb_eq in H
         | H : (_ =? _)%nat = false |- _ => apply Nat.eqb_neq in H
         end.

Ltac handlers :=
  unfold fire, connect, disconnect, connect_resolved, connect_rejected, onopen,
    onended, onclose, onerror, startWakeWord, stopWakeWord,
    cleanupAudio, stopScreenShare, setTimeout, addLog.

Ltac session_cases :=
  unfold session_invariant; intros (I1 & I2 & I3 & I4);
  handlers; cases_eqn; cbn in *; bool_hyps;
  intuition (try discriminate; try congruence; try lia; auto).

Lemma step_session_invariant P ev n :
  session_invariant n -> session_invariant (step P ev n).
Proof.
  destruct ev; cbn [step]; try solve [session_cases].
  - destruct (onaudioprocess_session rate inputData n) as [Hr Hs].
    apply (session_invariant_same_refs n); [exact Hr | now left].
  - destruct (onmessage_session P currentTime msg n) as [Hr Hs].
    now apply (session_invariant_same_refs n).
Qed.

Lemma run_session_invariant P evs n :
  session_invariant n -> session_invariant (run P evs n).
Proof.
  revert n. induction evs as [|ev evs IH]; intros n H; [exact H|].
  cbn [run fold_left]. apply IH. now apply step_session_invariant.
Qed.

Lemma initial_session_invariant : session_invariant initial.
Proof. unfold session_invariant. cbn. intuition (try discriminate; auto). Qed.



(** X15.  In every state the hook can reach from its initial state, the
    retry counter is 0 or 1; and whenever the status is CONNECTING the
    connecting flag is up, so that a call of [connect] with a key changes
    nothing. *)
Theorem X15_retry_counter_and_connecting_flag :
  forall (P : Platform) (evs : list Event),
    let n := run P evs initial in
    (retryCountRef n <= 1)%nat /\
    (status n = CONNECTING ->
     isConnectingRef n = true /\
     forall apiKey : string, apiKey <> EmptyString -> connect apiKey n = n).
Proof.
  intros P evs n.
  destruct (run_session_invariant P evs initial initial_session_invariant)
    as (I1 & _ & _ & I4).
  fold n in I1, I4. split; [exact I1|]. intros Hs. specialize (I4 Hs).
  split; [exact I4|]. intros apiKey Hk. unfold connect.
  apply String.eqb_neq in Hk. now rewrite Hk, I4.
Qed.

Lemma X15_retry_counter_witness :
  isConnectingRef (run example_platform [EvConnect "key"] initial) = true /\
  forall apiKey : string,
    apiKey <> EmptyString ->
    connect apiKey (run example_platform [EvConnect "key"] initial)
      = run example_platform [EvConnect "key"] initial.
Proof.
  apply (proj2 (X15_retry_counter_and_connecting_flag example_platform
                  [EvConnect "key"])).
  reflexivity.
Defined.





(** X18.  [onended] does not look at the stop flag.  [disconnect] empties
    the set of live sources and sets the status to IDLE; an [ended] event
    that arrives afterwards, as the ones of the sources it stopped do,
    finds the set empty and sets the status to LISTENING.  So does one
    that arrives after the clean-up of an automatic reconnect, which had
    set ERROR. *)
Theorem X18_late_ended_event_sets_listening :
  (forall (n : Nova) (source : nat),
     status (disconnect n) = IDLE /\
     status (onended source (disconnect n)) = LISTENING) /\
  (forall (apiKey msg : string) (n : Nova) (source : nat),
     retryCountRef n = 0%nat ->
     includes msg "Network error" = true ->
     status (onerror apiKey (Some msg) n) = ERROR /\
     status (onended source (onerror apiKey (Some msg) n)) = LISTENING).
Proof.
  split.
  - intros n source. split.
    + unfold disconnect, cleanupAudio, stopScreenShare. by_cases; reflexivity.
    + assert (Hsrc : sourcesRef (disconnect n) = []).
      { unfold disconnect, cleanupAudio, stopScreenShare. by_cases; reflexivity. }
      revert Hsrc. generalize (disconnect n). intros d Hsrc.
      unfold onended. cbn [sourcesRef set_sourcesRef]. rewrite Hsrc.
      reflexivity.
  - intros apiKey msg n source H0 Hm.
    destruct (onerror_first_retry apiKey msg n H0 Hm) as (Hs & _ & _).
    split; [exact Hs|].
    assert (Hsrc : sourcesRef (onerror apiKey (Some msg) n) = []).
    { unfold onerror.
      assert (Ht : truthy (Some msg) = Some msg).
      { destruct msg; [discriminate Hm | reflexivity]. }
      rewrite Ht. destruct (includes msg "closed"); cbn [negb];
        cbn [retryCountRef set_isConnectingRef set_status addLog set_logs];
        rewrite Hm, H0; reflexivity. }
    revert Hsrc. generalize (onerror apiKey (Some msg) n). intros d Hsrc.
    unfold onended. cbn [sourcesRef set_sourcesRef]. rewrite Hsrc.
    reflexivity.
Qed.

Lemma X18_late_ended_event_witness :
  status (onerror "key" (Some "Network error") initial) = ERROR /\
  status (onended 0 (onerror "key" (Some "Network error") initial)) = LISTENING.
Proof.
  apply (proj2 X18_late_ended_event_sets_listening
           "key" "Network error" initial 0%nat); reflexivity.
Defined.

Lemma remove_nth_app {A} (i : nat) (l r : list A) :
  (i < List.length l)%nat -> remove_nth i (l ++ r) = (remove_nth i l ++ r)%list.
Proof.
  revert i. induction l as [|a l IH]; intros i Hi; [cbn in Hi; lia|].
  destruct i as [|i]; [reflexivity|]. cbn [remove_nth app]. f_equal.
  apply IH. cbn in Hi. lia.
Qed.

(** X19.  [disconnect] does not cancel a pending automatic reconnect: it
    leaves the timers in place and adds the wake-word one.  When the
    reconnect fires after the disconnect, the hook connects again: the
    status is CONNECTING and the stop flag is down. *)
Theorem X19_disconnect_keeps_reconnect_timer :
  forall (P : Platform) (n : Nova) (i : nat) (apiKey : string) (ms : N),
    nth_error (timers n) i = Some (Timer_connect apiKey ms) ->
    apiKey <> EmptyString ->
    timers (disconnect n) = (timers n ++ [Timer_startWakeWord 1000])%list /\
    let n' := fire P i (disconnect n) in
    status n' = CONNECTING /\ isConnectingRef n' = true /\ stopRef n' = false /\
    timers n' = (remove_nth i (timers n) ++ [Timer_startWakeWord 1000])%list.
Proof.
  intros P n i apiKey ms Hi Hk.
  assert (Ht : timers (disconnect n) = (timers n ++ [Timer_startWakeWord 1000])%list).
  { unfold disconnect, cleanupAudio, stopScreenShare. by_cases; reflexivity. }
  assert (Hc : isConnectingRef (disconnect n) = false).
  { unfold disconnect, cleanupAudio, stopScreenShare. by_cases; reflexivity. }
  split; [exact Ht|]. cbv zeta.
  assert (Hlt : (i < List.length (timers n))%nat).
  { apply nth_error_Some. congruence. }
  revert Ht Hc. generalize (disconnect n). intros d Ht Hc.
  unfold fire. rewrite Ht, nth_error_app1, Hi by exact Hlt.
  rewrite remove_nth_app by exact Hlt.
  unfold connect. apply String.eqb_neq in Hk. rewrite Hk.
  cbn [isConnectingRef set_timers]. rewrite Hc.
  unfold stopWakeWord. by_cases; repeat split; reflexivity.
Qed.

Lemma X19_disconnect_keeps_reconnect_witness :
  let n := onerror "key" (Some "Network error") initial in
  timers (disconnect n) = (timers n ++ [Timer_startWakeWord 1000])%list /\
  let n' := fire example_platform 0 (disconnect n) in
  status n' = CONNECTING /\ isConnectingRef n' = true /\ stopRef n' = false /\
  timers n' = (remove_nth 0 (timers n) ++ [Timer_startWakeWord 1000])%list.
Proof.
  apply (X19_disconnect_keeps_reconnect_timer example_platform
           (onerror "key" (Some "Network error") initial) 0 "key" 2000%N);
    [reflexivity | discriminate].
Defined.

(** ** Messages and playback *)

(** [onmessage], past its guard, step by step. *)
Lemma onmessage_flat P currentTime msg n :
  stopRef n = false ->
  onmessage P currentTime msg n =
  onmessage_toolCall P (toolCall msg)
    (after_turn msg (after_transcript msg (after_audio currentTime msg n))).
Proof.
  intros Hstop. unfold onmessage. rewrite Hstop.
  unfold after_turn, after_transcript, after_audio.
  unfold bindM, modify, tryM, liftE, retM.
  destruct (truthy (base64Audio msg)) as [b64|];
    [destruct (decode b64) as [bytes|e]; cbn [bindE];
     [destruct (decodeAudioData bytes PCM_SAMPLE_RATE_OUTPUT 1) as [buf|e]|]|];
    destruct (truthy (inputTranscript msg)); destruct (turnComplete msg);
    reflexivity.
Qed.

Lemma same_playback_refl n : same_playback n n.
Proof. repeat split. Qed.

Lemma same_playback_trans a b c :
  same_playback a b -> same_playback b c -> same_playback a c.
Proof. unfold same_playback. intuition congruence. Qed.

Lemma toolCall_same_playback P tc n :
  same_playback n (fst (onmessage_toolCall P tc n)).
Proof.
  apply (stable_onmessage_toolCall same_playback);
    first [exact same_playback_refl | exact same_playback_trans
          | intros; repeat split].
Qed.

(** *** Units in sequence *)

Lemma in_sequence_snoc t units u :
  in_sequence t (units ++ [u]) <->
  in_sequence t units /\ (playback_end t units <= unit_start u)%Q.
Proof.
  revert t. induction units as [|v units IH]; intros t; cbn [app in_sequence playback_end].
  - tauto.
  - rewrite IH. tauto.
Qed.

Lemma playback_end_snoc t units u :
  playback_end t (units ++ [u]) = (unit_start u + duration (unit_buffer u))%Q.
Proof.
  revert t. induction units as [|v units IH]; intros t; cbn [app playback_end].
  - reflexivity.
  - apply IH.
Qed.

Lemma schedule_in_sequence now buf n :
  in_sequence 0 (started n) /\ (playback_end 0 (started n) <= nextStartTimeRef n)%Q ->
  in_sequence 0 (started (schedule now buf n)) /\
  (playback_end 0 (started (schedule now buf n))
   <= nextStartTimeRef (schedule now buf n))%Q.
Proof.
  intros [Hs He]. destruct (schedule_eq now buf n) as [-> ->].
  rewrite in_sequence_snoc, playback_end_snoc. cbn [unit_start unit_buffer].
  split; [split; [exact Hs|]|apply Qle_refl].
  destruct (Qlt_bool (nextStartTimeRef n) now) eqn:E; [|exact He].
  apply Qlt_bool_iff in E. lra.
Qed.

Lemma step_in_sequence P ev n :
  in_sequence 0 (started n) /\ (playback_end 0 (started n) <= nextStartTimeRef n)%Q ->
  in_sequence 0 (started (step P ev n)) /\
  (playback_end 0 (started (step P ev n)) <= nextStartTimeRef (step P ev n))%Q.
Proof.
  destruct ev; cbn [step]; try solve [open_handlers; cbn; auto].
  - apply (stable_onaudioprocess
             (fun a b =>
                in_sequence 0 (started a) /\
                (playback_end 0 (started a) <= nextStartTimeRef a)%Q ->
                in_sequence 0 (started b) /\
                (playback_end 0 (started b) <= nextStartTimeRef b)%Q)); auto.
  - apply (stable_onmessage
             (fun a b =>
                in_sequence 0 (started a) /\
                (playback_end 0 (started a) <= nextStartTimeRef a)%Q ->
                in_sequence 0 (started b) /\
                (playback_end 0 (started b) <= nextStartTimeRef b)%Q)); auto.
    intros now buf m _. apply schedule_in_sequence.
Qed.

(** X20.  In every state the hook can reach, the playback units it has
    started are in sequence: the first one starts at time 0 or later, each
    other one at or after the end of the one before it, and the cursor is
    at or after the end of the last one.  No two units overlap. *)
Theorem X20_playback_units_never_overlap :
  forall (P : Platform) (evs : list Event),
    let n := run P evs initial in
    in_sequence 0 (started n) /\
    (playback_end 0 (started n) <= nextStartTimeRef n)%Q.
Proof.
  intros P evs.
  assert (H : forall n,
            in_sequence 0 (started n) /\
            (playback_end 0 (started n) <= nextStartTimeRef n)%Q ->
            in_sequence 0 (started (run P evs n)) /\
            (playback_end 0 (started (run P evs n)) <= nextStartTimeRef (run P evs n))%Q).
  { induction evs as [|ev evs IH]; intros n Hn; [exact Hn|].
    cbn [run fold_left]. apply IH. now apply step_in_sequence. }
  apply H. split; [exact I | apply Qle_refl].
Qed.

Lemma after_steps_same_playback msg n :
  started (after_turn msg (after_transcript msg n)) = started n /\
  nextStartTimeRef (after_turn msg (after_transcript msg n)) = nextStartTimeRef n /\
  sourcesRef (after_turn msg (after_transcript msg n)) = sourcesRef n /\
  logs (after_turn msg (after_transcript msg n)) = logs (after_transcript msg n) /\
  status (after_turn msg (after_transcript msg n))
    = (if turnComplete msg then LISTENING else status n).
Proof.
  unfold after_turn, after_transcript. by_cases; repeat split; reflexivity.
Qed.

(** A message whose audio decodes to at least one byte. *)
Lemma onmessage_audio_ok P now msg n b64 bytes :
  stopRef n = false ->
  truthy (base64Audio msg) = Some b64 ->
  decode b64 = Ok bytes -> bytes <> [] ->
  let buf := mkAudioBuffer 1 ((List.length bytes + 1) / 2) PCM_SAMPLE_RATE_OUTPUT
               [map dequantize (pcmData_of bytes)] in
  let n' := fst (onmessage P now msg n) in
  let scheduled := schedule now buf (set_status SPEAKING n) in
  started n' = started scheduled /\
  nextStartTimeRef n' = nextStartTimeRef scheduled /\
  sourcesRef n' = sourcesRef scheduled /\
  status n' = (if turnComplete msg then LISTENING else SPEAKING).
Proof.
  intros Hstop Ht Hd Hne buf n' scheduled.
  unfold n'. rewrite (onmessage_flat P now msg n Hstop).
  assert (Ea : after_audio now msg n = scheduled).
  { unfold after_audio. rewrite Ht, Hd. cbn [bindE].
    now rewrite (decodeAudioData_mono bytes PCM_SAMPLE_RATE_OUTPUT eq_refl Hne). }
  rewrite Ea.
  destruct (toolCall_same_playback P (toolCall msg)
              (after_turn msg (after_transcript msg scheduled)))
    as (S1 & S2 & S3 & S4 & _).
  destruct (after_steps_same_playback msg scheduled) as (A1 & A2 & A3 & _ & A5).
  rewrite S1, S2, S3, S4, A1, A2, A3, A5.
  repeat split; try reflexivity.
  destruct (turnComplete msg); [reflexivity|].
  unfold scheduled, schedule. by_cases; reflexivity.
Qed.

(** A disconnect, then a new connection that opens: the cursor and the
    units started are as before, and the stop flag is down. *)
Lemma reconnect_keeps_cursor (apiKey : string) (n : Nova) :
  apiKey <> EmptyString ->
  let n1 := onopen (Ok tt) (connect_resolved (connect apiKey (disconnect n))) in
  nextStartTimeRef n1 = nextStartTimeRef n /\
  started n1 = started n /\ stopRef n1 = false.
Proof.
  intros Hk. apply String.eqb_neq in Hk. cbv zeta.
  assert (Hd : nextStartTimeRef (disconnect n) = nextStartTimeRef n /\
               started (disconnect n) = started n /\
               isConnectingRef (disconnect n) = false).
  { unfold disconnect, cleanupAudio, stopScreenShare.
    by_cases; repeat split; reflexivity. }
  revert Hd. generalize (disconnect n). intros d (D1 & D2 & D3).
  assert (Hc : nextStartTimeRef (connect apiKey d) = nextStartTimeRef d /\
               started (connect apiKey d) = started d /\
               stopRef (connect apiKey d) = false).
  { unfold connect. rewrite Hk, D3. unfold stopWakeWord.
    by_cases; repeat split; reflexivity. }
  revert Hc. generalize (connect apiKey d). intros c (C1 & C2 & C3).
  assert (Ho : nextStartTimeRef (onopen (Ok tt) (connect_resolved c))
                 = nextStartTimeRef c /\
               started (onopen (Ok tt) (connect_resolved c)) = started c /\
               stopRef (onopen (Ok tt) (connect_resolved c)) = stopRef c).
  { unfold onopen, connect_resolved. by_cases; repeat split; reflexivity. }
  destruct Ho as (O1 & O2 & O3). rewrite O1, O2, O3. repeat split; congruence.
Qed.

(** X21.  The playback cursor outlives the session.  [disconnect] and a
    new [connect] leave it where the last session put it; when the first
    audio of the new session arrives, on an output timeline that is still
    before that cursor, it is started at the old cursor, not at the
    current time. *)
Theorem X21_cursor_outlives_the_session :
  forall (P : Platform) (apiKey : string) (now : Q) (bytes : list byte) (n : Nova),
    apiKey <> EmptyString ->
    bytes <> [] ->
    (now <= nextStartTimeRef n)%Q ->
    let n1 := run P [EvDisconnect; EvConnect apiKey; EvResolved; EvOpen (Ok tt)] n in
    let msg := mkMessage (Some (encode bytes)) None false None in
    let n2 := step P (EvMessage now msg) n1 in
    nextStartTimeRef n1 = nextStartTimeRef n /\
    exists buf : AudioBuffer,
      started n2
        = (started n ++ [mkUnit (List.length (started n)) buf (nextStartTimeRef n)])%list.
Proof.
  intros P apiKey now bytes n Hk Hne Hnow. cbv zeta.
  change (run P [EvDisconnect; EvConnect apiKey; EvResolved; EvOpen (Ok tt)] n)
    with (onopen (Ok tt) (connect_resolved (connect apiKey (disconnect n)))).
  destruct (reconnect_keeps_cursor apiKey n Hk) as (Hc & Hs & Hstop).
  revert Hc Hs Hstop.
  generalize (onopen (Ok tt) (connect_resolved (connect apiKey (disconnect n)))).
  intros n1 Hc Hs Hstop. split; [exact Hc|].
  set (msg := mkMessage (Some (encode bytes)) None false None).
  destruct (onmessage_audio_ok P now msg n1 (encode bytes) bytes Hstop
              (encode_truthy bytes Hne) (decode_encode bytes) Hne)
    as (E & _).
  cbv zeta in E. eexists. cbn [step]. rewrite E.
  destruct (schedule_eq now
              (mkAudioBuffer 1 ((List.length bytes + 1) / 2) PCM_SAMPLE_RATE_OUTPUT
                 [map dequantize (pcmData_of bytes)])
              (set_status SPEAKING n1)) as [-> _].
  cbn [started nextStartTimeRef set_status]. rewrite Hs, Hc.
  assert (F : Qlt_bool (nextStartTimeRef n) now = false).
  { apply Qlt_bool_false_iff. exact Hnow. }
  rewrite F. reflexivity.
Qed.

Lemma X21_cursor_witness :
  let n := schedule 0 (silence 24000) initial in
  let n1 :=
    run example_platform [EvDisconnect; EvConnect "key"; EvResolved; EvOpen (Ok tt)] n in
  let msg := mkMessage (Some (encode [x01; x02])) None false None in
  let n2 := step example_platform (EvMessage 0 msg) n1 in
  nextStartTimeRef n1 = nextStartTimeRef n /\
  exists buf : AudioBuffer,
    started n2
      = (started n ++ [mkUnit (List.length (started n)) buf (nextStartTimeRef n)])%list.
Proof.
  apply (X21_cursor_outlives_the_session example_platform "key" 0 [x01; x02]
           (schedule 0 (silence 24000) initial)); discriminate.
Defined.

(** X22.  A message whose audio decodes to [k > 0] bytes, with the stop
    flag down: one unit of [ceil(k / 2)] frames at 24000 Hz is started,
    at the cursor or at the current time of the output timeline if the
    cursor is behind it; the cursor moves to the end of the unit; the
    unit joins the live set; and the status is SPEAKING, unless the
    message also ends the turn, in which case it is LISTENING. *)
Theorem X22_audio_message_is_scheduled :
  forall (P : Platform) (now : Q) (msg : LiveServerMessage) (n : Nova)
         (b64 : string) (bytes : list byte),
    stopRef n = false ->
    truthy (base64Audio msg) = Some b64 ->
    decode b64 = Ok bytes ->
    bytes <> [] ->
    let n' := fst (onmessage P now msg n) in
    let start := if Qlt_bool (nextStartTimeRef n) now then now else nextStartTimeRef n in
    let frameCount := ((List.length bytes + 1) / 2)%nat in
    exists samples : list Q,
      List.length samples = frameCount /\
      started n' =
        (started n
         ++ [mkUnit (List.length (started n))
               (mkAudioBuffer 1 frameCount PCM_SAMPLE_RATE_OUTPUT [samples])
               start])%list /\
      nextStartTimeRef n' = (start + Q_of_nat frameCount / 24000)%Q /\
      In (List.length (started n)) (sourcesRef n') /\
      status n' = (if turnComplete msg then LISTENING else SPEAKING).
Proof.
  intros P now msg n b64 bytes Hstop Ht Hd Hne n' start frameCount.
  destruct (onmessage_audio_ok P now msg n b64 bytes Hstop Ht Hd Hne)
    as (E1 & E2 & E3 & E4).
  cbv zeta in E1, E2, E3, E4. fold n' in E1, E2, E3, E4.
  exists (map dequantize (pcmData_of bytes)).
  split; [now rewrite length_map, pcmData_of_length|].
  destruct (schedule_eq now
              (mkAudioBuffer 1 ((List.length bytes + 1) / 2) PCM_SAMPLE_RATE_OUTPUT
                 [map dequantize (pcmData_of bytes)])
              (set_status SPEAKING n)) as [S1 S2].
  cbn [started nextStartTimeRef set_status] in S1, S2.
  split; [now rewrite E1, S1|]. split; [now rewrite E2, S2|].
  split; [|exact E4].
  rewrite E3. unfold schedule. by_cases; cbn; now left.
Qed.

Lemma X22_audio_message_witness :
  let msg := mkMessage (Some "AQID") None true None in
  let n' := fst (onmessage example_platform 5 msg initial) in
  exists samples : list Q,
    List.length samples = 2%nat /\
    started n' =
      (started initial
       ++ [mkUnit (List.length (started initial))
             (mkAudioBuffer 1 2 PCM_SAMPLE_RATE_OUTPUT [samples]) 5])%list /\
    nextStartTimeRef n' = (5 + Q_of_nat 2 / 24000)%Q /\
    In (List.length (started initial)) (sourcesRef n') /\
    status n' = LISTENING.
Proof.
  apply (X22_audio_message_is_scheduled example_platform 5
           (mkMessage (Some "AQID") None true None) initial "AQID" [x01; x02; x03]);
    try reflexivity.
  discriminate.
Defined.

(** X23.  Audio that cannot be played.  When the audio of a message does
    not decode, or decodes to no byte at all, the handler has set
    SPEAKING, logs [Audio playback error] and goes on with the rest of the
    message as if it held no audio: nothing is started and the cursor
    stays.  An empty audio text is skipped without a trace. *)
Theorem X23_unplayable_audio_is_logged_and_skipped :
  forall (P : Platform) (now : Q) (msg : LiveServerMessage) (n : Nova),
    stopRef n = false ->
    let rest :=
      mkMessage None (inputTranscript msg) (turnComplete msg) (toolCall msg) in
    (forall b64 : string,
       truthy (base64Audio msg) = Some b64 ->
       (exists e, decode b64 = Throw e) \/ decode b64 = Ok [] ->
       onmessage P now msg n =
         onmessage P now rest
           (addLog "Audio playback error" Tp_error Src_system None
              (set_status SPEAKING n)) /\
       started (fst (onmessage P now msg n)) = started n /\
       nextStartTimeRef (fst (onmessage P now msg n)) = nextStartTimeRef n) /\
    (base64Audio msg = Some EmptyString ->
     onmessage P now msg n = onmessage P now rest n).
Proof.
  intros P now msg n Hstop rest. split.
  - intros b64 Ht Hbad.
    set (n0 := addLog "Audio playback error" Tp_error Src_system None
                 (set_status SPEAKING n)).
    assert (Hstop0 : stopRef n0 = false) by exact Hstop.
    assert (Ea : after_audio now msg n = n0).
    { unfold after_audio. rewrite Ht.
      destruct Hbad as [[e ->]| ->]; reflexivity. }
    assert (E : onmessage P now msg n = onmessage P now rest n0).
    { rewrite (onmessage_flat P now msg n Hstop), Ea.
      now rewrite (onmessage_flat P now rest n0 Hstop0). }
    split; [exact E|].
    rewrite (onmessage_flat P now msg n Hstop), Ea.
    destruct (toolCall_same_playback P (toolCall msg)
                (after_turn msg (after_transcript msg n0)))
      as (_ & S2 & S3 & _).
    destruct (after_steps_same_playback msg n0) as (A1 & A2 & _).
    rewrite S2, S3, A1, A2. split; reflexivity.
  - intros He. rewrite (onmessage_flat P now msg n Hstop).
    rewrite (onmessage_flat P now rest n Hstop).
    unfold after_audio. rewrite He. reflexivity.
Qed.

Lemma X23_unplayable_audio_witness :
  let msg := mkMessage (Some "A") (Some "hi") false None in
  let rest := mkMessage None (Some "hi") false None in
  onmessage example_platform 0 msg initial =
    onmessage example_platform 0 rest
      (addLog "Audio playback error" Tp_error Src_system None
         (set_status SPEAKING initial)) /\
  started (fst (onmessage example_platform 0 msg initial)) = started initial /\
  nextStartTimeRef (fst (onmessage example_platform 0 msg initial))
    = nextStartTimeRef initial.
Proof.
  apply (proj1 (X23_unplayable_audio_is_logged_and_skipped example_platform 0
                  (mkMessage (Some "A") (Some "hi") false None) initial eq_refl)
           "A"); [reflexivity|].
  left. eexists. reflexivity.
Defined.

(** ** Windows, logs and what the hook has sent *)

Lemma extends_refl {A} (l : list A) : extends l l.
Proof. exists []. now rewrite app_nil_r. Qed.

Lemma extends_trans {A} (a b c : list A) : extends a b -> extends b c -> extends a c.
Proof. intros [s ->] [t ->]. exists (s ++ t)%list. now rewrite app_assoc. Qed.

Lemma extends_snoc {A} (l : list A) x : extends l (l ++ [x]).
Proof. now exists [x]. Qed.

(** One tool opens at most one window, and only [openUrl] and
    [googleSearch] open any. *)
Lemma tool_body_opened P name args n :
  let n' := fst (tool_body P name args n) in
  opened n' = opened n \/
  ((is_name name "openUrl" || is_name name "googleSearch") = true /\
   exists url : string, opened n' = (opened n ++ [url])%list).
Proof.
  cbv zeta. unfold tool_body.
  destruct (is_name name "openUrl") eqn:E1.
  - unfold openUrl, bindM, liftE, call_window_open, modify, retM.
    destruct (get_prop args "url") as [u|e]; [|now left].
    destruct (call_toLowerCase u) as [url|e]; [|now left].
    right. split; [reflexivity|]. eexists.
    destruct (window_open P (opened n) _) as [[|]|e]; reflexivity.
  - destruct (is_name name "googleSearch") eqn:E2.
    + unfold googleSearch, bindM, liftE, call_window_open, modify, retM.
      destruct (get_prop args "query") as [q|e]; [|now left].
      destruct (encodeURIComponent P q) as [s|e]; [|now left].
      right. split; [reflexivity|]. eexists.
      destruct (window_open P (opened n) _) as [[|]|e]; reflexivity.
    + left. destruct (is_name name "changeTheme").
      * unfold changeTheme, bindM, liftE, modify, retM.
        now destruct (get_prop args "mode").
      * now destruct (is_name name "getSystemStatus").
Qed.

Lemma batch_opened P n fcs rs n' :
  batch P n fcs rs n' ->
  exists urls : list string,
    opened n' = (opened n ++ urls)%list /\
    (List.length urls <= List.length (filter opens_window fcs))%nat.
Proof.
  induction 1 as [n|n fc fcs n1 out rs n' Hbody _ (urls & IH1 & IH2)].
  - exists []. split; [now rewrite app_nil_r | cbn; lia].
  - pose proof (tool_body_opened P (fc_name fc) (fc_args fc) (before_try P fc n)) as H.
    cbv zeta in H. rewrite Hbody in H. cbn [fst] in H.
    assert (Ha : opened (after_try out n1) = opened n1) by now destruct out.
    change (opened (before_try P fc n)) with (opened n) in H.
    rewrite Ha in IH1. cbn [filter]. fold (opens_window fc) in H.
    destruct H as [E|[Hw (url & E)]].
    + exists urls. split; [congruence|].
      destruct (opens_window fc); cbn [List.length]; lia.
    + exists (url :: urls). split.
      * rewrite IH1, E, <- app_assoc. reflexivity.
      * rewrite Hw. cbn [List.length]. lia.
Qed.

(** X24.  A batch of tool calls opens at most one window for each call
    of [openUrl] or [googleSearch] in it, and none for any other call; the
    windows opened before stay on the record. *)
Theorem X24_batch_opens_at_most_one_window_per_call :
  forall (P : Platform) (fcs : list FunctionCall) (n : Nova),
    let n' := fst (onmessage_toolCall P (Some (mkToolCall (Some fcs))) n) in
    exists urls : list string,
      opened n' = (opened n ++ urls)%list /\
      (List.length urls <= List.length (filter opens_window fcs))%nat.
Proof.
  intros P fcs n n'.
  destruct (dispatch_eq P fcs n) as (rs & n1 & Hrun & Hb & _).
  unfold n'. rewrite Hrun. cbn [fst].
  change (opened (sendToolResponse rs n1)) with (opened n1).
  exact (batch_opened P n fcs rs n1 Hb).
Qed.

Lemma toolCall_opened P tc n :
  extends (opened n) (opened (fst (onmessage_toolCall P tc n))).
Proof.
  destruct tc as [[[fcs|]]|]; try apply extends_refl.
  destruct (dispatch_eq P fcs n) as (rs & n1 & Hrun & Hb & _).
  rewrite Hrun. cbn [fst].
  change (opened (sendToolResponse rs n1)) with (opened n1).
  destruct (batch_opened P n fcs rs n1 Hb) as (urls & -> & _). now exists urls.
Qed.

(** The four records the frame lemmas can follow. *)
Lemma toolCall_grows P tc n :
  let n' := fst (onmessage_toolCall P tc n) in
  extends (logs n) (logs n') /\
  extends (started n) (started n') /\
  extends (realtimeInput n) (realtimeInput n') /\
  extends (toolResponses n) (toolResponses n').
Proof.
  apply (stable_onmessage_toolCall
           (fun a b =>
              extends (logs a) (logs b) /\
              extends (started a) (started b) /\
              extends (realtimeInput a) (realtimeInput b) /\
              extends (toolResponses a) (toolResponses b))).
  - intros a. repeat split; apply extends_refl.
  - intros a b c (A1 & A2 & A3 & A4) (B1 & B2 & B3 & B4).
    repeat split; eapply extends_trans; eassumption.
  - intros. repeat split; first [apply extends_snoc | apply extends_refl].
  - intros. repeat split; apply extends_refl.
  - intros. repeat split; apply extends_refl.
  - intros. repeat split; first [apply extends_snoc | apply extends_refl].
Qed.

Lemma only_grows_refl n : only_grows n n.
Proof. repeat split; apply extends_refl. Qed.

Lemma only_grows_trans a b c : only_grows a b -> only_grows b c -> only_grows a c.
Proof.
  intros (A1 & A2 & A3 & A4 & A5) (B1 & B2 & B3 & B4 & B5).
  repeat split; eapply extends_trans; eassumption.
Qed.

Lemma before_dispatch_grows now msg n :
  only_grows n (after_turn msg (after_transcript msg (after_audio now msg n))).
Proof.
  unfold after_turn, after_transcript, after_audio, schedule.
  by_cases; repeat split; first [apply extends_refl | apply extends_snoc | idtac].
  all: cbn; eexists; rewrite <- ?app_assoc; reflexivity.
Qed.

Lemma onmessage_grows P now msg n :
  only_grows n (fst (onmessage P now msg n)).
Proof.
  destruct (stopRef n) eqn:Hstop.
  - unfold onmessage. rewrite Hstop. apply only_grows_refl.
  - rewrite (onmessage_flat P now msg n Hstop).
    eapply only_grows_trans; [apply (before_dispatch_grows now msg n)|].
    generalize (after_turn msg (after_transcript msg (after_audio now msg n))).
    intros m. destruct (toolCall_grows P (toolCall msg) m) as (G1 & G2 & G3 & G4).
    repeat split; try assumption. apply toolCall_opened.
Qed.

Lemma step_grows P ev n : only_grows n (step P ev n).
Proof.
  destruct ev; cbn [step].
  1-5, 8-11:
    open_handlers; repeat split;
    first [apply extends_refl | apply extends_snoc
          | cbn; eexists; rewrite <- ?app_assoc; reflexivity].
  - apply (stable_onaudioprocess only_grows);
      first [exact only_grows_refl | exact only_grows_trans | idtac];
      intros; repeat split; first [apply extends_refl | apply extends_snoc].
  - apply onmessage_grows.
Qed.

(** X25.  Over any sequence of events the log, the playback units
    started, the audio blobs sent, the tool responses sent and the URLs
    given to [window.open] only grow at their end: nothing the hook has
    recorded or sent is ever removed or rewritten. *)
Theorem X25_records_only_grow :
  forall (P : Platform) (evs : list Event) (n : Nova),
    only_grows n (run P evs n).
Proof.
  intros P evs. induction evs as [|ev evs IH]; intros n.
  - apply only_grows_refl.
  - cbn [run fold_left]. eapply only_grows_trans; [apply step_grows | apply IH].
Qed.

(** ** Tools that fail, and the interface *)

(** X26.  [openUrl] when it cannot open.  If [window.open] gives no
    window the call is answered [{ opened: false, error: 'Popup blocked' }],
    the URL staying on the record of what was tried.  If the arguments
    hold no string under [url] the call throws inside its [try]: it is
    answered by an error payload and [window.open] is not called. *)
Theorem X26_openUrl_failures_are_answered :
  forall (P : Platform) (fc : FunctionCall) (n : Nova),
    fc_name fc = JString "openUrl" ->
    (forall raw : string,
       get_prop (fc_args fc) "url" = Ok (JString raw) ->
       let url := clean_url (urlApi P) (toLowerCase raw) in
       window_open P (opened n) url = Ok false ->
       exists n' : Nova,
         run_call P fc n =
           (n', Ok (mkResponse (fc_id fc) (fc_name fc)
                      (JObject [("result",
                                 JObject [("opened", JBool false);
                                          ("error", JString "Popup blocked")])]))) /\
         opened n' = (opened n ++ [url])%list) /\
    ((forall raw : string, get_prop (fc_args fc) "url" <> Ok (JString raw)) ->
     exists (n' : Nova) (msg : string),
       run_call P fc n =
         (n', Ok (mkResponse (fc_id fc) (fc_name fc)
                    (JObject [("result", JObject [("error", JString msg)])]))) /\
       opened n' = opened n).
Proof.
  intros P [name args id] n Hname. cbn [fc_name fc_args fc_id] in *. subst name.
  rewrite run_call_eq. cbn [fc_name fc_args fc_id].
  unfold tool_body. cbn [is_name String.eqb Ascii.eqb Bool.eqb].
  set (fc := mkCall (JString "openUrl") args id).
  set (n0 := before_try P fc n).
  assert (Ho : opened n0 = opened n) by reflexivity.
  clearbody n0. split.
  - intros raw Hurl Hwin.
    unfold openUrl, bindM, liftE, call_window_open, modify, retM.
    rewrite Hurl. cbn [call_toLowerCase]. rewrite Ho, Hwin.
    eexists. split; [reflexivity|]. reflexivity.
  - intros Hnone.
    unfold openUrl, bindM, liftE, call_window_open, modify, retM.
    destruct (get_prop args "url") as [u|e] eqn:Hu.
    + destruct u as [| |b|q|s|fields];
        try (eexists; eexists; split; [reflexivity | exact Ho]).
      exfalso. now apply (Hnone s).
    + eexists. eexists. split; [reflexivity | exact Ho].
Qed.

Lemma X26_openUrl_failures_witness :
  let fc := mkCall (JString "openUrl") (JObject [("link", JString "x")]) (JString "id") in
  exists (n' : Nova) (msg : string),
    run_call example_platform fc initial =
      (n', Ok (mkResponse (fc_id fc) (fc_name fc)
                 (JObject [("result", JObject [("error", JString msg)])]))) /\
    opened n' = opened initial.
Proof.
  apply (proj2 (X26_openUrl_failures_are_answered example_platform
                  (mkCall (JString "openUrl") (JObject [("link", JString "x")])
                     (JString "id"))
                  initial eq_refl)).
  intros raw. discriminate.
Defined.

(** X27.  [changeTheme] stores whatever it finds under [mode], without
    checking it against the three modes declared to the service, and
    answers with it.  The theme effect of the page then gives the light
    colours exactly when that value is the string [light]: every other
    value, [cyberpunk] included, gives the colours of [dark]. *)
Theorem X27_changeTheme_stores_any_mode :
  forall (P : Platform) (args mode : JsVal) (n : Nova),
    get_prop args "mode" = Ok mode ->
    let n' := fst (changeTheme P args n) in
    snd (changeTheme P args n) = Ok (JObject [("themeChangedTo", mode)]) /\
    currentTheme n' = mode /\
    (theme_colors (currentTheme n') = ("#f8fafc", "#0f172a") <-> mode = JString "light") /\
    (mode <> JString "light" ->
     theme_colors (currentTheme n') = theme_colors (JString "dark")).
Proof.
  intros P args mode n Hm n'.
  assert (E : changeTheme P args n =
              (addLog ("Theme changed to " ++ template P mode) Tp_tool Src_system None
                 (set_currentTheme mode n),
               Ok (JObject [("themeChangedTo", mode)]))).
  { unfold changeTheme, bindM, liftE, modify, retM. now rewrite Hm. }
  unfold n'. rewrite E. cbn [fst snd].
  change (currentTheme (addLog ("Theme changed to " ++ template P mode) Tp_tool
                          Src_system None (set_currentTheme mode n))) with mode.
  assert (Hl : is_name mode "light" = true <-> mode = JString "light").
  { destruct mode; cbn [is_name]; split; intros H; try discriminate H.
    - apply String.eqb_eq in H. now subst.
    - inversion H. reflexivity. }
  split; [reflexivity|]. split; [reflexivity|]. split; [split|].
  - unfold theme_colors. destruct (is_name mode "light") eqn:B.
    + intros _. now apply Hl.
    + discriminate.
  - intros ->. reflexivity.
  - intros Hne. unfold theme_colors. destruct (is_name mode "light") eqn:B.
    + exfalso. apply Hne. now apply Hl.
    + reflexivity.
Qed.

Lemma X27_changeTheme_witness :
  let args := JObject [("mode", JString "cyberpunk")] in
  let n' := fst (changeTheme example_platform args initial) in
  snd (changeTheme example_platform args initial)
    = Ok (JObject [("themeChangedTo", JString "cyberpunk")]) /\
  currentTheme n' = JString "cyberpunk" /\
  (theme_colors (currentTheme n') = ("#f8fafc", "#0f172a")
   <-> JString "cyberpunk" = JString "light") /\
  (JString "cyberpunk" <> JString "light" ->
   theme_colors (currentTheme n') = theme_colors (JString "dark")).
Proof.
  apply (X27_changeTheme_stores_any_mode example_platform
           (JObject [("mode", JString "cyberpunk")]) (JString "cyberpunk") initial).
  reflexivity.
Defined.

(** *** The command field *)

Lemma trimStart_empty s :
  trimStart s = EmptyString <-> Whatwg.all_chars is_space s = true.
Proof.
  induction s as [|c s IH]; cbn [trimStart Whatwg.all_chars]; [tauto|].
  destruct (is_space c); cbn [andb]; [exact IH|].
  split; discriminate.
Qed.

Lemma all_chars_forallb p l :
  Whatwg.all_chars p (string_of_list_ascii l) = forallb p l.
Proof.
  induction l as [|c l IH]; [reflexivity|]. cbn. now rewrite IH.
Qed.

Lemma reverse_all_chars p s :
  Whatwg.all_chars p (reverse s) = Whatwg.all_chars p s.
Proof.
  unfold reverse. rewrite all_chars_forallb.
  rewrite <- (string_of_list_ascii_of_string s) at 2. rewrite all_chars_forallb.
  generalize (list_ascii_of_string s). intros l.
  induction l as [|c l IH]; [reflexivity|].
  cbn [rev forallb]. rewrite forallb_app, IH. cbn [forallb].
  now rewrite andb_true_r, andb_comm.
Qed.

Lemma trimStart_all_chars s :
  Whatwg.all_chars is_space (trimStart s) = Whatwg.all_chars is_space s.
Proof.
  induction s as [|c s IH]; [reflexivity|]. cbn [trimStart].
  destruct (is_space c) eqn:E; [|reflexivity].
  cbn [Whatwg.all_chars]. now rewrite E, IH.
Qed.

Lemma reverse_empty s : reverse s = EmptyString -> s = EmptyString.
Proof.
  unfold reverse. intros H.
  apply (f_equal list_ascii_of_string) in H.
  rewrite list_ascii_of_string_of_list_ascii in H. cbn in H.
  apply (f_equal (@rev ascii)) in H. rewrite rev_involutive in H. cbn in H.
  rewrite <- (string_of_list_ascii_of_string s), H. reflexivity.
Qed.

(** A text trims to nothing exactly when it is white space only. *)
Lemma trim_blank s :
  String.eqb (trim s) EmptyString = Whatwg.all_chars is_space s.
Proof.
  destruct (Whatwg.all_chars is_space s) eqn:E.
  - apply String.eqb_eq. unfold trim.
    apply trimStart_empty in E. rewrite E. reflexivity.
  - apply String.eqb_neq. unfold trim. intros H.
    apply reverse_empty in H. apply trimStart_empty in H.
    rewrite reverse_all_chars, trimStart_all_chars in H. congruence.
Qed.

(** X28.  [handleSend] does nothing when the field holds white space
    only.  Otherwise it hands the text to [sendTextMessage] as typed, not
    trimmed, and empties the field whatever comes of it: without a
    session the text is not sent and an error is logged; with one, the
    text is sent and logged as a command, or, if the session throws, an
    error is logged. *)
Theorem X28_handleSend :
  forall (send : Exc unit) (textInput : string) (n : Nova),
    (Whatwg.all_chars is_space textInput = true ->
     handleSend send textInput n = (n, None, textInput)) /\
    (Whatwg.all_chars is_space textInput = false ->
     (sessionRef n = false ->
      handleSend send textInput n =
        (addLog "Connect to Nova first to send commands." Tp_error Src_system None n,
         None, EmptyString)) /\
     (sessionRef n = true -> send = Ok tt ->
      handleSend send textInput n =
        (addLog ("Command: " ++ textInput) Tp_info Src_user None n,
         Some textInput, EmptyString)) /\
     (sessionRef n = true -> forall e : JsError, send = Throw e ->
      handleSend send textInput n =
        (addLog ("Error sending command: " ++ message e) Tp_error Src_system None n,
         None, EmptyString))).
Proof.
  intros send textInput n. unfold handleSend. rewrite trim_blank. split.
  - intros ->. reflexivity.
  - intros ->. unfold sendTextMessage. split; [|split].
    + intros ->. reflexivity.
    + intros -> ->. reflexivity.
    + intros -> e ->. reflexivity.
Qed.

Lemma X28_handleSend_witness :
  handleSend (Ok tt) "   " (connect_resolved initial)
    = (connect_resolved initial, None, "   ") /\
  handleSend (Ok tt) " open reddit " (connect_resolved initial)
    = (addLog ("Command: " ++ " open reddit ") Tp_info Src_user None
         (connect_resolved initial),
       Some " open reddit ", EmptyString) /\
  handleSend (Ok tt) "open reddit" initial
    = (addLog "Connect to Nova first to send commands." Tp_error Src_system None
         initial,
       None, EmptyString).
Proof.
  split; [|split].
  - apply (proj1 (X28_handleSend (Ok tt) "   " (connect_resolved initial))).
    reflexivity.
  - apply (proj2 (X28_handleSend (Ok tt) " open reddit " (connect_resolved initial)));
      reflexivity.
  - apply (proj2 (X28_handleSend (Ok tt) "open reddit" initial)); reflexivity.
Defined.

(** *** The power button *)

(** X29.  [handleToggle] with a key.  From a status other than IDLE and
    ERROR it disconnects: the status is IDLE, the stop flag is up and the
    session reference is cleared; and pressing again connects, because
    [disconnect] has lowered the connecting flag: the status is CONNECTING
    and the stop flag is down.  From IDLE or ERROR it connects, unless a
    connection is already being made. *)
Theorem X29_handleToggle :
  forall (API_KEY : string) (n : Nova),
    API_KEY <> EmptyString ->
    (status n <> IDLE -> status n <> ERROR ->
     let n1 := handleToggle API_KEY n in
     let n2 := handleToggle API_KEY n1 in
     (status n1 = IDLE /\ stopRef n1 = true /\ sessionRef n1 = false) /\
     (status n2 = CONNECTING /\ stopRef n2 = false /\ isConnectingRef n2 = true)) /\
    (status n = IDLE \/ status n = ERROR ->
     isConnectingRef n = false ->
     let n1 := handleToggle API_KEY n in
     status n1 = CONNECTING /\ stopRef n1 = false /\ isConnectingRef n1 = true).
Proof.
  intros API_KEY n Hk. apply String.eqb_neq in Hk.
  assert (Hconnect : forall m, isConnectingRef m = false ->
            status (connect API_KEY m) = CONNECTING /\
            stopRef (connect API_KEY m) = false /\
            isConnectingRef (connect API_KEY m) = true).
  { intros m Hm. unfold connect. rewrite Hk, Hm. unfold stopWakeWord.
    by_cases; repeat split; reflexivity. }
  split.
  - intros H1 H2. cbv zeta.
    assert (E1 : handleToggle API_KEY n = disconnect n).
    { unfold handleToggle. destruct (status n); congruence. }
    rewrite E1.
    assert (Hd : status (disconnect n) = IDLE /\ stopRef (disconnect n) = true /\
                 sessionRef (disconnect n) = false /\
                 isConnectingRef (disconnect n) = false).
    { unfold disconnect, cleanupAudio, stopScreenShare.
      by_cases; repeat split; reflexivity. }
    revert Hd. generalize (disconnect n). intros d (D1 & D2 & D3 & D4).
    split; [repeat split; assumption|].
    assert (E2 : handleToggle API_KEY d = connect API_KEY d).
    { unfold handleToggle. now rewrite D1. }
    rewrite E2. now apply Hconnect.
  - intros Hs Hc. cbv zeta.
    assert (E1 : handleToggle API_KEY n = connect API_KEY n).
    { unfold handleToggle. destruct Hs as [-> | ->]; reflexivity. }
    rewrite E1. now apply Hconnect.
Qed.

Lemma X29_handleToggle_witness :
  let n := onopen (Ok tt) (connect "key" initial) in
  let n1 := handleToggle "key" n in
  let n2 := handleToggle "key" n1 in
  (status n1 = IDLE /\ stopRef n1 = true /\ sessionRef n1 = false) /\
  (status n2 = CONNECTING /\ stopRef n2 = false /\ isConnectingRef n2 = true).
Proof.
  apply (proj1 (X29_handleToggle "key" (onopen (Ok tt) (connect "key" initial))
                  ltac:(discriminate))); discriminate.
Defined.

(** *** The bars of the visualiser *)

Lemma bar_index_in_bounds (len i : nat) :
  (0 < len)%nat -> (i < bars)%nat -> (i * (len / bars) < len)%nat.
Proof.
  unfold bars. intros Hlen Hi.
  pose proof (Nat.Div0.mul_div_le len 64) as H.
  destruct (len / 64)%nat as [|q]; [lia|]. nia.
Qed.

(** X30.  The visualiser never reads outside the frequency data: for
    every non-empty array of bytes each of the 64 bars reads an element of
    the array, and the height drawn for it lies between 0 and 100. *)
Theorem X30_visualiser_bars_in_bounds :
  forall dataArray : list N,
    dataArray <> [] ->
    Forall (fun value => (value <= 255)%N) dataArray ->
    List.length (bar_values dataArray) = 64%nat /\
    Forall (fun v =>
              exists value : N,
                v = Some value /\ In value dataArray /\
                (0 <= barHeight value <= 100)%Q)
           (bar_values dataArray).
Proof.
  intros dataArray Hne Hb. unfold bar_values.
  split; [now rewrite length_map, length_seq|].
  apply Forall_forall. intros v Hv. apply in_map_iff in Hv.
  destruct Hv as (i & <- & Hi). apply in_seq in Hi.
  assert (Hlen : (0 < List.length dataArray)%nat).
  { destruct dataArray; [congruence | cbn; lia]. }
  pose proof (bar_index_in_bounds (List.length dataArray) i Hlen ltac:(lia)) as Hin.
  destruct (nth_error dataArray (i * (List.length dataArray / bars))) as [value|] eqn:E.
  - exists value. split; [reflexivity|]. apply nth_error_In in E as Hmem.
    split; [exact Hmem|]. rewrite Forall_forall in Hb. specialize (Hb value Hmem).
    unfold barHeight.
    assert (L : (0 <= inject_Z (Z.of_N value))%Q).
    { change 0%Q with (inject_Z 0). rewrite <- Zle_Qle. lia. }
    assert (U : (inject_Z (Z.of_N value) <= 255)%Q).
    { change 255%Q with (inject_Z 255). rewrite <- Zle_Qle. lia. }
    set (t := inject_Z (Z.of_N value)) in *. clearbody t.
    unfold Qdiv. setoid_replace (/ 255)%Q with (1 # 255)%Q by reflexivity.
    split; lra.
  - apply nth_error_None in E. lia.
Qed.

Lemma X30_visualiser_witness :
  List.length (bar_values [0; 128; 255]%N) = 64%nat /\
  Forall (fun v =>
            exists value : N,
              v = Some value /\ In value [0; 128; 255]%N /\
              (0 <= barHeight value <= 100)%Q)
         (bar_values [0; 128; 255]%N).
Proof.
  apply (X30_visualiser_bars_in_bounds [0; 128; 255]%N); [discriminate|].
  repeat constructor; discriminate.
Defined.
